(** * grunt-localeapp: a shallow embedding of [tasks/localeapp.js]

    The task pulls locale files from localeapp.com through the [localeapp]
    command line tool, reformats them and copies them to a destination.

    Conventions of the embedding.
    - A JavaScript string is a [string]; one character stands for one code
      unit (text outside Latin-1 is not represented).
    - A value loaded from YAML is a [value]: a mapping, a sequence, a
      string, a number, a boolean, [null] or a timestamp.  An object is the
      list of its own enumerable properties in [for ... in] order.  Numbers
      are integers; what the tags [!!binary] and [!!js/...] of js-yaml build
      is not represented.
    - The file system is a tree rooted at the working directory of the
      process.  Paths are written with [/]; empty components and [.] are
      passed over.  Absolute paths and the component [..] are not
      interpreted: the properties that depend on a path given by the user
      ask for a path that is [interpreted].
    - [fs.rename] is asynchronous in Node: the call queues the rename, and
      the thread pool carries it out at some later time, while the task goes
      on.  The renames called and not yet carried out are the [pending] ones
      of the trace; they are carried out at the points marked [settle], in
      the order and at the times a scheduler chooses, which is a field of
      the [host].  The callback of a rename runs after the task function
      has returned, so never in this model.
    - Node is the Node of the package ([execSync] builds on 0.10): an
      asynchronous call of [fs] may leave out its callback.
    - [fs.mkdir] is asynchronous too.  It is modelled as carried out by the
      time the next statement runs; its errors never reach the task body.
    - [grunt.fail.fatal] aborts the task.
    - The [chalk] styles are rendered without escape sequences.
    - The [localeapp] gem, the two YAML parsers and the rendering of dates
      are collaborators of the task: they are the fields of a [host]. *)

From Stdlib Require Import String Ascii List ZArith Lia Bool Arith.
From Stdlib Require Import Permutation DecimalString DecimalPos.
Import ListNotations.

Local Open Scope list_scope.
Local Open Scope string_scope.

#[local] Set Warnings "-register-all".

(** ** JavaScript string primitives *)

Module JsString.

(** [n.toString()] for a non-negative integer. *)
Definition of_nat (n : nat) : string :=
  NilEmpty.string_of_uint (Nat.to_uint n).

(** Clamp a relative index of [slice] into [0 .. len]. *)
Definition clamp (len : nat) (i : Z) : nat :=
  if (i <? 0)%Z then Z.to_nat (Z.max (Z.of_nat len + i) 0)
  else Nat.min (Z.to_nat i) len.

(** [s.slice(b, e)] *)
Definition slice (b e : Z) (s : string) : string :=
  let from := clamp (String.length s) b in
  let to := clamp (String.length s) e in
  substring from (to - from) s.

(** [s.substr(n)]: the string without its first [n] characters. *)
Fixpoint drop (n : nat) (s : string) : string :=
  match n, s with
  | O, _ => s
  | S _, EmptyString => EmptyString
  | S n', String _ s' => drop n' s'
  end.

(** [s.replace(pat, rep)] for a string pattern: only the first occurrence
    is replaced.  ([rep] has no [$] pattern in this program.) *)
Fixpoint replace (pat rep s : string) : string :=
  if prefix pat s then rep ++ drop (String.length pat) s
  else match s with
       | EmptyString => EmptyString
       | String c s' => String c (replace pat rep s')
       end.

(** [s.split(sep)] for a non-empty separator.  [skip] counts the characters
    of a separator still to be passed over, [cur] is the piece being read. *)
Fixpoint split_from (sep : string) (skip : nat) (cur s : string) : list string :=
  match s with
  | EmptyString => [cur]
  | String c s' =>
      match skip with
      | S k => split_from sep k cur s'
      | O => if prefix sep s
             then cur :: split_from sep (String.length sep - 1) EmptyString s'
             else split_from sep O (cur ++ String c EmptyString) s'
      end
  end.

Definition split (sep s : string) : list string :=
  split_from sep O EmptyString s.

(** [xs.join(sep)] *)
Definition join (sep : string) (xs : list string) : string :=
  String.concat sep xs.

(** String concatenation with a possibly undefined operand. *)
Definition of_option (o : option string) : string :=
  match o with
  | Some s => s
  | None => "undefined"
  end.

End JsString.

(** ** Values loaded from YAML *)

Inductive value : Type :=
| VNull
| VBool (b : bool)
| VNum (n : Z)
| VStr (s : string)
| VDate (iso : string)         (* a timestamp: a Date, given by its ISO form *)
| VArr (items : list value)
| VObj (props : list (string * value)).

Definition typeof (v : value) : string :=
  match v with
  | VNull => "object"
  | VBool _ => "boolean"
  | VNum _ => "number"
  | VStr _ => "string"
  | VDate _ => "object"
  | VArr _ => "object"
  | VObj _ => "object"
  end.

(** Own property lookup, [obj[key]] on an object built by the YAML loader. *)
Fixpoint own (props : list (string * value)) (key : string) : option value :=
  match props with
  | [] => None
  | (k, v) :: rest => if k =? key then Some v else own rest key
  end.

(** ** Outcomes *)

Inductive failure : Type :=
| Fatal (msg : string)       (* grunt.fail.fatal *)
| Warned (msg : string)      (* grunt.fail.warn, without --force *)
| Thrown (msg : string).     (* an uncaught exception *)

Inductive result (A : Type) : Type :=
| Ok (a : A)
| Err (e : failure).

Arguments Ok {A} a.
Arguments Err {A} e.

(** ** The entry counter *)

(** [obj.hasOwnProperty(property)] for an enumerated [property]: the method is
    looked up on the object itself, so a document key of that name hides it
    and the call is a TypeError. *)
Definition hasOwnProperty (props : list (string * value)) (property : string)
  : result bool :=
  match own props "hasOwnProperty" with
  | Some _ => Err (Thrown "TypeError: obj.hasOwnProperty is not a function")
  | None => Ok (match own props property with Some _ => true | None => false end)
  end.

(** [properties.push(x)] *)
Definition push {A : Type} (xs : list A) (x : A) : list A := List.app xs [x].

(** The closure [iterate] of [_countEntries]; [properties] is the array it
    pushes to. *)
Fixpoint iterate (obj : value) (stack : string) (properties : list string)
  : result (list string) :=
  match obj with
  | VObj props =>
      (fix each (ps : list (string * value)) (properties : list string) :=
         match ps with
         | [] => Ok properties
         | (property, v) :: ps' =>
             match hasOwnProperty props property with
             | Err e => Err e
             | Ok false => each ps' properties
             | Ok true =>
                 if typeof v =? "object" then
                   match iterate v (stack ++ "." ++ property) properties with
                   | Err e => Err e
                   | Ok properties' => each ps' properties'
                   end
                 else each ps' (push properties (stack ++ "." ++ property))
             end
         end) props properties
  | VArr items =>
      (fix each (xs : list value) (i : nat) (properties : list string) :=
         match xs with
         | [] => Ok properties
         | v :: xs' =>
             let property := JsString.of_nat i in
             if typeof v =? "object" then
               match iterate v (stack ++ "." ++ property) properties with
               | Err e => Err e
               | Ok properties' => each xs' (S i) properties'
               end
             else each xs' (S i) (push properties (stack ++ "." ++ property))
         end) items O properties
  | VStr s =>
      (* the indices of a string are enumerable; each holds a string *)
      Ok (fold_left (fun acc i => push acc (stack ++ "." ++ JsString.of_nat i))
                    (seq 0 (String.length s)) properties)
  | VDate _ =>
      (* a Date has no enumerable property *)
      Ok properties
  | VNull | VBool _ | VNum _ => Ok properties
  end.

(** [_countEntries] once the document is loaded: [properties.length]. *)
Definition countDocument (doc : value) : result nat :=
  match iterate doc "" [] with
  | Ok properties => Ok (List.length properties)
  | Err e => Err e
  end.

(** ** JSON.stringify(value, null, 2) *)

Module JSON.

Definition nl : string := String (ascii_of_nat 10) EmptyString.
Definition dquote : ascii := ascii_of_nat 34.
Definition backslash : ascii := ascii_of_nat 92.

Definition hex_digit (n : nat) : ascii :=
  if (n <? 10)%nat then ascii_of_nat (48 + n) else ascii_of_nat (87 + n).

(** The escape of one character inside a string literal. *)
Definition escape (c : ascii) : string :=
  let n := nat_of_ascii c in
  if (n =? 34)%nat then String backslash (String dquote EmptyString)
  else if (n =? 92)%nat then String backslash (String backslash EmptyString)
  else if (n =? 8)%nat then String backslash "b"
  else if (n =? 9)%nat then String backslash "t"
  else if (n =? 10)%nat then String backslash "n"
  else if (n =? 12)%nat then String backslash "f"
  else if (n =? 13)%nat then String backslash "r"
  else if (n <? 32)%nat then
    String backslash
      (String "u" (String "0" (String "0"
         (String (hex_digit (n / 16)) (String (hex_digit (n mod 16)) EmptyString)))))
  else String c EmptyString.

Fixpoint escape_all (s : string) : string :=
  match s with
  | EmptyString => EmptyString
  | String c s' => escape c ++ escape_all s'
  end.

Definition quote (s : string) : string :=
  String dquote (escape_all s ++ String dquote EmptyString).

(** Integers print in decimal. *)
Definition number (n : Z) : string :=
  NilEmpty.string_of_int (Z.to_int n).

Definition gap : string := "  ".

(** The serialisation of a value at the current indentation. *)
Fixpoint str (indent : string) (v : value) : string :=
  match v with
  | VNull => "null"
  | VBool true => "true"
  | VBool false => "false"
  | VNum n => number n
  | VStr s => quote s
  | VDate iso => quote iso     (* Date.prototype.toJSON *)
  | VArr [] => "[]"
  | VArr items =>
      let inner := indent ++ gap in
      "[" ++ nl ++ inner
        ++ JsString.join ("," ++ nl ++ inner) (map (str inner) items)
        ++ nl ++ indent ++ "]"
  | VObj [] => "{}"
  | VObj props =>
      let inner := indent ++ gap in
      "{" ++ nl ++ inner
        ++ JsString.join ("," ++ nl ++ inner)
             (map (fun kv => quote (fst kv) ++ ": " ++ str inner (snd kv)) props)
        ++ nl ++ indent ++ "}"
  end.

(** [JSON.stringify(x, null, 2)]; [undefined] serialises to [undefined]. *)
Definition stringify (x : option value) : option string :=
  match x with
  | Some v => Some (str EmptyString v)
  | None => None
  end.

End JSON.

(** ** The file system *)

Inductive node : Type :=
| File (content : string)
| Dir (entries : list (string * node)).

Definition path := list string.

Module Fs.

(** A component that names an entry: not empty and not [.]. *)
Definition names_entry (c : string) : bool :=
  negb (c =? "") && negb (c =? ".").

(** A path string, split at [/]; empty components and [.] are passed over.
    The empty path is the working directory. *)
Definition path_of (p : string) : path :=
  filter names_entry (JsString.split "/" p).

(** The path strings read here as Node reads them: relative, without a
    component [..]. *)
Definition interpreted (p : string) : bool :=
  negb (prefix "/" p)
  && negb (existsb (String.eqb "..") (JsString.split "/" p)).

Fixpoint find (es : list (string * node)) (name : string) : option node :=
  match es with
  | [] => None
  | (k, n) :: rest => if k =? name then Some n else find rest name
  end.

Definition remove (es : list (string * node)) (name : string) :=
  filter (fun e => negb (fst e =? name)) es.

(** Replace the entry called [name], or add it after the existing ones. *)
Definition set (es : list (string * node)) (name : string) (n : node) :=
  match find es name with
  | Some _ => map (fun e => if fst e =? name then (name, n) else e) es
  | None => List.app es [(name, n)]
  end.

Fixpoint lookup (p : path) (n : node) {struct p} : option node :=
  match p with
  | [] => Some n
  | name :: rest =>
      match n with
      | Dir es => match find es name with
                  | Some c => lookup rest c
                  | None => None
                  end
      | File _ => None
      end
  end.

(** Change what sits at [p].  [f] sees the current entry and answers
    [None] to fail, [Some None] to remove it, [Some (Some n)] to put [n]
    there.  With [mk] the missing directories on the way are created. *)
Fixpoint alter (mk : bool) (p : path)
         (f : option node -> option (option node)) (n : node) {struct p}
  : option node :=
  match p, n with
  | [], _ => None
  | _ :: _, File _ => None
  | [name], Dir es =>
      match f (find es name) with
      | None => None
      | Some None => Some (Dir (remove es name))
      | Some (Some c) => Some (Dir (set es name c))
      end
  | name :: rest, Dir es =>
      match find es name with
      | Some c =>
          match alter mk rest f c with
          | Some c' => Some (Dir (set es name c'))
          | None => None
          end
      | None =>
          if mk then
            match alter mk rest f (Dir []) with
            | Some c' => Some (Dir (set es name c'))
            | None => None
            end
          else None
      end
  end.

Definition isDir (root : node) (p : path) : bool :=
  match lookup p root with
  | Some (Dir _) => true
  | _ => false
  end.

Definition exists_ (root : node) (p : path) : bool :=
  match lookup p root with
  | Some _ => true
  | None => false
  end.

Definition readFile (root : node) (p : path) : option string :=
  match lookup p root with
  | Some (File c) => Some c
  | _ => None
  end.

Definition readdir (root : node) (p : path) : option (list string) :=
  match lookup p root with
  | Some (Dir es) => Some (map fst es)
  | _ => None
  end.

(** Recursive removal. *)
Definition delete (root : node) (p : path) : option node :=
  alter false p (fun _ => Some None) root.

(** [mkdir] of one level: the parent must exist, the target must not. *)
Definition mkdir (root : node) (p : path) : option node :=
  alter false p (fun o => match o with
                          | None => Some (Some (Dir []))
                          | Some _ => None
                          end) root.

(** [open(p, 'w')]: create or truncate a regular file. *)
Definition create (root : node) (p : path) : option node :=
  alter false p (fun o => match o with
                          | Some (Dir _) => None
                          | _ => Some (Some (File EmptyString))
                          end) root.

(** Write a file, creating the directories that lead to it. *)
Definition writeFile (root : node) (p : path) (content : string) : option node :=
  alter true p (fun o => match o with
                         | Some (Dir _) => None
                         | _ => Some (Some (File content))
                         end) root.

Definition path_eqb (p q : path) : bool :=
  if list_eq_dec string_dec p q then true else false.

(** [rename(2)]: the source replaces the destination. *)
Definition rename (root : node) (src dst : path) : option node :=
  match lookup src root with
  | None => None
  | Some n =>
      if path_eqb src dst then Some root
      else
        match delete root src with
        | None => None
        | Some root' =>
            alter false dst
              (fun o => match o, n with
                        | Some (Dir _), File _ => None
                        | Some (File _), Dir _ => None
                        | Some (Dir (_ :: _)), Dir _ => None
                        | _, _ => Some (Some n)
                        end) root'
        end
  end.

End Fs.

(** ** The world of one task run *)

Inductive event : Type :=
| EExec (cmd : string)
| EMkdir (p : string)
| EOpen (p : string)
| ERename (src dst : string)             (* fs.rename is called *)
| ERenamed (src dst : string) (done : bool)
                                         (* a pending rename is carried out;
                                            [done] tells whether it succeeded *)
| EWrite (p content : string)
| ECopy (src dst : string)
| EDelete (p : string)
| ELog (line : string)         (* grunt.log.writeln *)
| EVerbose (text : string).    (* grunt.verbose.write and writeln *)

(** The renames called and not yet carried out, oldest first. *)
Definition same_rename (a b : string * string) : bool :=
  (fst a =? fst b) && (snd a =? snd b).

Fixpoint drop_first (r : string * string) (q : list (string * string))
  : list (string * string) :=
  match q with
  | [] => []
  | r' :: q' => if same_rename r r' then q' else r' :: drop_first r q'
  end.

Definition note (q : list (string * string)) (e : event)
  : list (string * string) :=
  match e with
  | ERename src dst => List.app q [(src, dst)]
  | ERenamed src dst _ => drop_first (src, dst) q
  | _ => q
  end.

Definition pending (t : list event) : list (string * string) :=
  fold_left note t [].

Record world : Type := World {
  fs : node;
  version : option string;     (* the variable [version]; [None] is undefined *)
  trace : list event           (* what the run did so far, oldest first *)
}.

(** The collaborators of the task that are not part of this repository. *)
Record host : Type := Host {
  (** [execSync.exec(cmd)]: the captured standard output and what the command
      did to the files. *)
  exec : string -> node -> string * node;
  (** The parser behind [yaml.load] (yamljs); [None] is a parse error. *)
  yamljs : string -> option value;
  (** The parser behind [grunt.file.readYAML] (js-yaml). *)
  jsyaml : string -> option value;
  (** [new Date(x * 1000).toString()] in the time zone of the machine. *)
  date_toString : option value -> string;
  (** The thread pool: given all that happened so far, the pending rename
      it carries out next, if any. *)
  lands : list event -> option (string * string)
}.

Definition M (A : Type) : Type := world -> result A * world.

Definition ret {A : Type} (a : A) : M A := fun w => (Ok a, w).

Definition bind {A B : Type} (m : M A) (k : A -> M B) : M B :=
  fun w => match m w with
           | (Ok a, w') => k a w'
           | (Err e, w') => (Err e, w')
           end.

Definition raise {A : Type} (e : failure) : M A := fun w => (Err e, w).

Notation "x <- m ;; k" := (bind m (fun x => k))
  (at level 61, m at next level, right associativity).
Notation "m ;; k" := (bind m (fun _ => k))
  (at level 61, right associativity).

Definition lift {A : Type} (r : result A) : M A := fun w => (r, w).

Definition emit (e : event) : M unit :=
  fun w => (Ok tt, World (fs w) (version w) (List.app (trace w) [e])).

Definition get_fs : M node := fun w => (Ok (fs w), w).

Definition put_fs (root : node) : M unit :=
  fun w => (Ok tt, World root (version w) (trace w)).

Definition get_version : M (option string) := fun w => (Ok (version w), w).

Definition get_trace : M (list event) := fun w => (Ok (trace w), w).

Definition set_version (v : option string) : M unit :=
  fun w => (Ok tt, World (fs w) v (trace w)).

(** [for (var i in xs)] over an array, threading the variables the body
    assigns. *)
Fixpoint for_in {A St : Type} (xs : list A) (i : nat)
         (body : nat -> A -> St -> M St) (s : St) : M St :=
  match xs with
  | [] => ret s
  | x :: xs' => s' <- body i x s ;; for_in xs' (S i) body s'
  end.

Module chalk.
Definition green (s : string) : string := s.
Definition gray (s : string) : string := s.
Definition blue (s : string) : string := s.
Definition italic (s : string) : string := s.
End chalk.

Module grunt.

Definition log_writeln (s : string) : M unit := emit (ELog s).
Definition verbose_writeln (s : string) : M unit := emit (EVerbose s).
Definition verbose_write (s : string) : M unit := emit (EVerbose s).
Definition log_warn (s : string) : M unit := emit (ELog s).
Definition fail_fatal {A : Type} (msg : string) : M A := raise (Fatal msg).
Definition fail_warn {A : Type} (msg : string) : M A := raise (Warned msg).

Definition file_isDir (p : string) : M bool :=
  root <- get_fs ;; ret (Fs.isDir root (Fs.path_of p)).

(** [grunt.file.delete(p)], without [--force]: what does not exist is
    passed over with a warning in the log, and the working directory itself
    is refused through [grunt.fail.warn]. *)
Definition file_delete (p : string) : M unit :=
  root <- get_fs ;;
  if negb (Fs.exists_ root (Fs.path_of p))
  then log_warn "Cannot delete nonexistent file."
  else match Fs.path_of p with
       | [] => fail_warn "Cannot delete the current working directory."
       | _ :: _ =>
           emit (EDelete p) ;;
           match Fs.delete root (Fs.path_of p) with
           | Some root' => put_fs root'
           | None => raise (Thrown ("Unable to delete " ++ p))
           end
       end.

Definition file_read (p : string) : M string :=
  root <- get_fs ;;
  match Fs.readFile root (Fs.path_of p) with
  | Some c => ret c
  | None => raise (Thrown ("Unable to read " ++ p))
  end.

Definition file_write (p content : string) : M unit :=
  root <- get_fs ;;
  emit (EWrite p content) ;;
  match Fs.writeFile root (Fs.path_of p) content with
  | Some root' => put_fs root'
  | None => raise (Thrown ("Unable to write " ++ p))
  end.

End grunt.

Definition tick : string := "✔ ".
Definition dq : string := String JSON.dquote EmptyString.
Definition rule : string := "----------------------------------".

(** [xs.indexOf(x)] *)
Fixpoint indexOf (xs : list string) (x : string) : Z :=
  match xs with
  | [] => (-1)%Z
  | y :: ys => if y =? x then 0%Z
               else let i := indexOf ys x in
                    if (i <? 0)%Z then (-1)%Z else (i + 1)%Z
  end.

(** [v[key]] for a loaded value, as far as the document decides it: the own
    properties of a mapping.  What a value inherits from its prototype
    ([constructor], [toString], ... for every object, the indices and
    [length] of sequences and strings) is not modelled; the properties about
    [v[key]] ask for a mapping with an own entry under [key], or for a [key]
    that is not one of [inherited]. *)
Definition get_prop (v : value) (key : string) : result (option value) :=
  match v with
  | VNull => Err (Thrown ("TypeError: Cannot read property '" ++ key ++ "' of null"))
  | VObj props => Ok (own props key)
  | _ => Ok None
  end.

(** [props[key] = x] on own properties. *)
Fixpoint assign (props : list (string * value)) (key : string) (x : value)
  : list (string * value) :=
  match props with
  | [] => [(key, x)]
  | (k, v) :: rest => if k =? key then (k, x) :: rest
                      else (k, v) :: assign rest key x
  end.

(** [json._meta = x] in strict mode.  An array and a Date accept the
    property, which is not one of the elements and is not serialised. *)
Definition set_meta (json : option value) (x : value) : result value :=
  match json with
  | Some (VObj props) => Ok (VObj (assign props "_meta" x))
  | Some (VArr items) => Ok (VArr items)
  | Some (VDate iso) => Ok (VDate iso)
  | _ => Err (Thrown "TypeError: Cannot set property '_meta'")
  end.

(** The result of [_getLocales]. *)
Record batch : Type := Batch {
  polledAt : option value;
  updatedAt : option value;
  files : list string
}.

Definition files_of (b : batch) : list string := files b.

(** [this.data] *)
Record config : Type := Config {
  key : string;
  format : string;
  dest : string
}.

Section Task.

Variable h : host.

(** [command(cmd).stdout] *)
Definition command (cmd : string) : M string :=
  root <- get_fs ;;
  emit (EExec cmd) ;;
  let (stdout, root') := exec h cmd root in
  put_fs root' ;;
  ret stdout.

(** [fs.mkdir(p)], no callback. *)
Definition fs_mkdir (p : string) : M unit :=
  root <- get_fs ;;
  emit (EMkdir p) ;;
  match Fs.mkdir root (Fs.path_of p) with
  | Some root' => put_fs root'
  | None => ret tt
  end.

(** [fs.openSync(p, 'w')] *)
Definition fs_openSync_w (p : string) : M unit :=
  root <- get_fs ;;
  emit (EOpen p) ;;
  match Fs.create root (Fs.path_of p) with
  | Some root' => put_fs root'
  | None => raise (Thrown ("Error: cannot open " ++ p))
  end.

(** [fs.readdirSync(p)]; the empty string names nothing. *)
Definition fs_readdirSync (p : string) : M (list string) :=
  root <- get_fs ;;
  match (if p =? "" then None else Fs.readdir root (Fs.path_of p)) with
  | Some names => ret names
  | None => raise (Thrown ("Error: cannot read directory " ++ p))
  end.

(** [fs.rename(src, dst, callback)]: the call queues the rename and returns.
    The callback, with the error if any, runs once the task function has
    returned. *)
Definition fs_rename (src dst : string) : M unit :=
  emit (ERename src dst).

(** The thread pool carries out one pending rename. *)
Definition carry_out (src dst : string) : M unit :=
  root <- get_fs ;;
  match Fs.rename root (Fs.path_of src) (Fs.path_of dst) with
  | Some root' => put_fs root' ;; emit (ERenamed src dst true)
  | None => emit (ERenamed src dst false)
  end.

(** A point of the task where pending renames may have been carried out:
    the scheduler names them one after the other, as many as it likes. *)
Fixpoint settle_upto (n : nat) : M unit :=
  match n with
  | O => ret tt
  | S n' =>
      t <- get_trace ;;
      match lands h t with
      | Some r =>
          if existsb (same_rename r) (pending t)
          then carry_out (fst r) (snd r) ;; settle_upto n'
          else ret tt
      | None => ret tt
      end
  end.

Definition settle : M unit :=
  t <- get_trace ;; settle_upto (List.length (pending t)).

(** [yaml.load(p)] *)
Definition yaml_load (p : string) : M value :=
  root <- get_fs ;;
  match Fs.readFile root (Fs.path_of p) with
  | None => raise (Thrown ("Error: cannot read " ++ p))
  | Some text =>
      match yamljs h text with
      | Some v => ret v
      | None => raise (Thrown ("YamlParseException in " ++ p))
      end
  end.

(** [grunt.file.readYAML(p)] *)
Definition file_readYAML (p : string) : M value :=
  text <- grunt.file_read p ;;
  match jsyaml h text with
  | Some v => ret v
  | None => raise (Thrown ("Unable to parse " ++ p))
  end.

Definition _checkLocaleappGem : M unit :=
  grunt.verbose_writeln "Looking for localeapp gem" ;;
  stdout <- command "localeapp -v" ;;
  set_version (Some (JsString.slice 0 (-1) stdout)) ;;
  v <- get_version ;;
  match v with
  | None => grunt.fail_fatal "No localeapp gem installed"
  | Some version =>
      grunt.log_writeln
        (chalk.green tick ++ "localeapp gem installed ("
           ++ chalk.gray
                ("v" ++ JsString.of_option
                          (nth_error (JsString.split " " version) 2))
           ++ ")")
  end ;;
  grunt.verbose_writeln rule.

Definition _setupProject (key : string) : M unit :=
  grunt.verbose_writeln "Verifying api key" ;;
  log <- command ("localeapp install " ++ key) ;;
  grunt.verbose_writeln (chalk.gray (chalk.italic log)) ;;
  (if JsString.slice 0 5 log =? "error"
   then grunt.fail_fatal "Your API key seems to be invalid"
   else grunt.log_writeln
          (chalk.green tick ++ "Key " ++ chalk.gray key ++ " valid")) ;;
  grunt.verbose_writeln rule.

Definition _countEntries (locale : string) : M nat :=
  doc <- file_readYAML ("config/locales/" ++ locale) ;;
  lift (countDocument doc).

Definition _getLocales : M batch :=
  grunt.verbose_writeln "Retreiving locale files" ;;
  grunt.verbose_write
    (" | creating temp " ++ dq ++ "config/locales" ++ dq ++ " output folder ... ") ;;
  fs_mkdir "config/locales" ;;
  grunt.verbose_writeln (chalk.green "OK") ;;
  grunt.verbose_write
    (" | creating temp " ++ dq ++ "log" ++ dq ++ " folder ... ") ;;
  fs_mkdir "log" ;;
  grunt.verbose_writeln (chalk.green "OK") ;;
  grunt.verbose_write
    (" | creating temp " ++ dq ++ "log/localeapp.yml" ++ dq ++ " log file ... ") ;;
  fs_openSync_w "log/localeapp.yml" ;;
  grunt.verbose_writeln (chalk.green "OK") ;;
  grunt.verbose_write " | fetching locales from localeapp.com ... " ;;
  log <- command "localeapp pull" ;;
  files <- fs_readdirSync "config/locales" ;;
  grunt.verbose_writeln
    (chalk.green (JsString.of_nat (List.length files) ++ " file(s) pulled")) ;;
  grunt.verbose_writeln (chalk.gray (chalk.italic log)) ;;
  locales <- for_in files 0
    (fun i name locales =>
       n <- _countEntries name ;;
       ret (locales ++ chalk.blue name
              ++ chalk.italic (" [" ++ JsString.of_nat n ++ "]")
              ++ (if (i <? List.length files - 1)%nat then ", " else "")))
    "" ;;
  grunt.log_writeln
    (chalk.green tick ++ JsString.of_nat (List.length files)
       ++ " locale(s) pulled from localeapp.com : (" ++ locales ++ ")") ;;
  grunt.verbose_writeln rule ;;
  log <- yaml_load "log/localeapp.yml" ;;
  polled <- lift (get_prop log "polled_at") ;;
  updated <- lift (get_prop log "updated_at") ;;
  ret (Batch polled updated files).

(** The in-memory [_meta] object the loop of [_formatJSON] builds. *)
Definition meta (files : batch) (version : option string) : value :=
  VObj (assign
          (assign
             (assign [] "polledAt" (VStr (date_toString h (polledAt files))))
             "updatedAt" (VStr (date_toString h (updatedAt files))))
          "gem" (match version with Some v => VStr v | None => VNull end)).

(** One turn of the loop of [_formatJSON], up to its last statement.  It
    returns [json] as it is at the end of the turn. *)
Definition _formatJSON_file (files : batch) (toJS : bool) (name : string)
  : M value :=
  let locale := hd "" (JsString.split ".yml" name) in
  let file := "config/locales/" ++ locale in
  doc <- yaml_load (file ++ ".yml") ;;
  json <- lift (get_prop doc locale) ;;
  let content :=
    if toJS
    then Some ("var translate_" ++ JsString.replace "-" "_" locale ++ " = "
                 ++ JsString.of_option (JSON.stringify json) ++ ";")
    else JSON.stringify json in
  let filename :=
    if toJS
    then JsString.replace "-" "_" file ++ ".js"
    else JsString.replace "-" "_" file ++ ".json" in
  fs_rename (file ++ ".yml") filename ;;
  settle ;;
  json <- lift (set_meta json (VObj [])) ;;
  v <- get_version ;;
  json <- lift (set_meta (Some json) (meta files v)) ;;
  grunt.file_write filename (JsString.of_option content) ;;
  ret json.

Definition _formatJSON (files : batch) (toJS : bool) : M unit :=
  for_in (files_of files) 0
    (fun _ name _ => _formatJSON_file files toJS name ;; settle) tt.

(** One turn of the loop of [_formatYML]. *)
Definition _formatYML_file (name : string) : M unit :=
  let locale := hd "" (JsString.split ".yml" name) in
  let file := "config/locales/" ++ locale in
  fs_rename (file ++ ".yml") (JsString.replace "-" "_" file ++ ".yml").

Definition _formatYML (files : batch) : M unit :=
  for_in (files_of files) 0 (fun _ name _ => _formatYML_file name ;; settle) tt.

Definition _clean (folders : list string) : M unit :=
  for_in folders 0
    (fun _ folder _ =>
       d <- grunt.file_isDir folder ;;
       if d then grunt.file_delete folder else ret tt) tt.

(** [grunt.file.copy(src, dst)]: a read, then a write. *)
Definition file_copy (src dst : string) : M unit :=
  emit (ECopy src dst) ;;
  c <- grunt.file_read src ;;
  settle ;;
  grunt.file_write dst c.

(** The block of the task under the comment "copy files to destination
    folder", with [dest] for [this.data.dest]. *)
Definition publish (dest : string) : M unit :=
  settle ;;
  locales <- fs_readdirSync "config/locales" ;;
  for_in locales 0
    (fun _ name _ =>
       settle ;;
       file_copy ("config/locales/" ++ name) (dest ++ name)) tt ;;
  settle ;;
  destFiles <- fs_readdirSync dest ;;
  grunt.log_writeln
    (chalk.green tick ++ JsString.of_nat (List.length destFiles)
       ++ " locale(s) copied into " ++ chalk.blue dest ++ "  : ("
       ++ chalk.blue (JsString.join ", " destFiles) ++ ")").

Definition availableFormats : list string := ["yml"; "yaml"; "json"; "js"].

(** The task registered as [localeapp]. *)
Definition localeapp (data : config) : M unit :=
  _clean ["config"; "log"] ;;
  (if (indexOf availableFormats (format data) =? -1)%Z
   then grunt.fail_fatal
          ("There is no support for " ++ format data
             ++ " yet. Please use one of the following : "
             ++ JsString.join ", " availableFormats ++ ".")
   else ret tt) ;;
  _checkLocaleappGem ;;
  _setupProject (key data) ;;
  files <- _getLocales ;;
  (if format data =? "js" then
     grunt.verbose_writeln "Formatting files to Javascript" ;;
     _formatJSON files true
   else if format data =? "json" then
     grunt.verbose_writeln "Formatting files to JSON" ;;
     _formatJSON files false
   else
     grunt.verbose_writeln "Formatting files to YML" ;;
     _formatYML files) ;;
  grunt.verbose_writeln rule ;;
  publish (dest data) ;;
  grunt.verbose_writeln rule ;;
  settle ;;
  _clean ["config"; "log"].

End Task.

(** ** A sample host

    A [localeapp] stand-in that answers like version 0.8.0 of the gem and
    pulls two locales, with parsers that know the documents it writes. *)

Module Sample.

Definition en_yml : string := "en-US: {hello: Hi}".
Definition fr_yml : string := "fr-FR: {hello: Salut}".
Definition zh_yml : string := "zh-Hant-TW: {hello: Ni hao}".
Definition log_yml : string := "polled_at: 1404200000, updated_at: 1404100000".

Definition parse (text : string) : option value :=
  if text =? en_yml then Some (VObj [("en-US", VObj [("hello", VStr "Hi")])])
  else if text =? fr_yml then Some (VObj [("fr-FR", VObj [("hello", VStr "Salut")])])
  else if text =? zh_yml
       then Some (VObj [("zh-Hant-TW", VObj [("hello", VStr "Ni hao")])])
  else if text =? log_yml
       then Some (VObj [("polled_at", VNum 1404200000);
                        ("updated_at", VNum 1404100000)])
  else if text =? "" then Some VNull
  else None.

Definition or_same (root : node) (o : option node) : node :=
  match o with
  | Some root' => root'
  | None => root
  end.

Definition run (cmd : string) (root : node) : string * node :=
  if cmd =? "localeapp -v" then ("localeapp version 0.8.0" ++ JSON.nl, root)
  else if prefix "localeapp install " cmd then
    if cmd =? "localeapp install bad"
    then ("error: invalid key", root)
    else ("Success!",
          or_same root (Fs.writeFile root ["config"; "initializers"; "localeapp.rb"] "# key"))
  else if cmd =? "localeapp pull" then
    let r1 := or_same root (Fs.writeFile root ["config"; "locales"; "en-US.yml"] en_yml) in
    let r2 := or_same r1 (Fs.writeFile r1 ["config"; "locales"; "fr-FR.yml"] fr_yml) in
    let r3 := or_same r2 (Fs.writeFile r2 ["log"; "localeapp.yml"] log_yml) in
    ("Fetching translations", r3)
  else ("", root).

Definition date (x : option value) : string :=
  match x with
  | Some (VNum n) => "epoch+" ++ JSON.number n
  | _ => "Invalid Date"
  end.

(** A thread pool that carries out every rename at the first occasion. *)
Definition eager (t : list event) : option (string * string) :=
  hd_error (pending t).

(** A thread pool that carries out a rename only once a file has been
    written after the call. *)
Definition late (t : list event) : option (string * string) :=
  match last t (ELog "") with
  | EWrite _ _ => hd_error (pending t)
  | _ => None
  end.

Definition gem : host := Host run parse parse date eager.

(** A machine without the gem: nothing is captured from any command. *)
Definition silent : host :=
  Host (fun _ root => (EmptyString, root)) parse parse date eager.

(** The machine of [gem] with a thread pool that is late, and with one that
    carries out nothing while the task runs. *)
Definition slow : host := Host run parse parse date late.

Definition idle : host := Host run parse parse date (fun _ => None).

(** A project with a configuration directory and a destination. *)
Definition project : node :=
  Dir [("config", Dir [("database.yml", File "adapter: sqlite3")]);
       ("public", Dir [("locales", Dir [])])].

Definition start : world := World project None [].

(** The result of a pull, and the world the formatter starts in. *)
Definition pulled_batch : batch :=
  Batch (Some (VNum 1404200000)) (Some (VNum 1404100000))
        ["en-US.yml"; "fr-FR.yml"].

Definition pulled : world :=
  World (snd (run "localeapp pull" (Dir [])))
        (Some "localeapp version 0.8.0") [].

Definition json_task : config := Config "k" "json" "public/locales/".

(** A pull that left a locale with two hyphens in its code. *)
Definition taiwan : world :=
  World (Dir [("config", Dir [("locales", Dir [("zh-Hant-TW.yml", File zh_yml)])])])
        (Some "localeapp version 0.8.0") [].

(** A pulled file whose name is not the key of its document. *)
Definition misnamed : world :=
  World (Dir [("config", Dir [("locales", Dir [("en.yml", File en_yml)])])])
        (Some "localeapp version 0.8.0") [].

(** The same world with a destination that already holds a file. *)
Definition staged : world :=
  World (or_same (fs pulled)
           (Fs.writeFile (fs pulled) ["public"; "locales"; "old.json"] "{}"))
        (version pulled) [].

End Sample.


(** ** Definitions used to state the properties *)

(** The report [_checkLocaleappGem] logs for a captured output. *)
Definition gem_report (stdout : string) : string :=
  tick ++ "localeapp gem installed (v"
    ++ JsString.of_option
         (nth_error (JsString.split " " (JsString.slice 0 (-1) stdout)) 2)
    ++ ")".

(** What [_clean] does to the files: a folder that is a directory goes, with
    everything below it. *)
Definition wipe (root : node) (folder : string) : node :=
  if Fs.isDir root (Fs.path_of folder)
  then match Fs.delete root (Fs.path_of folder) with
       | Some root' => root'
       | None => root
       end
  else root.

Fixpoint cleaned (folders : list string) (root : node) : node :=
  match folders with
  | [] => root
  | folder :: rest => cleaned rest (wipe root folder)
  end.

(** A folder other than the working directory itself. *)
Definition below (folder : string) : Prop := Fs.path_of folder <> [].

(** The deletions [_clean] performs, in order. *)
Fixpoint deletions (folders : list string) (root : node) : list event :=
  match folders with
  | [] => []
  | folder :: rest =>
      List.app (if Fs.isDir root (Fs.path_of folder) then [EDelete folder] else [])
               (deletions rest (wipe root folder))
  end.

Definition is_delete (e : event) : bool :=
  match e with
  | EDelete _ => true
  | _ => false
  end.

(** The message of the format check. *)
Definition unsupported (format : string) : string :=
  "There is no support for " ++ format
    ++ " yet. Please use one of the following : yml, yaml, json, js.".

(** An action only ever adds to the trace. *)
Definition grows {A : Type} (m : M A) : Prop :=
  forall w, exists evs, trace (snd (m w)) = List.app (trace w) evs.

(** The entries of a document as the specification words them: the values
    that are not themselves nested mappings. *)
Fixpoint leaves (v : value) : nat :=
  match v with
  | VObj props => list_sum (map (fun kv => leaves (snd kv)) props)
  | _ => 1
  end.

(** The strings, numbers and booleans found by walking mappings and
    sequences. *)
Fixpoint scalars (v : value) : nat :=
  match v with
  | VStr _ | VNum _ | VBool _ => 1
  | VNull | VDate _ => 0
  | VArr items => list_sum (map scalars items)
  | VObj props => list_sum (map (fun kv => scalars (snd kv)) props)
  end.

(** Some mapping on the way has a key called [hasOwnProperty]. *)
Fixpoint shadowed (v : value) : bool :=
  match v with
  | VObj props =>
      match own props "hasOwnProperty" with
      | Some _ => true
      | None => false
      end
      || existsb (fun kv => shadowed (snd kv)) props
  | VArr items => existsb shadowed items
  | _ => false
  end.

(** What [iterate] finds in a document; a document that is one scalar is
    walked as such. *)
Definition entries (doc : value) : nat :=
  match doc with
  | VStr s => String.length s
  | VNum _ | VBool _ => 0
  | _ => scalars doc
  end.

(** Two documents that differ in the order of keys only, at any depth. *)
Inductive reorder : value -> value -> Prop :=
| reorder_refl (v : value) : reorder v v
| reorder_keys (ps qs : list (string * value)) :
    Permutation ps qs -> reorder (VObj ps) (VObj qs)
| reorder_prop (ps qs : list (string * value)) (k : string) (v v' : value) :
    reorder v v' ->
    reorder (VObj (List.app ps ((k, v) :: qs))) (VObj (List.app ps ((k, v') :: qs)))
| reorder_item (xs ys : list value) (v v' : value) :
    reorder v v' ->
    reorder (VArr (List.app xs (v :: ys))) (VArr (List.app xs (v' :: ys)))
| reorder_trans (u v w : value) : reorder u v -> reorder v w -> reorder u w.

(** What a call of [iterate] on a mapping, a sequence or [null] comes to. *)
Definition walked (v : value) (acc : list string) (r : result (list string)) : Prop :=
  match r with
  | Ok l => shadowed v = false /\ List.length l = List.length acc + scalars v
  | Err e => shadowed v = true
             /\ e = Thrown "TypeError: obj.hasOwnProperty is not a function"
  end.

(** No [null] anywhere in the document. *)
Fixpoint null_free (v : value) : bool :=
  match v with
  | VNull => false
  | VArr items => forallb null_free items
  | VObj props => forallb (fun kv => null_free (snd kv)) props
  | VStr _ | VNum _ | VBool _ | VDate _ => true
  end.

(** A document of nested mappings with string, number and boolean leaves. *)
Fixpoint plain (v : value) : bool :=
  match v with
  | VObj props => forallb (fun kv => plain (snd kv)) props
  | VStr _ | VNum _ | VBool _ => true
  | VNull | VDate _ | VArr _ => false
  end.

(** The first hyphen of a locale code turned into an underscore, the other
    characters kept. *)
Fixpoint underscore_first_hyphen (s : string) : string :=
  match s with
  | EmptyString => EmptyString
  | String c s' => if Ascii.eqb c "-" then String "_" s'
                   else String c (underscore_first_hyphen s')
  end.

(** [pat] occurs somewhere in [s]. *)
Fixpoint occurs (pat s : string) : bool :=
  prefix pat s
  || match s with
     | EmptyString => false
     | String _ s' => occurs pat s'
     end.

(** ** The JSON grammar

    The texts of RFC 8259 that [JSON.stringify] can produce: numbers are
    integers.  Every string accepted here is a JSON value. *)

Module Grammar.

Definition is_ws (c : ascii) : bool :=
  let n := nat_of_ascii c in
  (n =? 32)%nat || (n =? 9)%nat || (n =? 10)%nat || (n =? 13)%nat.

Inductive ws : string -> Prop :=
| ws_nil : ws EmptyString
| ws_cons (c : ascii) (s : string) : is_ws c = true -> ws s -> ws (String c s).

(** A character that stands for itself inside a string. *)
Definition is_plain (c : ascii) : bool :=
  let n := nat_of_ascii c in
  (32 <=? n)%nat && negb (n =? 34)%nat && negb (n =? 92)%nat.

(** A character that may follow a backslash. *)
Definition is_escape (c : ascii) : bool :=
  let n := nat_of_ascii c in
  existsb (Nat.eqb n) [34; 92; 47; 98; 102; 110; 114; 116]%nat.

Definition is_hex (c : ascii) : bool :=
  let n := nat_of_ascii c in
  ((48 <=? n) && (n <=? 57) || (97 <=? n) && (n <=? 102)
   || (65 <=? n) && (n <=? 70))%nat.

Inductive chars : string -> Prop :=
| chars_nil : chars EmptyString
| chars_plain (c : ascii) (s : string) :
    is_plain c = true -> chars s -> chars (String c s)
| chars_escape (c : ascii) (s : string) :
    is_escape c = true -> chars s -> chars (String JSON.backslash (String c s))
| chars_unicode (h1 h2 h3 h4 : ascii) (s : string) :
    is_hex h1 = true -> is_hex h2 = true -> is_hex h3 = true ->
    is_hex h4 = true -> chars s ->
    chars (String JSON.backslash
             (String "u" (String h1 (String h2 (String h3 (String h4 s)))))).

Definition string_literal (s : string) : Prop :=
  exists body, chars body
               /\ s = String JSON.dquote (body ++ String JSON.dquote EmptyString).

(** An optional minus sign and a decimal numeral without a needless
    leading zero. *)
Definition integer (s : string) : Prop :=
  exists d : Decimal.uint,
    Decimal.unorm d = d
    /\ (s = NilEmpty.string_of_uint d \/ s = String "-" (NilEmpty.string_of_uint d)).

Inductive text : string -> Prop :=
| text_null : text "null"
| text_true : text "true"
| text_false : text "false"
| text_number (s : string) : integer s -> text s
| text_string (s : string) : string_literal s -> text s
| text_empty_array (w : string) : ws w -> text ("[" ++ w ++ "]")
| text_array (els : string) : elements els -> text ("[" ++ els ++ "]")
| text_empty_object (w : string) : ws w -> text ("{" ++ w ++ "}")
| text_object (ms : string) : members ms -> text ("{" ++ ms ++ "}")
with elements : string -> Prop :=
| elements_one (w1 v w2 : string) :
    ws w1 -> text v -> ws w2 -> elements (w1 ++ v ++ w2)
| elements_more (w1 v w2 rest : string) :
    ws w1 -> text v -> ws w2 -> elements rest ->
    elements (w1 ++ v ++ w2 ++ "," ++ rest)
with members : string -> Prop :=
| members_one (w1 k w2 w3 v w4 : string) :
    ws w1 -> string_literal k -> ws w2 -> ws w3 -> text v -> ws w4 ->
    members (w1 ++ k ++ w2 ++ ":" ++ w3 ++ v ++ w4)
| members_more (w1 k w2 w3 v w4 rest : string) :
    ws w1 -> string_literal k -> ws w2 -> ws w3 -> text v -> ws w4 ->
    members rest ->
    members (w1 ++ k ++ w2 ++ ":" ++ w3 ++ v ++ w4 ++ "," ++ rest).

End Grammar.

(** The [_meta] property is set on objects only. *)
Definition with_meta (json m : value) : value :=
  match json with
  | VObj props => VObj (assign (assign props "_meta" (VObj [])) "_meta" m)
  | _ => json
  end.

(** The events of copying the files [names], with the contents read. *)
Definition copy_events (dest : string) (names contents : list string) : list event :=
  flat_map (fun nc => [ECopy ("config/locales/" ++ fst nc) (dest ++ fst nc);
                       EWrite (dest ++ fst nc) (snd nc)])
           (combine names contents).

(** The line the publisher logs. *)
Definition copied_report (dest : string) (destFiles : list string) : string :=
  tick ++ JsString.of_nat (List.length destFiles) ++ " locale(s) copied into "
    ++ dest ++ "  : (" ++ JsString.join ", " destFiles ++ ")".

(** Two paths that part at some component: neither is inside the other. *)
Fixpoint diverge (p q : path) : bool :=
  match p, q with
  | a :: p', b :: q' => if a =? b then diverge p' q' else true
  | _, _ => false
  end.

(** A name as a directory listing gives it: no slash, and not empty, [.]
    or [..]. *)
Definition well_named (name : string) : bool :=
  negb (occurs "/" name) && Fs.names_entry name && negb (name =? "..").

(** The last component of a path string names an entry: the string does
    not end with a slash, nor with the component [.] or [..]. *)
Definition ends_in_name (p : string) : bool :=
  well_named (last (JsString.split "/" p) "").

(** The commands run, in order, among some events. *)
Fixpoint cmds (evs : list event) : list string :=
  match evs with
  | [] => []
  | EExec c :: rest => c :: cmds rest
  | _ :: rest => cmds rest
  end.

Definition is_exec (e : event) : bool :=
  match e with
  | EExec _ => true
  | _ => false
  end.

(** An action runs the commands [l], in this order, and may stop anywhere on
    the way when it fails; when it returns normally it has run them all. *)
Definition runs {A : Type} (l : list string) (m : M A) : Prop :=
  forall w, exists n,
    cmds (trace (snd (m w))) = List.app (cmds (trace w)) (firstn n l)
    /\ (forall a, fst (m w) = Ok a -> List.length l <= n).

(** [locales[i].split('.yml')[0]] *)
Definition locale_of (name : string) : string :=
  hd "" (JsString.split ".yml" name).

(** The pulled file and the name it is given, with the extension [ext]. *)
Definition pulled_path (name : string) : string :=
  "config/locales/" ++ locale_of name ++ ".yml".

Definition output_path (ext name : string) : string :=
  "config/locales/" ++ underscore_first_hyphen (locale_of name) ++ ext.

(** The files after the renames of the YAML variant, a rename that fails
    leaving them as they are. *)
Fixpoint yml_renamed (names : list string) (root : node) : node :=
  match names with
  | [] => root
  | name :: rest =>
      yml_renamed rest
        (match Fs.rename root (Fs.path_of (pulled_path name))
                 (Fs.path_of (output_path ".yml" name)) with
         | Some root' => root'
         | None => root
         end)
  end.

(** The files written among some events: path and content, in order. *)
Fixpoint writes (evs : list event) : list (string * string) :=
  match evs with
  | [] => []
  | EWrite p c :: rest => (p, c) :: writes rest
  | _ :: rest => writes rest
  end.

(** The text [_formatJSON] writes for a document. *)
Definition rendered (toJS : bool) (name : string) (json : value) : string :=
  if toJS
  then "var translate_" ++ underscore_first_hyphen (locale_of name) ++ " = "
         ++ JSON.str "" json ++ ";"
  else JSON.str "" json.

Definition extension (toJS : bool) : string :=
  if toJS then ".js" else ".json".

(** The numbers of a document are integers that JavaScript holds exactly,
    which are the ones it prints in full. *)
Fixpoint exact (v : value) : bool :=
  match v with
  | VNum n => (Z.abs n <=? 9007199254740991)%Z
  | VArr items => forallb exact items
  | VObj props => forallb (fun kv => exact (snd kv)) props
  | _ => true
  end.

(** [json._meta = {}] succeeds on objects, arrays and dates only. *)
Definition accepts_meta (found : option value) : bool :=
  match found with
  | Some (VObj _) | Some (VArr _) | Some (VDate _) => true
  | _ => false
  end.

(** The files once [_getLocales] has made its working directories and its
    empty log file; [fs.mkdir] makes one level and its failure is not seen,
    [fs.openSync] must succeed. *)
Definition prepared (root : node) : option node :=
  let made (r : node) (p : string) :=
    match Fs.mkdir r (Fs.path_of p) with
    | Some r' => r'
    | None => r
    end in
  Fs.create (made (made root "config/locales") "log")
            (Fs.path_of "log/localeapp.yml").

(** One item of the summary of a pull, and the line logged. *)
Definition pulled_item (nc : string * nat) : string :=
  fst nc ++ " [" ++ JsString.of_nat (snd nc) ++ "]".

Definition pulled_report (names : list string) (counts : list nat) : string :=
  tick ++ JsString.of_nat (List.length names)
    ++ " locale(s) pulled from localeapp.com : ("
    ++ JsString.join ", " (map pulled_item (combine names counts)) ++ ")".

(** What carrying out a rename does to the files; a rename that fails
    leaves them as they are. *)
Definition land (root : node) (r : string * string) : node :=
  match Fs.rename root (Fs.path_of (fst r)) (Fs.path_of (snd r)) with
  | Some root' => root'
  | None => root
  end.

Definition is_landing (e : event) : bool :=
  match e with
  | ERenamed _ _ _ => true
  | _ => false
  end.

(** The renames carried out among some events, in order, and what they
    make of the files. *)
Fixpoint landed (evs : list event) : list (string * string) :=
  match evs with
  | [] => []
  | ERenamed src dst _ :: rest => (src, dst) :: landed rest
  | _ :: rest => landed rest
  end.

Definition replay (rs : list (string * string)) (root : node) : node :=
  fold_left land rs root.

(** The renames called among some events, in order. *)
Fixpoint called (evs : list event) : list (string * string) :=
  match evs with
  | [] => []
  | ERename src dst :: rest => (src, dst) :: called rest
  | _ :: rest => called rest
  end.

(** The events that are the call or the carrying out of a rename. *)
Definition about_rename (e : event) : bool :=
  match e with
  | ERename _ _ | ERenamed _ _ _ => true
  | _ => false
  end.

(** The names every object inherits from [Object.prototype]. *)
Definition inherited : list string :=
  ["constructor"; "hasOwnProperty"; "isPrototypeOf"; "propertyIsEnumerable";
   "toLocaleString"; "toString"; "valueOf"; "__proto__"; "__defineGetter__";
   "__defineSetter__"; "__lookupGetter__"; "__lookupSetter__"].

(** * Properties *)

(** ** Running an action *)

Lemma bind_ok {A B : Type} (m : M A) (k : A -> M B) (w w' : world) (b : B) :
  bind m k w = (Ok b, w') ->
  exists a w1, m w = (Ok a, w1) /\ k a w1 = (Ok b, w').
Proof.
  unfold bind. destruct (m w) as [[a | e] w1]; intros E.
  - exists a, w1. split; [reflexivity | exact E].
  - discriminate E.
Qed.

Lemma bind_run {A B : Type} (m : M A) (k : A -> M B) (w w1 : world) (a : A) :
  m w = (Ok a, w1) -> bind m k w = k a w1.
Proof. unfold bind. intros ->. reflexivity. Qed.

Lemma bind_err {A B : Type} (m : M A) (k : A -> M B) (w w1 : world) (e : failure) :
  m w = (Err e, w1) -> bind m k w = (Err e, w1).
Proof. unfold bind. intros ->. reflexivity. Qed.

(** ** The authenticator *)

Lemma substring_min (n : nat) (s : string) :
  substring 0 (Nat.min n (String.length s)) s = substring 0 n s.
Proof.
  revert s. induction n as [| n IH]; intros [| c s]; cbn; try reflexivity.
  now rewrite IH.
Qed.

Lemma slice_head (n : nat) (s : string) :
  JsString.slice 0 (Z.of_nat n) s = substring 0 n s.
Proof.
  unfold JsString.slice, JsString.clamp.
  replace (0 <? 0)%Z with false by reflexivity.
  destruct (Z.ltb_spec (Z.of_nat n) 0) as [H | _]; [lia |].
  rewrite Nat2Z.id. change (Z.to_nat 0) with 0%nat. cbn [Nat.min].
  rewrite Nat.sub_0_r. apply substring_min.
Qed.

Lemma slice_error_prefix (log : string) :
  (JsString.slice 0 5 log =? "error") = prefix "error" log.
Proof.
  change 5%Z with (Z.of_nat 5). rewrite slice_head.
  destruct (String.eqb_spec (substring 0 5 log) "error") as [E | N];
    destruct (prefix "error" log) eqn:P; try reflexivity.
  - apply (prefix_correct "error" log) in E. congruence.
  - apply (prefix_correct "error" log) in P. contradiction.
Qed.

(** Every step of [_setupProject] up to the test of the captured output. *)
Lemma setupProject_run (h : host) (key : string) (w : world) :
  let out := exec h ("localeapp install " ++ key) (fs w) in
  let w1 := World (snd out) (version w)
              (List.app (trace w)
                 [EVerbose "Verifying api key";
                  EExec ("localeapp install " ++ key);
                  EVerbose (fst out)]) in
  _setupProject h key w =
    if prefix "error" (fst out)
    then (Err (Fatal "Your API key seems to be invalid"), w1)
    else (Ok tt,
          World (fs w1) (version w1)
            (List.app (trace w1)
               [ELog (tick ++ "Key " ++ key ++ " valid"); EVerbose rule])).
Proof.
  cbv zeta. unfold _setupProject, command, grunt.verbose_writeln,
    grunt.log_writeln, grunt.fail_fatal, bind, emit, get_fs, put_fs, ret, raise,
    chalk.gray, chalk.italic, chalk.green.
  cbn [fs version trace].
  destruct (exec h ("localeapp install " ++ key) (fs w)) as [log root'].
  cbn [fst snd fs version trace]. rewrite slice_error_prefix.
  destruct (prefix "error" log); cbn [fs version trace];
    repeat rewrite <- List.app_assoc; reflexivity.
Qed.

(** C4.  [_setupProject] ends in the fatal error "Your API key seems to be
    invalid" exactly when the output captured from [localeapp install <key>]
    starts with the five characters [error]; for any other output it logs
    that the key is valid and returns normally. *)
Theorem setupProject_fatal_iff_error_prefix (h : host) (key : string) (w : world) :
  let log := fst (exec h ("localeapp install " ++ key) (fs w)) in
  let r := _setupProject h key w in
  (fst r = Err (Fatal "Your API key seems to be invalid")
     <-> prefix "error" log = true)
  /\ (prefix "error" log = false ->
      fst r = Ok tt
      /\ In (ELog (tick ++ "Key " ++ key ++ " valid")) (trace (snd r))).
Proof.
  cbv zeta. rewrite setupProject_run. cbv zeta.
  destruct (prefix "error" (fst (exec h ("localeapp install " ++ key) (fs w)))).
  - split; [split; reflexivity | discriminate].
  - split; [split; discriminate |].
    intros _. split; [reflexivity |].
    cbn [snd trace]. apply in_or_app. right. left. reflexivity.
Qed.

Lemma setupProject_fatal_iff_error_prefix_witness :
  (fst (_setupProject Sample.gem "bad" Sample.start)
     = Err (Fatal "Your API key seems to be invalid")
   <-> prefix "error"
         (fst (exec Sample.gem ("localeapp install " ++ "bad") (fs Sample.start)))
       = true)
  /\ fst (_setupProject Sample.gem "k" Sample.start) = Ok tt.
Proof.
  split.
  - exact (proj1 (setupProject_fatal_iff_error_prefix Sample.gem "bad" Sample.start)).
  - exact (proj1 (proj2 (setupProject_fatal_iff_error_prefix Sample.gem "k" Sample.start)
                    eq_refl)).
Defined.

(** ** The dependency checker *)

Lemma checkLocaleappGem_run (h : host) (w : world) :
  let out := exec h "localeapp -v" (fs w) in
  _checkLocaleappGem h w =
    (Ok tt,
     World (snd out) (Some (JsString.slice 0 (-1) (fst out)))
       (List.app (trace w)
          [EVerbose "Looking for localeapp gem"; EExec "localeapp -v";
           ELog (gem_report (fst out)); EVerbose rule])).
Proof.
  cbv zeta. unfold _checkLocaleappGem, command, grunt.verbose_writeln,
    grunt.log_writeln, grunt.fail_fatal, bind, emit, get_fs, put_fs, ret,
    get_version, set_version, chalk.gray, chalk.green, gem_report.
  cbn [fs version trace].
  destruct (exec h "localeapp -v" (fs w)) as [stdout root'].
  cbn [fst snd fs version trace].
  repeat rewrite <- List.app_assoc. reflexivity.
Qed.

Example gem_report_sample :
  gem_report ("localeapp version 0.8.0" ++ JSON.nl)
  = tick ++ "localeapp gem installed (v0.8.0)".
Proof. reflexivity. Qed.

(** C2.  The test [version === undefined] never succeeds: [version] is the
    result of [slice] on the captured string.  On every machine the checker
    returns normally; with nothing captured it reports the version
    [vundefined] instead of failing with "No localeapp gem installed". *)
Theorem checkLocaleappGem_never_fatal :
  (forall (h : host) (w : world), fst (_checkLocaleappGem h w) = Ok tt)
  /\ exec Sample.silent "localeapp -v" (fs Sample.start) = ("", fs Sample.start)
  /\ _checkLocaleappGem Sample.silent Sample.start
     = (Ok tt,
        World (fs Sample.start) (Some "")
          [EVerbose "Looking for localeapp gem"; EExec "localeapp -v";
           ELog (tick ++ "localeapp gem installed (vundefined)");
           EVerbose rule]).
Proof.
  split; [| split].
  - intros h w. rewrite checkLocaleappGem_run. reflexivity.
  - reflexivity.
  - reflexivity.
Qed.

(** ** The file system *)

Lemma find_remove_same (es : list (string * node)) (name : string) :
  Fs.find (Fs.remove es name) name = None.
Proof.
  unfold Fs.remove.
  induction es as [| [k n] es IH]; cbn [filter fst]; [reflexivity |].
  destruct (String.eqb_spec k name) as [E | N]; cbn [negb Fs.find]; [exact IH |].
  apply String.eqb_neq in N. rewrite N. exact IH.
Qed.

Lemma find_remove_other (es : list (string * node)) (name other : string) :
  name <> other -> Fs.find (Fs.remove es name) other = Fs.find es other.
Proof.
  intros D. unfold Fs.remove.
  induction es as [| [k n] es IH]; cbn [filter fst]; [reflexivity |].
  destruct (String.eqb_spec k name) as [E | N]; cbn [negb Fs.find].
  - subst k. apply String.eqb_neq in D. rewrite D. exact IH.
  - rewrite IH. reflexivity.
Qed.

Lemma wipe_gone (root : node) (folder name : string) (p : path) :
  Fs.path_of folder = [name] ->
  Fs.isDir root [name] = true ->
  Fs.lookup (name :: p) (wipe root folder) = None.
Proof.
  intros P D. unfold wipe. rewrite P, D.
  unfold Fs.isDir in D. destruct root as [c | es]; cbn in D; [discriminate |].
  cbn. rewrite find_remove_same. reflexivity.
Qed.

Lemma wipe_not_dir (root : node) (folder name : string) :
  Fs.path_of folder = [name] ->
  Fs.isDir (wipe root folder) [name] = false.
Proof.
  intros P. unfold wipe. rewrite P.
  destruct (Fs.isDir root [name]) eqn:D; [| exact D].
  unfold Fs.isDir. destruct root as [c | es]; [reflexivity |].
  cbn. rewrite find_remove_same. reflexivity.
Qed.

Lemma wipe_other (root : node) (folder name other : string) (p : path) :
  Fs.path_of folder = [name] ->
  name <> other ->
  Fs.lookup (other :: p) (wipe root folder) = Fs.lookup (other :: p) root.
Proof.
  intros P D. unfold wipe. rewrite P.
  destruct (Fs.isDir root [name]); [| reflexivity].
  destruct root as [c | es]; [reflexivity |].
  cbn. rewrite (find_remove_other _ _ _ D). reflexivity.
Qed.

Lemma not_dir_no_child (root : node) (name : string) (p : path) :
  Fs.isDir root [name] = false -> p <> [] ->
  Fs.lookup (name :: p) root = None.
Proof.
  unfold Fs.isDir. intros D N. destruct root as [c | es]; [reflexivity |].
  cbn in *. destruct (Fs.find es name) as [[c | es'] |]; try reflexivity.
  - destruct p; [contradiction | reflexivity].
  - discriminate.
Qed.

(** ** The cleaner *)

Lemma alter_deeper (mk : bool) (name next : string) (rest : path)
      (f : option node -> option (option node)) (es : list (string * node)) :
  Fs.alter mk (name :: next :: rest) f (Dir es)
  = match Fs.find es name with
    | Some c =>
        match Fs.alter mk (next :: rest) f c with
        | Some c' => Some (Dir (Fs.set es name c'))
        | None => None
        end
    | None =>
        if mk then
          match Fs.alter mk (next :: rest) f (Dir []) with
          | Some c' => Some (Dir (Fs.set es name c'))
          | None => None
          end
        else None
    end.
Proof. reflexivity. Qed.

(** What exists below the working directory can be deleted. *)
Lemma delete_exists (root : node) (p : path) :
  Fs.exists_ root p = true -> p <> [] ->
  exists root', Fs.delete root p = Some root'.
Proof.
  unfold Fs.exists_, Fs.delete. revert root.
  induction p as [| name rest IH]; intros root E N; [contradiction |].
  destruct root as [c | es]; [discriminate E |].
  cbn [Fs.lookup] in E. destruct (Fs.find es name) as [c |] eqn:F; [| discriminate E].
  destruct rest as [| next rest].
  - cbn [Fs.alter]. eexists. reflexivity.
  - rewrite alter_deeper, F.
    destruct (IH c E) as [c' A]; [discriminate |].
    rewrite A. eexists. reflexivity.
Qed.

Lemma isDir_exists (root : node) (p : path) :
  Fs.isDir root p = true -> Fs.exists_ root p = true.
Proof.
  unfold Fs.isDir, Fs.exists_. destruct (Fs.lookup p root); [reflexivity | discriminate].
Qed.

Lemma clean_step (folder : string) (w : world) :
  below folder ->
  (d <- grunt.file_isDir folder ;;
   if d then grunt.file_delete folder else ret tt) w
  = (Ok tt,
     World (wipe (fs w) folder) (version w)
       (List.app (trace w)
          (if Fs.isDir (fs w) (Fs.path_of folder) then [EDelete folder] else []))).
Proof.
  intros B. destruct w as [root v tr].
  unfold grunt.file_isDir, grunt.file_delete, bind, get_fs, put_fs, emit, ret,
    wipe. cbv beta iota delta [fs version trace].
  destruct (Fs.isDir root (Fs.path_of folder)) eqn:D.
  - rewrite (isDir_exists _ _ D). cbn [negb].
    destruct (delete_exists _ _ (isDir_exists _ _ D) B) as [root' R].
    rewrite R. unfold below in B.
    destruct (Fs.path_of folder); [contradiction | reflexivity].
  - rewrite List.app_nil_r. reflexivity.
Qed.

Lemma clean_loop (folders : list string) (i : nat) (w : world) :
  Forall below folders ->
  for_in folders i
    (fun _ folder _ =>
       d <- grunt.file_isDir folder ;;
       if d then grunt.file_delete folder else ret tt) tt w
  = (Ok tt,
     World (cleaned folders (fs w)) (version w)
       (List.app (trace w) (deletions folders (fs w)))).
Proof.
  revert i w. induction folders as [| folder rest IH]; intros i w B.
  - destruct w. cbn. rewrite List.app_nil_r. reflexivity.
  - inversion B as [| ? ? B1 B2]; subst. cbn [for_in cleaned deletions].
    rewrite (bind_run _ _ _ _ _ (clean_step folder w B1)).
    rewrite (IH _ _ B2). cbn [fs version trace]. rewrite <- List.app_assoc.
    reflexivity.
Qed.

Lemma clean_folders (folders : list string) (w : world) :
  Forall below folders ->
  _clean folders w
  = (Ok tt,
     World (cleaned folders (fs w)) (version w)
       (List.app (trace w) (deletions folders (fs w)))).
Proof. apply clean_loop. Qed.

Lemma clean_run (w : world) :
  _clean ["config"; "log"] w
  = (Ok tt,
     World (cleaned ["config"; "log"] (fs w)) (version w)
       (List.app (trace w) (deletions ["config"; "log"] (fs w)))).
Proof. apply clean_folders. repeat constructor; discriminate. Qed.

Lemma deletions_only_delete (folders : list string) (root : node) :
  forallb is_delete (deletions folders root) = true.
Proof.
  revert root. induction folders as [| f rest IH]; intros root; [reflexivity |].
  cbn [deletions]. rewrite forallb_app, IH.
  destruct (Fs.isDir root (Fs.path_of f)); reflexivity.
Qed.

Lemma cleaned_no_config (root : node) :
  Fs.isDir (cleaned ["config"; "log"] root) ["config"] = false.
Proof.
  cbn [cleaned]. unfold Fs.isDir.
  rewrite (wipe_other _ "log" "log" "config" []); [| reflexivity | discriminate].
  apply (wipe_not_dir root "config" "config"). reflexivity.
Qed.

Lemma cleaned_no_log (root : node) :
  Fs.isDir (cleaned ["config"; "log"] root) ["log"] = false.
Proof. cbn [cleaned]. apply wipe_not_dir. reflexivity. Qed.

Lemma cleaned_fixed (root : node) :
  cleaned ["config"; "log"] (cleaned ["config"; "log"] root)
  = cleaned ["config"; "log"] root
  /\ deletions ["config"; "log"] (cleaned ["config"; "log"] root) = [].
Proof.
  pose proof (cleaned_no_config root) as C.
  pose proof (cleaned_no_log root) as L.
  set (r := cleaned ["config"; "log"] root) in *.
  assert (W : wipe r "config" = r).
  { unfold wipe. change (Fs.path_of "config") with ["config"]. now rewrite C. }
  cbn [cleaned deletions]. rewrite W.
  unfold wipe. change (Fs.path_of "config") with ["config"].
  change (Fs.path_of "log") with ["log"]. rewrite C, L. split; reflexivity.
Qed.

(** ** The format check *)

Lemma indexOf_absent (xs : list string) (x : string) :
  ~ In x xs -> indexOf xs x = (-1)%Z.
Proof.
  induction xs as [| y ys IH]; intros N; [reflexivity |].
  cbn [indexOf]. destruct (String.eqb_spec y x) as [E | D].
  - exfalso. apply N. left. exact E.
  - rewrite IH; [reflexivity |]. intros I. apply N. right. exact I.
Qed.

Lemma indexOf_present (xs : list string) (x : string) :
  In x xs -> (0 <= indexOf xs x)%Z.
Proof.
  induction xs as [| y ys IH]; intros I; [destruct I |].
  cbn [indexOf]. destruct (String.eqb_spec y x) as [E | D]; [lia |].
  destruct I as [E | I]; [contradiction |]. specialize (IH I).
  destruct (Z.ltb_spec (indexOf ys x) 0); lia.
Qed.

Lemma unsupported_format_run (h : host) (data : config) (w : world) :
  ~ In (format data) availableFormats ->
  localeapp h data w
  = (Err (Fatal (unsupported (format data))),
     World (cleaned ["config"; "log"] (fs w)) (version w)
       (List.app (trace w) (deletions ["config"; "log"] (fs w)))).
Proof.
  intros N. unfold localeapp.
  rewrite (bind_run _ _ _ _ _ (clean_run w)).
  rewrite (indexOf_absent _ _ N). reflexivity.
Qed.

(** C3.  With a format outside [yml], [yaml], [json], [js] the task ends in
    the fatal error of the format check.  All it has done by then is the
    initial clean: the trace holds deletions only (no command was run, no
    directory made, no file opened), and neither [config/locales] nor [log]
    exists as a directory. *)
Theorem unsupported_format_fails_first (h : host) (data : config) (w : world) :
  ~ In (format data) availableFormats ->
  localeapp h data w
  = (Err (Fatal (unsupported (format data))),
     World (cleaned ["config"; "log"] (fs w)) (version w)
       (List.app (trace w) (deletions ["config"; "log"] (fs w))))
  /\ forallb is_delete (deletions ["config"; "log"] (fs w)) = true
  /\ Fs.isDir (cleaned ["config"; "log"] (fs w)) ["config"; "locales"] = false
  /\ Fs.isDir (cleaned ["config"; "log"] (fs w)) ["log"] = false.
Proof.
  intros N. split; [| split; [| split]].
  - apply unsupported_format_run, N.
  - apply deletions_only_delete.
  - unfold Fs.isDir.
    rewrite not_dir_no_child; [reflexivity | apply cleaned_no_config | discriminate].
  - apply cleaned_no_log.
Qed.

Lemma unsupported_format_fails_first_witness :
  ~ In "xml" availableFormats
  /\ fst (localeapp Sample.gem (Config "k" "xml" "public/locales/") Sample.start)
     = Err (Fatal (unsupported "xml")).
Proof.
  assert (N : ~ In "xml" availableFormats).
  { cbn. intros [E | [E | [E | [E | []]]]]; discriminate E. }
  split; [exact N |].
  rewrite (proj1 (unsupported_format_fails_first
                    Sample.gem (Config "k" "xml" "public/locales/")
                    Sample.start N)).
  reflexivity.
Defined.

(** ** The trace only grows *)

Lemma grows_ret {A : Type} (a : A) : grows (ret a).
Proof. intros w. exists []. cbn. now rewrite List.app_nil_r. Qed.

Lemma grows_raise {A : Type} (e : failure) : grows (@raise A e).
Proof. intros w. exists []. cbn. now rewrite List.app_nil_r. Qed.

Lemma grows_lift {A : Type} (r : result A) : grows (lift r).
Proof. intros w. exists []. cbn. now rewrite List.app_nil_r. Qed.

Lemma grows_emit (e : event) : grows (emit e).
Proof. intros w. exists [e]. reflexivity. Qed.

Lemma grows_get_fs : grows get_fs.
Proof. intros w. exists []. cbn. now rewrite List.app_nil_r. Qed.

Lemma grows_put_fs (root : node) : grows (put_fs root).
Proof. intros w. exists []. cbn. now rewrite List.app_nil_r. Qed.

Lemma grows_get_version : grows get_version.
Proof. intros w. exists []. cbn. now rewrite List.app_nil_r. Qed.

Lemma grows_get_trace : grows get_trace.
Proof. intros w. exists []. cbn. now rewrite List.app_nil_r. Qed.

Lemma grows_set_version (v : option string) : grows (set_version v).
Proof. intros w. exists []. cbn. now rewrite List.app_nil_r. Qed.

Lemma grows_bind {A B : Type} (m : M A) (k : A -> M B) :
  grows m -> (forall a, grows (k a)) -> grows (bind m k).
Proof.
  intros Hm Hk w. unfold bind. destruct (Hm w) as [evs E].
  destruct (m w) as [[a | e] w1]; cbn [snd] in E.
  - destruct (Hk a w1) as [evs' E']. exists (List.app evs evs').
    rewrite E', E, List.app_assoc. reflexivity.
  - exists evs. exact E.
Qed.

Lemma grows_for_in {A St : Type} (xs : list A) (body : nat -> A -> St -> M St) :
  (forall i x s, grows (body i x s)) ->
  forall i s, grows (for_in xs i body s).
Proof.
  intros Hb. induction xs as [| x xs IH]; intros i s; cbn [for_in].
  - apply grows_ret.
  - apply grows_bind; [apply Hb | intros s'; apply IH].
Qed.

Create HintDb grows.

#[local] Hint Resolve grows_ret grows_raise grows_lift grows_emit grows_get_fs
  grows_put_fs grows_get_version grows_get_trace grows_set_version : grows.

Ltac grows_step :=
  match goal with
  | |- grows (bind _ _) => apply grows_bind; [| intros ?]
  | |- grows (for_in _ _ _ _) => apply grows_for_in; intros ? ? ?
  | |- grows (match ?x with _ => _ end) => destruct x
  | |- grows _ => solve [auto with grows]
  end.

Ltac grows_tac := repeat grows_step.

Lemma grows_command (h : host) (cmd : string) : grows (command h cmd).
Proof. unfold command. grows_tac. Qed.

Lemma grows_fs_mkdir (p : string) : grows (fs_mkdir p).
Proof. unfold fs_mkdir. grows_tac. Qed.

Lemma grows_fs_openSync_w (p : string) : grows (fs_openSync_w p).
Proof. unfold fs_openSync_w. grows_tac. Qed.

Lemma grows_fs_readdirSync (p : string) : grows (fs_readdirSync p).
Proof. unfold fs_readdirSync. grows_tac. Qed.

Lemma grows_fs_rename (src dst : string) : grows (fs_rename src dst).
Proof. apply grows_emit. Qed.

Lemma grows_carry_out (src dst : string) : grows (carry_out src dst).
Proof. unfold carry_out. grows_tac. Qed.

Lemma grows_settle_upto (h : host) (n : nat) : grows (settle_upto h n).
Proof.
  induction n as [| n IH]; cbn [settle_upto]; [apply grows_ret |].
  apply grows_bind; [apply grows_get_trace | intros t].
  destruct (lands h t) as [r |]; [| apply grows_ret].
  destruct (existsb (same_rename r) (pending t)); [| apply grows_ret].
  apply grows_bind; [apply grows_carry_out | intros _; exact IH].
Qed.

Lemma grows_settle (h : host) : grows (settle h).
Proof.
  unfold settle. apply grows_bind; [apply grows_get_trace | intros t].
  apply grows_settle_upto.
Qed.

Lemma grows_yaml_load (h : host) (p : string) : grows (yaml_load h p).
Proof. unfold yaml_load. grows_tac. Qed.

Lemma grows_file_read (p : string) : grows (grunt.file_read p).
Proof. unfold grunt.file_read. grows_tac. Qed.

Lemma grows_file_write (p c : string) : grows (grunt.file_write p c).
Proof. unfold grunt.file_write. grows_tac. Qed.

#[local] Hint Resolve grows_command grows_fs_mkdir grows_fs_openSync_w
  grows_fs_readdirSync grows_fs_rename grows_settle grows_yaml_load
  grows_file_read grows_file_write : grows.

Lemma grows_file_copy (h : host) (src dst : string) : grows (file_copy h src dst).
Proof. unfold file_copy. grows_tac. Qed.

Lemma grows_file_readYAML (h : host) (p : string) : grows (file_readYAML h p).
Proof. unfold file_readYAML. grows_tac. Qed.

Lemma grows_log (s : string) : grows (grunt.log_writeln s).
Proof. apply grows_emit. Qed.

Lemma grows_verbose (s : string) : grows (grunt.verbose_writeln s).
Proof. apply grows_emit. Qed.

Lemma grows_verbose_write (s : string) : grows (grunt.verbose_write s).
Proof. apply grows_emit. Qed.

Lemma grows_fatal {A : Type} (s : string) : grows (@grunt.fail_fatal A s).
Proof. apply grows_raise. Qed.

Lemma grows_warn {A : Type} (s : string) : grows (@grunt.fail_warn A s).
Proof. apply grows_raise. Qed.

Lemma grows_log_warn (s : string) : grows (grunt.log_warn s).
Proof. apply grows_emit. Qed.

#[local] Hint Resolve grows_file_copy grows_file_readYAML grows_log
  grows_verbose grows_verbose_write grows_fatal grows_warn grows_log_warn : grows.

Lemma grows_checkLocaleappGem (h : host) : grows (_checkLocaleappGem h).
Proof. unfold _checkLocaleappGem. grows_tac. Qed.

Lemma grows_setupProject (h : host) (key : string) : grows (_setupProject h key).
Proof. unfold _setupProject. grows_tac. Qed.

Lemma grows_countEntries (h : host) (locale : string) :
  grows (_countEntries h locale).
Proof. unfold _countEntries. grows_tac. Qed.

#[local] Hint Resolve grows_checkLocaleappGem grows_setupProject
  grows_countEntries : grows.

Lemma grows_getLocales (h : host) : grows (_getLocales h).
Proof. unfold _getLocales. grows_tac. Qed.

Lemma grows_formatJSON_file (h : host) (files : batch) (toJS : bool) (name : string) :
  grows (_formatJSON_file h files toJS name).
Proof. unfold _formatJSON_file. grows_tac. Qed.

Lemma grows_formatJSON (h : host) (files : batch) (toJS : bool) :
  grows (_formatJSON h files toJS).
Proof.
  unfold _formatJSON. grows_tac. apply grows_formatJSON_file.
Qed.

Lemma grows_formatYML (h : host) (files : batch) : grows (_formatYML h files).
Proof. unfold _formatYML, _formatYML_file. grows_tac. Qed.

Lemma grows_publish (h : host) (dest : string) : grows (publish h dest).
Proof. unfold publish. grows_tac. Qed.

Lemma grows_clean (folders : list string) : grows (_clean folders).
Proof.
  unfold _clean, grunt.file_isDir, grunt.file_delete. grows_tac.
Qed.

#[local] Hint Resolve grows_getLocales grows_formatJSON grows_formatYML
  grows_publish grows_clean : grows.

(** ** Cleaning before and after a run *)

Ltac bind_inv H :=
  let a := fresh "a" in
  let w1 := fresh "w" in
  let E := fresh "E" in
  apply bind_ok in H; destruct H as (a & w1 & E & H); cbv beta in H.

(** A successful run ends with [_clean(['config', 'log'])]. *)
Lemma localeapp_ends_clean (h : host) (data : config) (w w' : world) :
  localeapp h data w = (Ok tt, w') ->
  exists w1, _clean ["config"; "log"] w1 = (Ok tt, w').
Proof.
  unfold localeapp. intros H. do 10 bind_inv H. eexists. exact H.
Qed.

Lemma localeapp_starts_clean (h : host) (data : config) (w : world) :
  exists evs,
    trace (snd (localeapp h data w))
    = List.app (List.app (trace w) (deletions ["config"; "log"] (fs w))) evs.
Proof.
  unfold localeapp.
  rewrite (bind_run _ _ _ _ _ (clean_run w)).
  match goal with
  | |- exists evs, trace (snd (?m ?w1)) = _ =>
      assert (G : grows m) by grows_tac; destruct (G w1) as [evs E]
  end.
  exists evs. exact E.
Qed.

Lemma clean_twice (w : world) :
  _clean ["config"; "log"] (snd (_clean ["config"; "log"] w))
  = (Ok tt, snd (_clean ["config"; "log"] w)).
Proof.
  rewrite (clean_run w). cbn [snd]. rewrite clean_run. cbn [fs version trace].
  destruct (cleaned_fixed (fs w)) as [C D]. rewrite C, D, List.app_nil_r.
  reflexivity.
Qed.

Lemma localeapp_after_clean (h : host) (data : config) (w : world) :
  localeapp h data (snd (_clean ["config"; "log"] w)) = localeapp h data w.
Proof.
  unfold localeapp.
  rewrite (bind_run _ _ _ _ _ (clean_twice w)).
  rewrite (bind_run _ _ _ _ _ (clean_run w)).
  rewrite (clean_run w). reflexivity.
Qed.

(** C8.  When the task returns normally, whatever the format, neither
    [config/locales] nor [log] is a directory any more.  The same clean runs
    first, and running it on an already clean tree changes nothing: the task
    started after a clean behaves as the task itself. *)
Theorem working_directories_removed (h : host) (data : config) (w w' : world) :
  localeapp h data w = (Ok tt, w') ->
  Fs.isDir (fs w') (Fs.path_of "config/locales") = false
  /\ Fs.isDir (fs w') (Fs.path_of "log") = false
  /\ _clean ["config"; "log"] (snd (_clean ["config"; "log"] w))
     = (Ok tt, snd (_clean ["config"; "log"] w))
  /\ localeapp h data (snd (_clean ["config"; "log"] w)) = localeapp h data w.
Proof.
  intros H. destruct (localeapp_ends_clean _ _ _ _ H) as [w1 C].
  rewrite clean_run in C. injection C as <-. cbn [fs].
  split; [| split; [| split]].
  - change (Fs.path_of "config/locales") with ["config"; "locales"].
    unfold Fs.isDir.
    rewrite not_dir_no_child; [reflexivity | apply cleaned_no_config | discriminate].
  - apply cleaned_no_log.
  - apply clean_twice.
  - apply localeapp_after_clean.
Qed.

Lemma working_directories_removed_witness :
  localeapp Sample.gem (Config "k" "json" "public/locales/") Sample.start
  = (Ok tt, snd (localeapp Sample.gem (Config "k" "json" "public/locales/")
                   Sample.start))
  /\ Fs.isDir
       (fs (snd (localeapp Sample.gem (Config "k" "json" "public/locales/")
                   Sample.start)))
       (Fs.path_of "config/locales") = false.
Proof.
  assert (E : localeapp Sample.gem (Config "k" "json" "public/locales/")
                Sample.start
              = (Ok tt, snd (localeapp Sample.gem
                               (Config "k" "json" "public/locales/")
                               Sample.start)))
    by (vm_compute; reflexivity).
  split; [exact E |].
  exact (proj1 (working_directories_removed
                  Sample.gem (Config "k" "json" "public/locales/")
                  Sample.start _ E)).
Defined.

(** C9.  [_clean] is called on [config], not on [config/locales].  When
    [config] is a directory at the start, deleting it is the first thing
    every run does; nothing that was under it is left after that clean (the
    same holds of [log]), nor at the end of a run stopped by the format
    check, nor at the end of a successful run. *)
Theorem clean_removes_whole_config
        (h : host) (data : config) (w : world) (p : path) :
  Fs.isDir (fs w) ["config"] = true ->
  (exists evs,
      trace (snd (localeapp h data w))
      = List.app (trace w) (EDelete "config" :: evs))
  /\ Fs.lookup ("config" :: p) (fs (snd (_clean ["config"; "log"] w))) = None
  /\ (Fs.isDir (fs w) ["log"] = true ->
      Fs.lookup ("log" :: p) (fs (snd (_clean ["config"; "log"] w))) = None)
  /\ (~ In (format data) availableFormats ->
      Fs.lookup ("config" :: p) (fs (snd (localeapp h data w))) = None)
  /\ (forall w', localeapp h data w = (Ok tt, w') ->
      Fs.isDir (fs w') ["config"] = false
      /\ (p <> [] -> Fs.lookup ("config" :: p) (fs w') = None)).
Proof.
  intros D.
  assert (G : Fs.lookup ("config" :: p) (cleaned ["config"; "log"] (fs w)) = None).
  { cbn [cleaned].
    rewrite (wipe_other _ "log" "log" "config"); [| reflexivity | discriminate].
    apply wipe_gone; [reflexivity | exact D]. }
  split; [| split; [| split; [| split]]].
  - destruct (localeapp_starts_clean h data w) as [evs E].
    cbn [deletions] in E. change (Fs.path_of "config") with ["config"] in E.
    rewrite D in E. rewrite E, <- List.app_assoc. cbn [List.app].
    eexists. reflexivity.
  - rewrite clean_run. exact G.
  - intros L. rewrite clean_run. cbn [fs cleaned].
    apply wipe_gone; [reflexivity |].
    unfold Fs.isDir in *.
    rewrite (wipe_other _ "config" "config" "log"); [exact L | reflexivity | discriminate].
  - intros N.
    rewrite (unsupported_format_run h data w N). exact G.
  - intros w' H. destruct (localeapp_ends_clean _ _ _ _ H) as [w1 C].
    rewrite clean_run in C. injection C as <-. cbn [fs]. split.
    + apply cleaned_no_config.
    + intros N. apply not_dir_no_child; [apply cleaned_no_config | exact N].
Qed.

Lemma clean_removes_whole_config_witness :
  Fs.readFile (fs Sample.start) ["config"; "database.yml"]
  = Some "adapter: sqlite3"
  /\ Fs.lookup ["config"; "database.yml"]
       (fs (snd (localeapp Sample.gem (Config "k" "xml" "out/") Sample.start)))
     = None.
Proof.
  split; [reflexivity |].
  refine (proj1 (proj2 (proj2 (proj2 (clean_removes_whole_config
            Sample.gem (Config "k" "xml" "out/") Sample.start
            ["database.yml"] eq_refl)))) _).
  cbn. intros [E | [E | [E | [E | []]]]]; discriminate E.
Defined.

(** ** The entry counter *)

Lemma value_nested_ind (P : value -> Prop) :
  P VNull -> (forall b, P (VBool b)) -> (forall n, P (VNum n)) ->
  (forall s, P (VStr s)) -> (forall iso, P (VDate iso)) ->
  (forall items, Forall P items -> P (VArr items)) ->
  (forall props, Forall (fun kv => P (snd kv)) props -> P (VObj props)) ->
  forall v, P v.
Proof.
  intros Hnull Hbool Hnum Hstr Hdate Harr Hobj. fix IH 1.
  intros [| b | n | s | iso | items | props].
  - exact Hnull.
  - apply Hbool.
  - apply Hnum.
  - apply Hstr.
  - apply Hdate.
  - apply Harr. induction items as [| x xs IHxs]; constructor.
    + apply IH.
    + exact IHxs.
  - apply Hobj. induction props as [| [k x] ps IHps]; constructor.
    + apply IH.
    + exact IHps.
Qed.

Lemma own_in (props : list (string * value)) (k : string) (v : value) :
  In (k, v) props -> own props k <> None.
Proof.
  induction props as [| [k' v'] rest IH]; intros I; [destruct I |].
  cbn [own]. destruct (String.eqb_spec k' k) as [E | D]; [discriminate |].
  destruct I as [E | I]; [congruence | exact (IH I)].
Qed.

Lemma length_push {A : Type} (xs : list A) (x : A) :
  List.length (push xs x) = S (List.length xs).
Proof. unfold push. rewrite length_app. cbn. lia. Qed.

Lemma scalar_value (x : value) :
  typeof x <> "object" -> shadowed x = false /\ scalars x = 1.
Proof. destruct x; cbn; intros N; try contradiction; split; reflexivity. Qed.

Lemma iterate_walked (v : value) :
  typeof v = "object" ->
  forall stack acc, walked v acc (iterate v stack acc).
Proof.
  induction v as [| b | n | s | iso | items IH | props IH] using value_nested_ind;
    intros T stack acc; try discriminate T.
  - cbn. split; [reflexivity | lia].
  - cbn. split; [reflexivity | lia].
  - cbn [iterate].
    match goal with |- context [?f items 0 acc] => set (loop := f) end.
    assert (L : forall xs i acc, Forall (fun v => typeof v = "object" ->
                 forall stack acc, walked v acc (iterate v stack acc)) xs ->
              walked (VArr xs) acc (loop xs i acc)).
    { clear IH acc. intros xs. induction xs as [| x xs IHxs]; intros i acc F.
      - cbn. split; [reflexivity | lia].
      - inversion F as [| ? ? Px Fxs]; subst.
        unfold loop. cbn fix. fold loop.
        destruct (String.eqb_spec (typeof x) "object") as [Tx | Nx].
        + specialize (Px Tx (stack ++ "." ++ JsString.of_nat i) acc).
          destruct (iterate x (stack ++ "." ++ JsString.of_nat i) acc) as [l | e];
            cbn [walked] in Px; destruct Px as [Sx Lx].
          * specialize (IHxs (S i) l Fxs).
            destruct (loop xs (S i) l) as [l' | e']; cbn [walked] in *;
              cbn [shadowed scalars existsb map] in *; unfold list_sum in *; cbn [fold_right] in *;
              rewrite Sx; destruct IHxs as [S' L']; split;
              [exact S' | lia | exact S' | exact L'].
          * cbn [walked shadowed existsb]. rewrite Sx. split; [reflexivity | exact Lx].
        + destruct (scalar_value x Nx) as [Sx Cx].
          specialize (IHxs (S i) (push acc (stack ++ "." ++ JsString.of_nat i)) Fxs).
          destruct (loop xs (S i) _) as [l' | e']; cbn [walked] in *;
            cbn [shadowed scalars existsb map] in *; unfold list_sum in *; cbn [fold_right] in *;
            rewrite Sx; destruct IHxs as [S' L']; split;
            [exact S' | rewrite length_push in L'; lia | exact S' | exact L']. }
    apply L. exact IH.
  - cbn [iterate].
    match goal with |- context [?f props acc] => set (loop := f) end.
    destruct (own props "hasOwnProperty") as [x |] eqn:O.
    + (* the first property enumerated already fails *)
      destruct props as [| [k v] rest]; [discriminate O |].
      unfold loop. cbn fix. unfold hasOwnProperty. rewrite O.
      cbn [walked shadowed]. rewrite O. split; reflexivity.
    + assert (L : forall ps acc,
                 (forall k v, In (k, v) ps -> In (k, v) props) ->
                 Forall (fun kv => typeof (snd kv) = "object" ->
                    forall stack acc, walked (snd kv) acc (iterate (snd kv) stack acc)) ps ->
                 match loop ps acc with
                 | Ok l => existsb (fun kv => shadowed (snd kv)) ps = false
                           /\ List.length l
                              = List.length acc
                                + list_sum (map (fun kv => scalars (snd kv)) ps)
                 | Err e => existsb (fun kv => shadowed (snd kv)) ps = true
                            /\ e = Thrown "TypeError: obj.hasOwnProperty is not a function"
                 end).
      { clear IH acc. intros ps. induction ps as [| [k x] ps IHps]; intros acc I F.
        - cbn. split; [reflexivity | lia].
        - inversion F as [| ? ? Px Fps]; subst. cbn [snd] in Px.
          assert (I' : forall k v, In (k, v) ps -> In (k, v) props)
            by (intros ? ? ?; apply I; right; assumption).
          unfold loop. cbn fix. fold loop. unfold hasOwnProperty. rewrite O.
          destruct (own props k) eqn:Ok'; [| exfalso; eapply own_in; [apply I; left; reflexivity | exact Ok']].
          destruct (String.eqb_spec (typeof x) "object") as [Tx | Nx].
          + specialize (Px Tx (stack ++ "." ++ k) acc).
            destruct (iterate x (stack ++ "." ++ k) acc) as [l | e];
              cbn [walked] in Px; destruct Px as [Sx Lx].
            * specialize (IHps l I' Fps).
              destruct (loop ps l) as [l' | e'];
                cbn [existsb map snd]; unfold list_sum in *; cbn [fold_right]; rewrite Sx;
                destruct IHps as [S' L']; split;
                [exact S' | lia | exact S' | exact L'].
            * cbn [existsb snd]. rewrite Sx. split; [reflexivity | exact Lx].
          + destruct (scalar_value x Nx) as [Sx Cx].
            specialize (IHps (push acc (stack ++ "." ++ k)) I' Fps).
            destruct (loop ps _) as [l' | e'];
              cbn [existsb map snd]; unfold list_sum in *; cbn [fold_right]; rewrite Sx;
              destruct IHps as [S' L']; split;
              [exact S' | rewrite length_push in L'; lia | exact S' | exact L']. }
      specialize (L props acc (fun k v I => I) IH).
      destruct (loop props acc) as [l | e]; cbn [walked shadowed scalars];
        rewrite O; cbn [orb]; exact L.
Qed.

Lemma length_pushes (f : nat -> string) (l : list nat) (acc : list string) :
  List.length (fold_left (fun acc i => push acc (f i)) l acc)
  = List.length acc + List.length l.
Proof.
  revert acc. induction l as [| i l IH]; intros acc; cbn [fold_left List.length].
  - lia.
  - rewrite IH, length_push. lia.
Qed.

Lemma countDocument_spec (doc : value) :
  countDocument doc
  = if shadowed doc
    then Err (Thrown "TypeError: obj.hasOwnProperty is not a function")
    else Ok (entries doc).
Proof.
  unfold countDocument.
  destruct (String.eqb_spec (typeof doc) "object") as [T | N].
  - pose proof (iterate_walked doc T "" []) as W.
    destruct (iterate doc "" []) as [l | e]; cbn [walked] in W;
      destruct W as [S L]; rewrite S.
    + f_equal. rewrite L. destruct doc; try discriminate T; reflexivity.
    + rewrite L. reflexivity.
  - destruct doc; try (exfalso; apply N; reflexivity); cbn; try reflexivity.
    rewrite length_pushes, length_seq. reflexivity.
Qed.

Lemma own_none (props : list (string * value)) (k : string) :
  own props k = None <-> forall v, ~ In (k, v) props.
Proof.
  split.
  - intros O v I. exact (own_in _ _ _ I O).
  - induction props as [| [k' v'] rest IH]; intros N; [reflexivity |].
    cbn [own]. destruct (String.eqb_spec k' k) as [E | D].
    + exfalso. apply (N v'). left. congruence.
    + apply IH. intros v I. apply (N v). right. exact I.
Qed.

Lemma own_none_perm (ps qs : list (string * value)) (k : string) :
  Permutation ps qs -> own ps k = None -> own qs k = None.
Proof.
  intros P O. apply own_none. intros v I.
  apply (proj1 (own_none ps k) O v). apply (Permutation_in _ (Permutation_sym P) I).
Qed.

Lemma own_is_some_perm (ps qs : list (string * value)) (k : string) :
  Permutation ps qs ->
  match own ps k with Some _ => true | None => false end
  = match own qs k with Some _ => true | None => false end.
Proof.
  intros P. destruct (own ps k) eqn:A; destruct (own qs k) eqn:B; try reflexivity.
  - rewrite (own_none_perm _ _ _ (Permutation_sym P) B) in A. discriminate A.
  - rewrite (own_none_perm _ _ _ P A) in B. discriminate B.
Qed.

Lemma existsb_perm {A : Type} (f : A -> bool) (xs ys : list A) :
  Permutation xs ys -> existsb f xs = existsb f ys.
Proof.
  intros P. induction P as [| x xs ys _ IH | x y xs | xs ys zs _ IH1 _ IH2];
    cbn [existsb].
  - reflexivity.
  - now rewrite IH.
  - destruct (f x), (f y); reflexivity.
  - now rewrite IH1.
Qed.

Lemma list_sum_perm (xs ys : list nat) :
  Permutation xs ys -> list_sum xs = list_sum ys.
Proof.
  intros P. induction P as [| x xs ys _ IH | x y xs | xs ys zs _ IH1 _ IH2];
    cbn [list_sum fold_right] in *; unfold list_sum in *; cbn [fold_right]; lia.
Qed.

Lemma own_is_some_app (ps qs : list (string * value)) (k key : string) (v v' : value) :
  match own (List.app ps ((k, v) :: qs)) key with Some _ => true | None => false end
  = match own (List.app ps ((k, v') :: qs)) key with Some _ => true | None => false end.
Proof.
  induction ps as [| [k0 v0] ps IH]; cbn [List.app own].
  - destruct (k =? key); reflexivity.
  - destruct (k0 =? key); [reflexivity | exact IH].
Qed.

Lemma reorder_invariant (d d' : value) :
  reorder d d' ->
  shadowed d = shadowed d' /\ scalars d = scalars d' /\ entries d = entries d'.
Proof.
  intros R. induction R as [v | ps qs P | ps qs k v v' R IH | xs ys v v' R IH
                            | u v w R1 IH1 R2 IH2].
  - repeat split.
  - assert (S : scalars (VObj ps) = scalars (VObj qs)).
    { cbn [scalars]. apply list_sum_perm, Permutation_map, P. }
    split; [| split; [exact S | exact S]].
    cbn [shadowed]. rewrite (own_is_some_perm ps qs _ P).
    rewrite (existsb_perm _ ps qs P). reflexivity.
  - destruct IH as (Sh & Sc & _).
    assert (S : scalars (VObj (List.app ps ((k, v) :: qs)))
                = scalars (VObj (List.app ps ((k, v') :: qs)))).
    { cbn [scalars]. rewrite !map_app, !list_sum_app. cbn [map snd].
      unfold list_sum. cbn [fold_right]. rewrite Sc. reflexivity. }
    split; [| split; [exact S | exact S]].
    cbn [shadowed]. rewrite (own_is_some_app ps qs k "hasOwnProperty" v v').
    rewrite !existsb_app. cbn [existsb snd]. rewrite Sh. reflexivity.
  - destruct IH as (Sh & Sc & _).
    assert (S : scalars (VArr (List.app xs (v :: ys)))
                = scalars (VArr (List.app xs (v' :: ys)))).
    { cbn [scalars]. rewrite !map_app, !list_sum_app. cbn [map].
      unfold list_sum. cbn [fold_right]. rewrite Sc. reflexivity. }
    split; [| split; [exact S | exact S]].
    cbn [shadowed]. rewrite !existsb_app. cbn [existsb]. rewrite Sh. reflexivity.
  - destruct IH1 as (A1 & B1 & C1). destruct IH2 as (A2 & B2 & C2).
    repeat split; congruence.
Qed.

Lemma plain_leaves (v : value) : plain v = true -> scalars v = leaves v.
Proof.
  induction v as [| b | n | s | iso | items IH | props IH] using value_nested_ind;
    cbn [plain]; intros P; try discriminate P; try reflexivity.
  cbn [scalars leaves]. f_equal.
  induction props as [| [k x] ps IHps]; [reflexivity |].
  cbn [forallb snd] in P. apply andb_prop in P as [Px Pps].
  inversion IH as [| ? ? Hx Hps]; subst. cbn [map snd] in *.
  rewrite (Hx Px), (IHps Hps Pps). reflexivity.
Qed.

Lemma countEntries_pure (h : host) (locale : string) (w : world) :
  snd (_countEntries h locale w) = w.
Proof.
  unfold _countEntries, file_readYAML, grunt.file_read, lift, bind, get_fs, ret,
    raise.
  destruct (Fs.readFile (fs w) _) as [text |]; [| reflexivity].
  destruct (jsyaml h text); reflexivity.
Qed.

(** C5, as amended.  [_countEntries] leaves the world as it is and is a
    function of the loaded document.  On a mapping that holds no [null] and
    no key named [hasOwnProperty] it returns the number of strings, numbers
    and booleans found by walking nested mappings and sequences: a sequence
    is walked element by element, not counted as one leaf, and a timestamp
    (an object without properties of its own) adds nothing.  This is the
    number of leaves when the document holds no sequence, no [null] and no
    timestamp.  The result is the same for two documents that differ in the
    order of keys at any depth, and [{a: {b: 1, c: 2}}] counts 2. *)
Theorem countEntries_counts_scalars :
  (forall h locale w, snd (_countEntries h locale w) = w)
  /\ (forall props,
        shadowed (VObj props) = false -> null_free (VObj props) = true ->
        countDocument (VObj props) = Ok (scalars (VObj props))
        /\ (plain (VObj props) = true ->
            countDocument (VObj props) = Ok (leaves (VObj props))))
  /\ (forall d d', reorder d d' -> countDocument d = countDocument d')
  /\ countDocument (VObj [("a", VObj [("b", VNum 1); ("c", VNum 2)])]) = Ok 2.
Proof.
  split; [| split; [| split]].
  - apply countEntries_pure.
  - intros props S _. rewrite countDocument_spec, S. cbn [entries].
    split; [reflexivity |]. intros P. rewrite (plain_leaves _ P). reflexivity.
  - intros d d' R. destruct (reorder_invariant d d' R) as (S & _ & E).
    rewrite !countDocument_spec, S, E. reflexivity.
  - reflexivity.
Qed.

Lemma countEntries_counts_scalars_witness :
  shadowed (VObj [("en", VObj [("hello", VStr "Hi"); ("bye", VStr "Bye")])]) = false
  /\ null_free (VObj [("en", VObj [("hello", VStr "Hi"); ("bye", VStr "Bye")])]) = true
  /\ countDocument (VObj [("en", VObj [("hello", VStr "Hi"); ("bye", VStr "Bye")])])
     = Ok 2
  /\ countDocument (VObj [("en", VObj [("bye", VStr "Bye"); ("hello", VStr "Hi")])])
     = Ok 2.
Proof.
  split; [reflexivity |]. split; [reflexivity |]. split.
  - exact (proj1 (proj1 (proj2 countEntries_counts_scalars)
                    [("en", VObj [("hello", VStr "Hi"); ("bye", VStr "Bye")])]
                    eq_refl eq_refl)).
  - rewrite <- (proj1 (proj2 (proj2 countEntries_counts_scalars))
                  (VObj [("en", VObj [("hello", VStr "Hi"); ("bye", VStr "Bye")])])
                  (VObj [("en", VObj [("bye", VStr "Bye"); ("hello", VStr "Hi")])])).
    + reflexivity.
    + apply (reorder_prop [] [] "en"). apply reorder_keys. apply perm_swap.
Defined.

(** C5, as stated, fails: a sequence is a value that is not a nested
    mapping, yet it is not counted as one leaf but once per element; and a
    timestamp is one, yet it is walked as an object and nothing is found in
    it. *)
Lemma countEntries_sequence_walked :
  countDocument (VObj [("days", VArr [VStr "Sun"; VStr "Mon"])]) = Ok 2
  /\ leaves (VObj [("days", VArr [VStr "Sun"; VStr "Mon"])]) = 1
  /\ countDocument (VObj [("days", VArr [VStr "Sun"; VStr "Mon"])])
     <> Ok (leaves (VObj [("days", VArr [VStr "Sun"; VStr "Mon"])]))
  /\ countDocument (VObj [("d", VDate "2014-07-01T00:00:00.000Z")]) = Ok 0
  /\ leaves (VObj [("d", VDate "2014-07-01T00:00:00.000Z")]) = 1.
Proof.
  split; [reflexivity |]. split; [reflexivity |].
  split; [cbn; discriminate |]. split; reflexivity.
Qed.

Example count_null : countDocument (VObj [("a", VNull)]) = Ok 0.
Proof. reflexivity. Qed.

Example count_shadowed :
  countDocument (VObj [("hasOwnProperty", VStr "x")])
  = Err (Thrown "TypeError: obj.hasOwnProperty is not a function").
Proof. reflexivity. Qed.

(** ** Names of the output files *)

Lemma prefix_nil (s : string) : prefix "" s = true.
Proof. destruct s; reflexivity. Qed.

Lemma append_assoc (a b c : string) : (a ++ b) ++ c = a ++ (b ++ c).
Proof. induction a as [| x a IH]; cbn; [reflexivity | now rewrite IH]. Qed.

Lemma append_nil_r (a : string) : a ++ "" = a.
Proof. induction a as [| x a IH]; cbn; [reflexivity | now rewrite IH]. Qed.

Lemma prefix_cons (a b : ascii) (s1 s2 : string) :
  prefix (String a s1) (String b s2) = Ascii.eqb a b && prefix s1 s2.
Proof.
  cbn [prefix].
  destruct (ascii_dec a b) as [E | N]; destruct (Ascii.eqb_spec a b) as [E' | N'];
    try reflexivity; contradiction.
Qed.

Lemma prefix_hyphen (c : ascii) (s : string) :
  prefix "-" (String c s) = Ascii.eqb "-" c.
Proof. rewrite prefix_cons, prefix_nil. apply andb_true_r. Qed.

Lemma replace_hyphen (s : string) :
  JsString.replace "-" "_" s = underscore_first_hyphen s.
Proof.
  induction s as [| c s IH]; [reflexivity |].
  cbn [JsString.replace underscore_first_hyphen]. rewrite prefix_cons, prefix_nil.
  rewrite andb_true_r, Ascii.eqb_sym, IH.
  destruct (Ascii.eqb c "-"); reflexivity.
Qed.

Lemma replace_in_file (locale : string) :
  JsString.replace "-" "_" ("config/locales/" ++ locale)
  = "config/locales/" ++ underscore_first_hyphen locale.
Proof. cbn. rewrite replace_hyphen. reflexivity. Qed.

(** [".yml"] cannot start inside a name and end in the extension. *)
Lemma prefix_yml_straddle (s : string) :
  prefix ".yml" (s ++ ".yml") = true -> s = "" \/ prefix ".yml" s = true.
Proof.
  destruct s as [| c1 [| c2 [| c3 [| c4 s]]]]; cbn [append];
    rewrite ?prefix_cons, ?prefix_nil; auto.
Qed.

Lemma split_before_extension (locale cur : string) :
  occurs ".yml" locale = false ->
  hd "" (JsString.split_from ".yml" 0 cur (locale ++ ".yml")) = cur ++ locale.
Proof.
  revert cur. induction locale as [| c l IH]; intros cur O.
  - cbn. rewrite append_nil_r. reflexivity.
  - cbn [occurs] in O. apply orb_false_elim in O as [P O].
    change ((String c l) ++ ".yml") with (String c (l ++ ".yml")).
    cbn [JsString.split_from].
    destruct (prefix ".yml" (String c (l ++ ".yml"))) eqn:Q.
    + apply (prefix_yml_straddle (String c l)) in Q as [E | E];
        [discriminate E | congruence].
    + rewrite (IH _ O), append_assoc. reflexivity.
Qed.

Lemma locale_of_name (locale : string) :
  occurs ".yml" locale = false ->
  hd "" (JsString.split ".yml" (locale ++ ".yml")) = locale.
Proof. intros O. unfold JsString.split. now rewrite split_before_extension. Qed.

Example normalise_en_US : underscore_first_hyphen "en-US" = "en_US".
Proof. reflexivity. Qed.

Example normalise_keeps_later_hyphens :
  underscore_first_hyphen "zh-Hant-TW" = "zh_Hant-TW".
Proof. reflexivity. Qed.

(** ** Files after a change *)

Lemma find_replaced (es : list (string * node)) (name : string) (c : node) :
  Fs.find es name <> None ->
  Fs.find (map (fun e => if fst e =? name then (name, c) else e) es) name = Some c.
Proof.
  induction es as [| [k n] es IH]; cbn [map fst Fs.find]; intros F.
  - contradiction.
  - destruct (String.eqb_spec k name) as [E | D]; cbn [Fs.find].
    + rewrite String.eqb_refl. reflexivity.
    + apply String.eqb_neq in D. rewrite D. apply IH. exact F.
Qed.

Lemma find_appended (es : list (string * node)) (name : string) (c : node) :
  Fs.find es name = None -> Fs.find (List.app es [(name, c)]) name = Some c.
Proof.
  induction es as [| [k n] es IH]; cbn [List.app Fs.find]; intros F.
  - rewrite String.eqb_refl. reflexivity.
  - destruct (k =? name); [discriminate F | apply IH, F].
Qed.

Lemma find_set_same (es : list (string * node)) (name : string) (c : node) :
  Fs.find (Fs.set es name c) name = Some c.
Proof.
  unfold Fs.set. destruct (Fs.find es name) as [old |] eqn:F.
  - apply find_replaced. congruence.
  - apply find_appended, F.
Qed.

(** After a successful [alter] the path holds what [f] answered. *)
Lemma lookup_alter (mk : bool) (p : path) (f : option node -> option (option node))
      (root root' : node) :
  Fs.alter mk p f root = Some root' ->
  exists o, f o = Some (Fs.lookup p root').
Proof.
  revert root root'. induction p as [| name rest IH]; intros root root' A.
  - discriminate A.
  - destruct root as [c | es]; [destruct rest; cbn in A; discriminate A |].
    destruct rest as [| next rest].
    + cbn [Fs.alter] in A. exists (Fs.find es name).
      destruct (f (Fs.find es name)) as [[c |] |]; try discriminate A;
        injection A as <-; cbn [Fs.lookup].
      * rewrite find_set_same. reflexivity.
      * rewrite find_remove_same. reflexivity.
    + rewrite alter_deeper in A. cbn [Fs.lookup].
      destruct (Fs.find es name) as [c |].
      * destruct (Fs.alter mk (next :: rest) f c) as [c' |] eqn:A'; [| discriminate A].
        injection A as <-. rewrite find_set_same. apply (IH _ _ A').
      * destruct mk; [| discriminate A].
        destruct (Fs.alter true (next :: rest) f (Dir [])) as [c' |] eqn:A';
          [| discriminate A].
        injection A as <-. rewrite find_set_same. apply (IH _ _ A').
Qed.

Lemma writeFile_read (root root' : node) (p : path) (content : string) :
  Fs.writeFile root p content = Some root' ->
  Fs.readFile root' p = Some content.
Proof.
  unfold Fs.writeFile, Fs.readFile. intros A.
  apply lookup_alter in A as [o E].
  destruct o as [[c | es] |]; try discriminate E; injection E as <-; reflexivity.
Qed.

Lemma path_eqb_eq (p q : path) : Fs.path_eqb p q = true -> p = q.
Proof.
  unfold Fs.path_eqb. destruct (list_eq_dec string_dec p q); [auto | discriminate].
Qed.

(** A rename moves the node as it is. *)
Lemma rename_moves (root root' : node) (src dst : path) :
  Fs.rename root src dst = Some root' ->
  Fs.lookup dst root' = Fs.lookup src root.
Proof.
  unfold Fs.rename. destruct (Fs.lookup src root) as [n |] eqn:L; [| discriminate].
  destruct (Fs.path_eqb src dst) eqn:E.
  - intros [= <-]. apply path_eqb_eq in E. subst dst. exact L.
  - destruct (Fs.delete root src) as [root1 |]; [| discriminate].
    intros A. apply lookup_alter in A as [o F].
    destruct o as [[c | [| e es]] |]; destruct n; try discriminate F;
      injection F as <-; reflexivity.
Qed.

(** ** Steps of the formatter *)

Lemma lift_ok {A : Type} (r : result A) (w w1 : world) (a : A) :
  lift r w = (Ok a, w1) -> r = Ok a /\ w1 = w.
Proof. unfold lift. intros [= -> ->]. split; reflexivity. Qed.

Lemma yaml_load_ok (h : host) (p : string) (w w1 : world) (doc : value) :
  yaml_load h p w = (Ok doc, w1) ->
  w1 = w /\ exists text, Fs.readFile (fs w) (Fs.path_of p) = Some text
                         /\ yamljs h text = Some doc.
Proof.
  unfold yaml_load, bind, get_fs, ret, raise.
  destruct (Fs.readFile (fs w) (Fs.path_of p)) as [text |]; [| discriminate].
  destruct (yamljs h text) as [v |] eqn:Y; [| discriminate].
  intros [= <- <-]. split; [reflexivity |]. exists text. split; [reflexivity | exact Y].
Qed.

Lemma file_write_ok (p content : string) (w w1 : world) :
  grunt.file_write p content w = (Ok tt, w1) ->
  exists root', Fs.writeFile (fs w) (Fs.path_of p) content = Some root'
                /\ w1 = World root' (version w) (List.app (trace w) [EWrite p content]).
Proof.
  unfold grunt.file_write, bind, get_fs, put_fs, emit, raise.
  cbv beta iota delta [fs version trace]. destruct w as [root v tr].
  cbv beta iota delta [fs version trace].
  destruct (Fs.writeFile root (Fs.path_of p) content) as [root' |]; [| discriminate].
  intros [= <-]. exists root'. split; reflexivity.
Qed.

(** ** Pending renames *)

Lemma pending_snoc (t : list event) (e : event) :
  pending (List.app t [e]) = note (pending t) e.
Proof. unfold pending. rewrite fold_left_app. reflexivity. Qed.

Lemma pending_app (t evs : list event) :
  pending (List.app t evs) = fold_left note evs (pending t).
Proof. unfold pending. apply fold_left_app. Qed.

Lemma same_rename_eq (a b : string * string) :
  same_rename a b = true <-> a = b.
Proof.
  destruct a as [a1 a2], b as [b1 b2]. unfold same_rename. cbn [fst snd].
  rewrite andb_true_iff, !String.eqb_eq. split.
  - intros [-> ->]. reflexivity.
  - intros [= -> ->]. split; reflexivity.
Qed.

Lemma drop_first_incl (r : string * string) (q : list (string * string)) :
  incl (drop_first r q) q.
Proof.
  induction q as [| r' q IH]; [apply incl_refl |].
  cbn [drop_first]. destruct (same_rename r r').
  - apply incl_tl, incl_refl.
  - intros x [<- | I]; [left; reflexivity | right; apply IH, I].
Qed.

Lemma drop_first_length (r : string * string) (q : list (string * string)) :
  existsb (same_rename r) q = true ->
  S (List.length (drop_first r q)) = List.length q.
Proof.
  induction q as [| r' q IH]; [discriminate |].
  cbn [existsb drop_first List.length]. destruct (same_rename r r'); [reflexivity |].
  cbn [orb List.length]. intros E. rewrite (IH E). reflexivity.
Qed.

Lemma carry_out_run (src dst : string) (w : world) :
  exists b,
    carry_out src dst w
    = (Ok tt, World (land (fs w) (src, dst)) (version w)
                (List.app (trace w) [ERenamed src dst b])).
Proof.
  unfold carry_out, land, bind, get_fs, put_fs, emit. cbn [fst snd].
  destruct (Fs.rename (fs w) (Fs.path_of src) (Fs.path_of dst)) as [root' |].
  - exists true. reflexivity.
  - exists false. reflexivity.
Qed.

(** A settling point always returns.  It changes the files by carrying out
    some of the pending renames, and records each of them. *)
Lemma settle_upto_run (h : host) (n : nat) (w : world) :
  exists evs,
    settle_upto h n w
    = (Ok tt, World (replay (landed evs) (fs w)) (version w)
                (List.app (trace w) evs))
    /\ forallb is_landing evs = true
    /\ incl (landed evs) (pending (trace w)).
Proof.
  revert w. induction n as [| n IH]; intros w.
  - exists []. cbn. rewrite List.app_nil_r. destruct w.
    repeat split. apply incl_nil_l.
  - cbn [settle_upto]. unfold bind at 1. unfold get_trace.
    destruct (lands h (trace w)) as [r |].
    2:{ exists []. cbn. rewrite List.app_nil_r. destruct w.
        repeat split. apply incl_nil_l. }
    destruct (existsb (same_rename r) (pending (trace w))) eqn:P.
    2:{ exists []. cbn. rewrite List.app_nil_r. destruct w.
        repeat split. apply incl_nil_l. }
    destruct (carry_out_run (fst r) (snd r) w) as [b C].
    rewrite (bind_run _ _ _ _ _ C).
    destruct (IH (World (land (fs w) (fst r, snd r)) (version w)
                    (List.app (trace w) [ERenamed (fst r) (snd r) b])))
      as (evs & E & L & I).
    cbn [fs version trace] in E, I.
    exists (ERenamed (fst r) (snd r) b :: evs).
    rewrite E. split; [| split].
    + rewrite <- List.app_assoc. reflexivity.
    + cbn [forallb is_landing]. exact L.
    + cbn [landed]. rewrite pending_snoc in I. cbn [note] in I.
      intros x [<- | X].
      * apply existsb_exists in P as (y & Y & S).
        apply same_rename_eq in S. subst y. destruct r; exact Y.
      * apply (drop_first_incl _ _ _ (I x X)).
Qed.

Lemma settle_run (h : host) (w : world) :
  exists evs,
    settle h w
    = (Ok tt, World (replay (landed evs) (fs w)) (version w)
                (List.app (trace w) evs))
    /\ forallb is_landing evs = true
    /\ incl (landed evs) (pending (trace w)).
Proof. unfold settle, bind, get_trace. apply settle_upto_run. Qed.

(** With nothing pending, nothing happens. *)
Lemma settle_quiet (h : host) (w : world) :
  pending (trace w) = [] -> settle h w = (Ok tt, w).
Proof.
  intros P. unfold settle, bind, get_trace. rewrite P. reflexivity.
Qed.

Lemma settle_ok (h : host) (w w1 : world) (u : unit) :
  settle h w = (Ok u, w1) ->
  exists evs,
    w1 = World (replay (landed evs) (fs w)) (version w) (List.app (trace w) evs)
    /\ forallb is_landing evs = true
    /\ incl (landed evs) (pending (trace w)).
Proof.
  destruct (settle_run h w) as (evs & E & L & I). rewrite E.
  intros H. exists evs. split; [congruence | split; assumption].
Qed.

Lemma landing_not_called (evs : list event) :
  forallb is_landing evs = true -> called evs = [].
Proof.
  induction evs as [| e evs IH]; [reflexivity |].
  cbn [forallb]. intros F. apply andb_prop in F as [E F].
  destruct e; try discriminate E. cbn [called]. exact (IH F).
Qed.
(** ** The serialiser writes JSON *)

Lemma ws_app (a b : string) : Grammar.ws a -> Grammar.ws b -> Grammar.ws (a ++ b).
Proof.
  intros A B. induction A as [| c s C _ IH]; cbn [append]; [exact B |].
  constructor; assumption.
Qed.

Lemma ws_nl : Grammar.ws JSON.nl.
Proof. repeat constructor. Qed.

Lemma ws_gap : Grammar.ws JSON.gap.
Proof. repeat constructor. Qed.

Lemma ws_space : Grammar.ws " ".
Proof. repeat constructor. Qed.

Lemma chars_app (a b : string) :
  Grammar.chars a -> Grammar.chars b -> Grammar.chars (a ++ b).
Proof.
  intros A B. induction A; cbn [append]; [exact B | | |];
    constructor; assumption.
Qed.

Lemma hex_digit_is_hex (k : nat) :
  k < 16 -> Grammar.is_hex (JSON.hex_digit k) = true.
Proof.
  intros L.
  assert (F : forallb (fun k => Grammar.is_hex (JSON.hex_digit k)) (seq 0 16) = true)
    by reflexivity.
  rewrite forallb_forall in F. apply F. apply in_seq. lia.
Qed.

Lemma chars_escape_one (c : ascii) : Grammar.chars (JSON.escape c).
Proof.
  unfold JSON.escape.
  repeat match goal with
         | |- Grammar.chars (if (?a =? ?b)%nat then _ else _) =>
             destruct (Nat.eqb_spec a b);
             [apply Grammar.chars_escape; [reflexivity | constructor] |]
         end.
  destruct (Nat.ltb_spec (nat_of_ascii c) 32) as [L | G].
  - apply Grammar.chars_unicode; try reflexivity; try constructor.
    + apply hex_digit_is_hex. apply Nat.Div0.div_lt_upper_bound. lia.
    + apply hex_digit_is_hex. apply Nat.mod_upper_bound. lia.
  - apply Grammar.chars_plain; [| constructor].
    unfold Grammar.is_plain.
    destruct (Nat.leb_spec 32 (nat_of_ascii c)); [| lia].
    destruct (Nat.eqb_spec (nat_of_ascii c) 34); [contradiction |].
    destruct (Nat.eqb_spec (nat_of_ascii c) 92); [contradiction |].
    reflexivity.
Qed.

Lemma chars_escape_all (s : string) : Grammar.chars (JSON.escape_all s).
Proof.
  induction s as [| c s IH]; cbn [JSON.escape_all]; [constructor |].
  apply chars_app; [apply chars_escape_one | exact IH].
Qed.

Lemma quote_literal (s : string) : Grammar.string_literal (JSON.quote s).
Proof. exists (JSON.escape_all s). split; [apply chars_escape_all | reflexivity]. Qed.

Lemma to_uint_normal (p : positive) :
  Decimal.unorm (Pos.to_uint p) = Pos.to_uint p.
Proof.
  rewrite <- (DecimalPos.Unsigned.to_of (Pos.to_uint p)).
  rewrite DecimalPos.Unsigned.of_to. reflexivity.
Qed.

Lemma number_integer (n : Z) : Grammar.integer (JSON.number n).
Proof.
  unfold JSON.number. destruct n as [| p | p]; cbn [Z.to_int NilEmpty.string_of_int].
  - exists (Decimal.D0 Decimal.Nil). split; [reflexivity | left; reflexivity].
  - exists (Pos.to_uint p). split; [apply to_uint_normal | left; reflexivity].
  - exists (Pos.to_uint p). split; [apply to_uint_normal | right; reflexivity].
Qed.

Lemma join_cons2 (sep x y : string) (rest : list string) :
  JsString.join sep (x :: y :: rest) = x ++ sep ++ JsString.join sep (y :: rest).
Proof. reflexivity. Qed.

(** The elements of an array, between the opening line break and the closing
    one. *)
Lemma elements_joined (inner tail : string) (items : list value) (x : value) :
  Grammar.ws inner -> Grammar.ws tail ->
  Forall (fun v => forall indent, Grammar.ws indent ->
                                  Grammar.text (JSON.str indent v)) (x :: items) ->
  Grammar.elements
    ((JSON.nl ++ inner)
       ++ JsString.join ("," ++ JSON.nl ++ inner) (map (JSON.str inner) (x :: items))
       ++ tail).
Proof.
  intros Wi Wt. revert x. induction items as [| y items IH]; intros x F;
    inversion F as [| ? ? Hx Hrest]; subst.
  - cbn [map JsString.join String.concat].
    apply Grammar.elements_one;
      [apply ws_app; [apply ws_nl | exact Wi] | apply Hx, Wi | exact Wt].
  - cbn [map]. rewrite join_cons2.
    replace ((JSON.nl ++ inner)
               ++ (JSON.str inner x
                     ++ ("," ++ JSON.nl ++ inner)
                     ++ JsString.join ("," ++ JSON.nl ++ inner)
                          (JSON.str inner y :: map (JSON.str inner) items))
               ++ tail)
      with ((JSON.nl ++ inner) ++ JSON.str inner x ++ "" ++ ","
              ++ ((JSON.nl ++ inner)
                    ++ JsString.join ("," ++ JSON.nl ++ inner)
                         (map (JSON.str inner) (y :: items))
                    ++ tail)).
    + apply Grammar.elements_more;
        [apply ws_app; [apply ws_nl | exact Wi] | apply Hx, Wi
        | constructor | apply IH, Hrest].
    + cbn [map]. rewrite !append_assoc. reflexivity.
Qed.

Lemma members_joined (inner tail : string) (props : list (string * value))
      (p : string * value) :
  Grammar.ws inner -> Grammar.ws tail ->
  Forall (fun kv => forall indent, Grammar.ws indent ->
                                   Grammar.text (JSON.str indent (snd kv)))
         (p :: props) ->
  Grammar.members
    ((JSON.nl ++ inner)
       ++ JsString.join ("," ++ JSON.nl ++ inner)
            (map (fun kv => JSON.quote (fst kv) ++ ": " ++ JSON.str inner (snd kv))
                 (p :: props))
       ++ tail).
Proof.
  intros Wi Wt. revert p. induction props as [| q props IH]; intros p F;
    inversion F as [| ? ? Hp Hrest]; subst.
  - cbn [map JsString.join String.concat].
    replace ((JSON.nl ++ inner)
               ++ (JSON.quote (fst p) ++ ": " ++ JSON.str inner (snd p)) ++ tail)
      with ((JSON.nl ++ inner) ++ JSON.quote (fst p) ++ "" ++ ":" ++ " "
              ++ JSON.str inner (snd p) ++ tail).
    + apply Grammar.members_one;
        [apply ws_app; [apply ws_nl | exact Wi] | apply quote_literal
        | constructor | apply ws_space | apply Hp, Wi | exact Wt].
    + rewrite !append_assoc. reflexivity.
  - cbn [map]. rewrite join_cons2.
    replace ((JSON.nl ++ inner)
               ++ ((JSON.quote (fst p) ++ ": " ++ JSON.str inner (snd p))
                     ++ ("," ++ JSON.nl ++ inner)
                     ++ JsString.join ("," ++ JSON.nl ++ inner)
                          ((JSON.quote (fst q) ++ ": " ++ JSON.str inner (snd q))
                             :: map (fun kv => JSON.quote (fst kv) ++ ": "
                                                 ++ JSON.str inner (snd kv)) props))
               ++ tail)
      with ((JSON.nl ++ inner) ++ JSON.quote (fst p) ++ "" ++ ":" ++ " "
              ++ JSON.str inner (snd p) ++ "" ++ ","
              ++ ((JSON.nl ++ inner)
                    ++ JsString.join ("," ++ JSON.nl ++ inner)
                         (map (fun kv => JSON.quote (fst kv) ++ ": "
                                           ++ JSON.str inner (snd kv)) (q :: props))
                    ++ tail)).
    + apply Grammar.members_more;
        [apply ws_app; [apply ws_nl | exact Wi] | apply quote_literal
        | constructor | apply ws_space | apply Hp, Wi | constructor
        | apply IH, Hrest].
    + cbn [map]. rewrite !append_assoc. reflexivity.
Qed.

(** Whatever the value and the indentation, [JSON.str] writes a JSON value. *)
Lemma str_is_json (v : value) :
  forall indent, Grammar.ws indent -> Grammar.text (JSON.str indent v).
Proof.
  induction v as [| b | n | s | iso | items IH | props IH] using value_nested_ind;
    intros indent W.
  - apply Grammar.text_null.
  - destruct b; [apply Grammar.text_true | apply Grammar.text_false].
  - apply Grammar.text_number, number_integer.
  - apply Grammar.text_string, quote_literal.
  - apply Grammar.text_string, quote_literal.
  - destruct items as [| x items].
    + apply (Grammar.text_empty_array ""). constructor.
    + cbn [JSON.str].
      replace ("[" ++ JSON.nl ++ (indent ++ JSON.gap)
                 ++ JsString.join ("," ++ JSON.nl ++ indent ++ JSON.gap)
                      (map (JSON.str (indent ++ JSON.gap)) (x :: items))
                 ++ JSON.nl ++ indent ++ "]")
        with ("[" ++ ((JSON.nl ++ (indent ++ JSON.gap))
                 ++ JsString.join ("," ++ JSON.nl ++ indent ++ JSON.gap)
                      (map (JSON.str (indent ++ JSON.gap)) (x :: items))
                 ++ (JSON.nl ++ indent)) ++ "]").
      * apply Grammar.text_array. apply elements_joined.
        -- apply ws_app; [exact W | apply ws_gap].
        -- apply ws_app; [apply ws_nl | exact W].
        -- exact IH.
      * rewrite !append_assoc. reflexivity.
  - destruct props as [| p props].
    + apply (Grammar.text_empty_object ""). constructor.
    + cbn [JSON.str].
      replace ("{" ++ JSON.nl ++ (indent ++ JSON.gap)
                 ++ JsString.join ("," ++ JSON.nl ++ indent ++ JSON.gap)
                      (map (fun kv => JSON.quote (fst kv) ++ ": "
                                        ++ JSON.str (indent ++ JSON.gap) (snd kv))
                           (p :: props))
                 ++ JSON.nl ++ indent ++ "}")
        with ("{" ++ ((JSON.nl ++ (indent ++ JSON.gap))
                 ++ JsString.join ("," ++ JSON.nl ++ indent ++ JSON.gap)
                      (map (fun kv => JSON.quote (fst kv) ++ ": "
                                        ++ JSON.str (indent ++ JSON.gap) (snd kv))
                           (p :: props))
                 ++ (JSON.nl ++ indent)) ++ "}").
      * apply Grammar.text_object. apply members_joined.
        -- apply ws_app; [exact W | apply ws_gap].
        -- apply ws_app; [apply ws_nl | exact W].
        -- exact IH.
      * rewrite !append_assoc. reflexivity.
Qed.

Lemma stringify_is_json (v : value) : Grammar.text (JSON.str "" v).
Proof. apply str_is_json. constructor. Qed.

(** ** One turn of the formatter *)

Ltac bind_as H a :=
  let w1 := fresh "w" in
  let E' := fresh "E" in
  apply bind_ok in H; destruct H as (a & w1 & E' & H); cbv beta in H;
  rename E' into E.

(** What a turn of [_formatJSON] that returns normally has done. *)
Lemma formatJSON_file_ok (h : host) (files : batch) (toJS : bool) (name : string)
      (w w' : world) (v : value) :
  _formatJSON_file h files toJS name w = (Ok v, w') ->
  exists text doc json mid,
    Fs.readFile (fs w) (Fs.path_of (pulled_path name)) = Some text
    /\ yamljs h text = Some doc
    /\ get_prop doc (locale_of name) = Ok (Some json)
    /\ accepts_meta (Some json) = true
    /\ forallb is_landing mid = true
    /\ incl (landed mid)
            (List.app (pending (trace w))
               [(pulled_path name, output_path (extension toJS) name)])
    /\ trace w' = List.app (trace w)
                    (ERename (pulled_path name) (output_path (extension toJS) name)
                       :: List.app mid
                            [EWrite (output_path (extension toJS) name)
                                    (rendered toJS name json)])
    /\ Fs.writeFile (replay (landed mid) (fs w))
         (Fs.path_of (output_path (extension toJS) name))
         (rendered toJS name json) = Some (fs w')
    /\ version w' = version w
    /\ v = with_meta json (meta h files (version w)).
Proof.
  unfold pulled_path, output_path, rendered, extension, locale_of.
  destruct toJS; unfold _formatJSON_file; cbv beta iota zeta; intros H.
  all: rewrite ?replace_in_file, ?replace_hyphen, ?append_assoc in H.
  all: bind_as H doc; apply yaml_load_ok in E as (-> & text & R & Y).
  all: bind_as H found; apply lift_ok in E as (G & ->).
  all: bind_as H u; destruct u.
  all: unfold fs_rename, emit in E; injection E as <-.
  all: bind_as H u; apply settle_ok in E as (mid & -> & L & I).
  all: cbn [fs version trace] in *.
  all: bind_as H json1; apply lift_ok in E as (M1 & ->).
  all: bind_as H ver; injection E as <- <-.
  all: bind_as H json2; apply lift_ok in E as (M2 & ->).
  all: bind_as H u'; destruct u'.
  all: apply file_write_ok in E as (root' & Wr & ->).
  all: injection H as <- <-.
  all: destruct found as [json |]; [| discriminate M1].
  all: exists text, doc, json, mid; cbn [fs version trace] in *.
  all: rewrite pending_snoc in I; cbn [note] in I.
  all: cbn [JsString.of_option JSON.stringify] in Wr.
  all: repeat split; try assumption.
  all: try (destruct json; try discriminate M1; reflexivity).
  all: try (rewrite <- !List.app_assoc; reflexivity).
  all: destruct json; try discriminate M1; cbn [set_meta] in M1;
    injection M1 as <-; cbn [set_meta] in M2; injection M2 as <-; reflexivity.
Qed.
(** ** What a change of the files leaves alone *)

Lemma find_set_other (es : list (string * node)) (name other : string) (c : node) :
  name <> other -> Fs.find (Fs.set es name c) other = Fs.find es other.
Proof.
  intros D. unfold Fs.set. destruct (Fs.find es name) as [old |] eqn:F.
  - clear F. induction es as [| [k n] es IH]; cbn [map fst Fs.find]; [reflexivity |].
    destruct (String.eqb_spec k name) as [E | N]; cbn [Fs.find].
    + subst k. apply String.eqb_neq in D. rewrite D. exact IH.
    + rewrite IH. reflexivity.
  - clear F. induction es as [| [k n] es IH]; cbn [List.app Fs.find].
    + apply String.eqb_neq in D. rewrite D. reflexivity.
    + rewrite IH. reflexivity.
Qed.

Lemma lookup_in_empty (q : path) : q <> [] -> Fs.lookup q (Dir []) = None.
Proof. destruct q; [contradiction | reflexivity]. Qed.

Lemma diverge_not_nil (p q : path) : diverge p q = true -> q <> [].
Proof. destruct p, q; cbn; congruence. Qed.

(** A successful [alter] at [p] changes nothing at a path that parts from
    [p]. *)
Lemma alter_frame (mk : bool) (p : path) (f : option node -> option (option node))
      (root root' : node) (q : path) :
  Fs.alter mk p f root = Some root' ->
  diverge p q = true ->
  Fs.lookup q root' = Fs.lookup q root.
Proof.
  revert root root' q. induction p as [| name rest IH]; intros root root' q A D.
  - discriminate A.
  - destruct q as [| b q']; [discriminate D |].
    destruct root as [c | es]; [destruct rest; cbn in A; discriminate A |].
    cbn [diverge] in D. cbn [Fs.lookup].
    destruct (String.eqb_spec name b) as [<- | N].
    + destruct rest as [| next rest]; [discriminate D |].
      rewrite alter_deeper in A.
      destruct (Fs.find es name) as [c |].
      * destruct (Fs.alter mk (next :: rest) f c) as [c' |] eqn:A'; [| discriminate A].
        injection A as <-. rewrite find_set_same. apply (IH _ _ _ A' D).
      * destruct mk; [| discriminate A].
        destruct (Fs.alter true (next :: rest) f (Dir [])) as [c' |] eqn:A';
          [| discriminate A].
        injection A as <-. rewrite find_set_same, (IH _ _ _ A' D).
        apply lookup_in_empty. apply (diverge_not_nil _ _ D).
    + destruct rest as [| next rest].
      * cbn [Fs.alter] in A.
        destruct (f (Fs.find es name)) as [[c |] |]; try discriminate A;
          injection A as <-; cbn [Fs.lookup].
        -- rewrite (find_set_other _ _ _ _ N). reflexivity.
        -- rewrite (find_remove_other _ _ _ N). reflexivity.
      * rewrite alter_deeper in A.
        destruct (Fs.find es name) as [c |].
        -- destruct (Fs.alter mk (next :: rest) f c) as [c' |]; [| discriminate A].
           injection A as <-. cbn [Fs.lookup].
           rewrite (find_set_other _ _ _ _ N). reflexivity.
        -- destruct mk; [| discriminate A].
           destruct (Fs.alter true (next :: rest) f (Dir [])) as [c' |];
             [| discriminate A].
           injection A as <-. cbn [Fs.lookup].
           rewrite (find_set_other _ _ _ _ N). reflexivity.
Qed.

(** ** Renaming a file within its directory *)

Lemma path_eqb_neq (p q : path) : p <> q -> Fs.path_eqb p q = false.
Proof.
  unfold Fs.path_eqb. destruct (list_eq_dec string_dec p q); [contradiction | reflexivity].
Qed.

Lemma path_eqb_same (p : path) : Fs.path_eqb p p = true.
Proof.
  unfold Fs.path_eqb. destruct (list_eq_dec string_dec p p); [reflexivity | contradiction].
Qed.

Lemma find_none_unchanged (es : list (string * node)) (name : string) (c : node) :
  Fs.find es name = None ->
  map (fun e => if fst e =? name then (name, c) else e) es = es.
Proof.
  induction es as [| [k n] es IH]; cbn [map fst Fs.find]; [reflexivity |].
  destruct (k =? name); [discriminate |]. intros F. rewrite (IH F). reflexivity.
Qed.

Lemma set_set (es : list (string * node)) (name : string) (c1 c2 : node) :
  Fs.set (Fs.set es name c1) name c2 = Fs.set es name c2.
Proof.
  unfold Fs.set at 1. rewrite find_set_same.
  unfold Fs.set. destruct (Fs.find es name) as [old |] eqn:F.
  - rewrite map_map. apply map_ext. intros [k n]. cbn [fst].
    destruct (String.eqb_spec k name) as [E | D]; cbn [fst].
    + rewrite String.eqb_refl. reflexivity.
    + apply String.eqb_neq in D. rewrite D. reflexivity.
  - rewrite map_app. cbn [map fst]. rewrite String.eqb_refl.
    rewrite (find_none_unchanged _ _ _ F). reflexivity.
Qed.

Lemma rename_deeper (es : list (string * node)) (name : string) (c : node)
      (p q : path) :
  Fs.find es name = Some c -> p <> [] -> q <> [] -> p <> q ->
  Fs.rename (Dir es) (name :: p) (name :: q)
  = match Fs.rename c p q with
    | Some c' => Some (Dir (Fs.set es name c'))
    | None => None
    end.
Proof.
  intros F P Q N. unfold Fs.rename. cbn [Fs.lookup]. rewrite F.
  destruct (Fs.lookup p c) as [n |]; [| reflexivity].
  rewrite (path_eqb_neq p q N), (path_eqb_neq (name :: p) (name :: q))
    by congruence.
  unfold Fs.delete.
  destruct p as [| a p]; [contradiction |].
  destruct q as [| b q]; [contradiction |].
  rewrite alter_deeper, F.
  destruct (Fs.alter false (a :: p) (fun _ => Some None) c) as [c1 |];
    [| reflexivity].
  rewrite alter_deeper, find_set_same.
  match goal with
  | |- context [Fs.alter false (b :: q) ?g c1] =>
      destruct (Fs.alter false (b :: q) g c1)
  end; [| reflexivity].
  rewrite set_set. reflexivity.
Qed.

(** A file is renamed within its directory whenever no directory has the
    new name: the new name then holds it, the old one nothing. *)
Lemma rename_beside (parent : path) (x y : string) (root : node) (c : string) :
  x <> y ->
  Fs.lookup (List.app parent [x]) root = Some (File c) ->
  Fs.isDir root (List.app parent [y]) = false ->
  exists root',
    Fs.rename root (List.app parent [x]) (List.app parent [y]) = Some root'
    /\ Fs.lookup (List.app parent [y]) root' = Some (File c)
    /\ Fs.lookup (List.app parent [x]) root' = None.
Proof.
  intros N. revert root. induction parent as [| name rest IH]; intros root L D.
  - cbn [List.app] in *. destruct root as [c0 | es]; [discriminate L |].
    cbn [Fs.lookup] in L. unfold Fs.isDir in D. cbn [Fs.lookup] in D.
    destruct (Fs.find es x) as [n |] eqn:Fx; [| discriminate L].
    destruct n as [c1 | es1]; [| discriminate L]. injection L as ->.
    unfold Fs.rename, Fs.delete. cbn [Fs.lookup Fs.alter]. rewrite Fx.
    rewrite path_eqb_neq by congruence.
    rewrite (find_remove_other _ _ _ N).
    destruct (Fs.find es y) as [[c2 | es2] |]; [| discriminate D |];
      (eexists; split; [reflexivity |]; cbn [Fs.lookup];
       rewrite find_set_same; split; [reflexivity |];
       rewrite find_set_other by congruence; rewrite find_remove_same;
       reflexivity).
  - cbn [List.app] in *. destruct root as [c0 | es]; [discriminate L |].
    cbn [Fs.lookup] in L. unfold Fs.isDir in D. cbn [Fs.lookup] in D.
    destruct (Fs.find es name) as [ch |] eqn:F; [| discriminate L].
    destruct (IH ch L D) as (ch' & R & Ly & Lx).
    rewrite (rename_deeper _ _ _ _ _ F), R.
    + eexists. split; [reflexivity |].
      cbn [Fs.lookup]. rewrite find_set_same. split; assumption.
    + destruct rest; discriminate.
    + destruct rest; discriminate.
    + intros E. apply app_inv_head in E. congruence.
Qed.

(** A rename changes nothing at a path that parts from both names. *)
Lemma rename_frame (root root' : node) (src dst q : path) :
  Fs.rename root src dst = Some root' ->
  diverge src q = true -> diverge dst q = true ->
  Fs.lookup q root' = Fs.lookup q root.
Proof.
  unfold Fs.rename. destruct (Fs.lookup src root) as [n |]; [| discriminate].
  destruct (Fs.path_eqb src dst); [intros [= <-]; reflexivity |].
  unfold Fs.delete.
  destruct (Fs.alter false src (fun _ => Some None) root) as [root1 |] eqn:A;
    [| discriminate].
  intros B Ds Dd.
  rewrite (alter_frame _ _ _ _ _ _ B Dd). apply (alter_frame _ _ _ _ _ _ A Ds).
Qed.

Lemma rename_same (root : node) (p : path) (n : node) :
  Fs.lookup p root = Some n -> Fs.rename root p p = Some root.
Proof. intros L. unfold Fs.rename. rewrite L, path_eqb_same. reflexivity. Qed.

(** ** Paths made by concatenation *)

Lemma prefix_slash (c : ascii) (s : string) :
  prefix "/" (String c s) = Ascii.eqb "/" c.
Proof. rewrite prefix_cons, prefix_nil. apply andb_true_r. Qed.

Lemma split_from_nonempty (sep : string) (skip : nat) (cur s : string) :
  JsString.split_from sep skip cur s <> [].
Proof.
  revert skip cur. induction s as [| c s IH]; intros skip cur; cbn [JsString.split_from].
  - discriminate.
  - destruct skip; [| apply IH].
    destruct (prefix sep (String c s)); [discriminate | apply IH].
Qed.

Lemma split_slash_app (a b cur : string) :
  JsString.split_from "/" 0 cur (a ++ b)
  = List.app (removelast (JsString.split_from "/" 0 cur a))
             (JsString.split_from "/" 0 (last (JsString.split_from "/" 0 cur a) "") b).
Proof.
  revert cur. induction a as [| c a IH]; intros cur; [reflexivity |].
  change (String c a ++ b) with (String c (a ++ b)).
  cbn [JsString.split_from]. rewrite !prefix_slash.
  destruct (Ascii.eqb "/" c).
  - change (String.length "/" - 1) with 0. rewrite IH.
    pose proof (split_from_nonempty "/" 0 "" a) as N.
    destruct (JsString.split_from "/" 0 "" a) as [| x l]; [contradiction |].
    reflexivity.
  - apply IH.
Qed.

Lemma split_no_slash (name cur : string) :
  occurs "/" name = false ->
  JsString.split_from "/" 0 cur name = [cur ++ name].
Proof.
  revert cur. induction name as [| c s IH]; intros cur O.
  - cbn. rewrite append_nil_r. reflexivity.
  - cbn [occurs] in O. apply orb_false_elim in O as [P O].
    cbn [JsString.split_from]. rewrite P, (IH _ O), append_assoc. reflexivity.
Qed.

Lemma filter_last {A : Type} (f : A -> bool) (l : list A) (x : A) :
  f x = true -> filter f (List.app l [x]) = List.app (filter f l) [x].
Proof. intros F. rewrite filter_app. cbn. rewrite F. reflexivity. Qed.

Lemma append_not_empty (a b : string) : a <> "" -> a ++ b <> "".
Proof. destruct a; [contradiction | discriminate]. Qed.

Lemma append_last_not_empty (a : string) (c : ascii) : a ++ String c "" <> "".
Proof. destruct a; discriminate. Qed.

Lemma not_empty_true (s : string) : s <> "" -> negb (s =? "") = true.
Proof. intros N. apply String.eqb_neq in N. rewrite N. reflexivity. Qed.


Lemma occurs_slash_cons (c : ascii) (s : string) :
  occurs "/" (String c s) = Ascii.eqb "/" c || occurs "/" s.
Proof. cbn [occurs]. rewrite prefix_slash. reflexivity. Qed.

Lemma occurs_slash_app (a b : string) :
  occurs "/" (a ++ b) = occurs "/" a || occurs "/" b.
Proof.
  induction a as [| c a IH]; cbn [append].
  - destruct b; reflexivity.
  - rewrite !occurs_slash_cons, IH, orb_assoc. reflexivity.
Qed.

Lemma names_entry_long (c1 c2 : ascii) (s : string) :
  Fs.names_entry (String c1 (String c2 s)) = true.
Proof.
  unfold Fs.names_entry. cbn [String.eqb negb andb].
  destruct (Ascii.eqb c1 "."); reflexivity.
Qed.

Lemma names_entry_app (a : string) (c1 c2 : ascii) (b : string) :
  Fs.names_entry (a ++ String c1 (String c2 b)) = true.
Proof.
  destruct a as [| a1 [| a2 a]]; cbn [append]; try apply names_entry_long.
Qed.

(** A name without a slash, put after [config/locales/], is an entry of
    that directory. *)
Lemma path_in_locales (leaf : string) :
  occurs "/" leaf = false -> Fs.names_entry leaf = true ->
  Fs.path_of ("config/locales/" ++ leaf) = ["config"; "locales"; leaf].
Proof.
  intros O E. unfold Fs.path_of, JsString.split.
  rewrite split_slash_app.
  change (JsString.split_from "/" 0 "" "config/locales/")
    with ["config"; "locales"; ""].
  cbn [removelast last]. rewrite (split_no_slash _ _ O).
  cbn [List.app filter append]. rewrite E. reflexivity.
Qed.

Lemma first_piece_no_slash (s cur : string) (skip : nat) :
  occurs "/" cur = false -> occurs "/" s = false ->
  occurs "/" (hd "" (JsString.split_from ".yml" skip cur s)) = false.
Proof.
  revert cur skip. induction s as [| c s IH]; intros cur skip C O.
  - destruct skip; exact C.
  - rewrite occurs_slash_cons in O. apply orb_false_elim in O as [Oc O].
    cbn [JsString.split_from]. destruct skip as [| k]; [| apply IH; assumption].
    destruct (prefix ".yml" (String c s)); [exact C |].
    apply IH; [| exact O].
    rewrite occurs_slash_app, C, occurs_slash_cons, Oc. reflexivity.
Qed.

Lemma locale_no_slash (name : string) :
  occurs "/" name = false -> occurs "/" (locale_of name) = false.
Proof. apply first_piece_no_slash. reflexivity. Qed.

Lemma underscore_no_slash (s : string) :
  occurs "/" (underscore_first_hyphen s) = occurs "/" s.
Proof.
  induction s as [| c s IH]; [reflexivity |].
  cbn [underscore_first_hyphen]. destruct (Ascii.eqb_spec c "-") as [-> | N].
  - rewrite !occurs_slash_cons. reflexivity.
  - rewrite !occurs_slash_cons, IH. reflexivity.
Qed.

Lemma well_named_no_slash (name : string) :
  well_named name = true -> occurs "/" name = false.
Proof.
  unfold well_named. intros W. apply andb_prop in W as [W _].
  apply andb_prop in W as [W _].
  destruct (occurs "/" name); [discriminate | reflexivity].
Qed.

(** The two names of a turn, for a file as a listing gives it. *)
Lemma pulled_path_of (name : string) :
  well_named name = true ->
  Fs.path_of (pulled_path name) = ["config"; "locales"; locale_of name ++ ".yml"].
Proof.
  intros W. apply path_in_locales.
  - rewrite occurs_slash_app, (locale_no_slash _ (well_named_no_slash _ W)).
    reflexivity.
  - apply names_entry_app.
Qed.

Lemma output_path_of (ext name : string) :
  well_named name = true -> occurs "/" ext = false ->
  (exists c1 c2 rest, ext = String c1 (String c2 rest)) ->
  Fs.path_of (output_path ext name)
  = ["config"; "locales"; underscore_first_hyphen (locale_of name) ++ ext].
Proof.
  intros W O (c1 & c2 & rest & ->). apply path_in_locales.
  - rewrite occurs_slash_app, underscore_no_slash,
      (locale_no_slash _ (well_named_no_slash _ W)), O. reflexivity.
  - apply names_entry_app.
Qed.

Lemma underscore_same (s : string) :
  occurs "-" s = false -> underscore_first_hyphen s = s.
Proof.
  induction s as [| c s IH]; [reflexivity |].
  cbn [occurs]. rewrite prefix_hyphen. intros O.
  apply orb_false_elim in O as [P O].
  cbn [underscore_first_hyphen]. rewrite Ascii.eqb_sym, P, (IH O). reflexivity.
Qed.

Lemma underscore_differs (s : string) :
  occurs "-" s = true -> underscore_first_hyphen s <> s.
Proof.
  induction s as [| c s IH]; [discriminate |].
  cbn [occurs]. rewrite prefix_hyphen. cbn [underscore_first_hyphen].
  destruct (Ascii.eqb_spec c "-") as [-> | N].
  - intros _ E. discriminate E.
  - rewrite Ascii.eqb_sym. destruct (Ascii.eqb_spec c "-"); [contradiction |].
    cbn [orb]. intros O E. injection E as E. exact (IH O E).
Qed.

(** ** The YAML variant and the names of the files *)

Lemma formatYML_file_run (name : string) (w : world) :
  _formatYML_file name w
  = (Ok tt,
     World (fs w) (version w)
       (List.app (trace w) [ERename (pulled_path name) (output_path ".yml" name)])).
Proof.
  unfold _formatYML_file, fs_rename, emit, pulled_path, output_path, locale_of.
  cbv zeta. rewrite replace_in_file, !append_assoc. reflexivity.
Qed.

Lemma first_hyphen_only (pre post : string) :
  occurs "-" pre = false ->
  underscore_first_hyphen (pre ++ String "-" post) = pre ++ String "_" post.
Proof.
  induction pre as [| c pre IH]; intros O; [reflexivity |].
  cbn [occurs] in O. apply orb_false_elim in O as [P O].
  rewrite prefix_hyphen in P.
  cbn [append underscore_first_hyphen].
  rewrite Ascii.eqb_sym, P, (IH O). reflexivity.
Qed.

Lemma readFile_lookup (root : node) (p : path) (c : string) :
  Fs.readFile root p = Some c <-> Fs.lookup p root = Some (File c).
Proof.
  unfold Fs.readFile. destruct (Fs.lookup p root) as [[c' | es] |]; split;
    intros E; try discriminate E; congruence.
Qed.

(** What carrying out the rename of a turn of the YAML variant does, while
    the pulled file is still there and no directory has the new name. *)
Lemma land_yml (name : string) (root : node) (content : string) :
  well_named name = true ->
  Fs.readFile root (Fs.path_of (pulled_path name)) = Some content ->
  Fs.isDir root (Fs.path_of (output_path ".yml" name)) = false ->
  Fs.readFile (land root (pulled_path name, output_path ".yml" name))
              (Fs.path_of (output_path ".yml" name)) = Some content
  /\ (occurs "-" (locale_of name) = true ->
      Fs.lookup (Fs.path_of (pulled_path name))
                (land root (pulled_path name, output_path ".yml" name)) = None)
  /\ (occurs "-" (locale_of name) = false ->
      land root (pulled_path name, output_path ".yml" name) = root)
  /\ (forall q,
        diverge (Fs.path_of (pulled_path name)) q = true ->
        diverge (Fs.path_of (output_path ".yml" name)) q = true ->
        Fs.lookup q (land root (pulled_path name, output_path ".yml" name))
        = Fs.lookup q root).
Proof.
  intros W R D. unfold land. cbn [fst snd].
  destruct (occurs "-" (locale_of name)) eqn:H.
  - pose proof (underscore_differs _ H) as N.
    rewrite (pulled_path_of _ W) in *.
    rewrite (output_path_of ".yml" _ W) in * by (try reflexivity; repeat eexists).
    apply readFile_lookup in R.
    destruct (rename_beside ["config"; "locales"] (locale_of name ++ ".yml")
                (underscore_first_hyphen (locale_of name) ++ ".yml") root content)
      as (root' & Rn & Ly & Lx); try assumption.
    { intros E. apply N. symmetry.
      revert E. generalize (underscore_first_hyphen (locale_of name)).
      generalize (locale_of name). clear.
      induction s as [| c s IH]; intros [| c' s']; cbn [append]; intros E;
        try reflexivity.
      - injection E as E1 E2. destruct s' as [| ? [| ? [| ? [| ? ?]]]]; discriminate E2.
      - injection E as E1 E2. destruct s as [| ? [| ? [| ? [| ? ?]]]]; discriminate E2.
      - injection E as -> E. rewrite (IH _ E). reflexivity. }
    cbn [List.app] in Rn, Ly, Lx. rewrite Rn.
    split; [apply readFile_lookup, Ly |]. split; [intros _; exact Lx |].
    split; [discriminate |].
    intros q D1 D2. apply (rename_frame _ _ _ _ _ Rn D1 D2).
  - assert (E : output_path ".yml" name = pulled_path name).
    { unfold output_path, pulled_path. rewrite (underscore_same _ H). reflexivity. }
    rewrite E in *. apply readFile_lookup in R. rewrite (rename_same _ _ _ R).
    split; [apply readFile_lookup, R |]. split; [discriminate |].
    split; reflexivity.
Qed.



Example yml_turn_calls_the_rename :
  _formatYML_file "en-US.yml" Sample.pulled
  = (Ok tt,
     World (fs Sample.pulled) (version Sample.pulled)
       [ERename "config/locales/en-US.yml" "config/locales/en_US.yml"]).
Proof. reflexivity. Qed.

(** ** The script variant *)

Lemma object_braces (indent : string) (props : list (string * value)) :
  exists body, JSON.str indent (VObj props) = "{" ++ body ++ "}".
Proof.
  destruct props as [| p ps]; [exists ""; reflexivity |].
  cbn [JSON.str].
  exists (JSON.nl ++ (indent ++ JSON.gap)
            ++ JsString.join ("," ++ JSON.nl ++ indent ++ JSON.gap)
                 (map (fun kv => JSON.quote (fst kv) ++ ": "
                                   ++ JSON.str (indent ++ JSON.gap) (snd kv))
                      (p :: ps))
            ++ JSON.nl ++ indent).
  rewrite !append_assoc. reflexivity.
Qed.




(** ** The metadata of the JSON variant *)

(** The file a turn of the JSON variant writes is the serialisation of the
    document under the locale key as it was loaded; [_meta] is set on the
    object in memory after [content] is computed. *)
Lemma json_output_is_loaded_document (h : host) (files : batch) (name : string)
      (w w' : world) (v : value) :
  _formatJSON_file h files false name w = (Ok v, w') ->
  exists text doc json,
    let locale := hd "" (JsString.split ".yml" name) in
    Fs.readFile (fs w) (Fs.path_of ("config/locales/" ++ locale ++ ".yml"))
    = Some text
    /\ yamljs h text = Some doc
    /\ get_prop doc locale = Ok (Some json)
    /\ Fs.readFile (fs w')
         (Fs.path_of ("config/locales/" ++ underscore_first_hyphen locale ++ ".json"))
       = Some (JSON.str "" json)
    /\ v = with_meta json (meta h files (version w)).
Proof.
  intros H.
  apply formatJSON_file_ok in H
    as (text & doc & json & mid & R & Y & G & _ & _ & _ & _ & Wr & _ & V).
  exists text, doc, json. cbv zeta. repeat split; try assumption.
  apply (writeFile_read _ _ _ _ Wr).
Qed.

(** C1, where the code departs from it.  With the files [en-US.yml] and
    [fr-FR.yml] pulled and the format [json], the task publishes
    [en_US.json] and [fr_FR.json], each the document under its locale key
    and nothing more: no [_meta] is in the text, although the object in
    memory has received it. *)
Theorem json_output_lacks_meta :
  localeapp Sample.gem Sample.json_task Sample.start
  = (Ok tt, snd (localeapp Sample.gem Sample.json_task Sample.start))
  /\ Fs.readdir (fs (snd (localeapp Sample.gem Sample.json_task Sample.start)))
       (Fs.path_of "public/locales/")
     = Some ["en_US.json"; "fr_FR.json"]
  /\ Fs.readFile (fs (snd (localeapp Sample.gem Sample.json_task Sample.start)))
       (Fs.path_of "public/locales/en_US.json")
     = Some (JSON.str "" (VObj [("hello", VStr "Hi")]))
  /\ Fs.readFile (fs (snd (localeapp Sample.gem Sample.json_task Sample.start)))
       (Fs.path_of "public/locales/fr_FR.json")
     = Some (JSON.str "" (VObj [("hello", VStr "Salut")]))
  /\ occurs "_meta" (JSON.str "" (VObj [("hello", VStr "Hi")])) = false
  /\ occurs "_meta" (JSON.str "" (VObj [("hello", VStr "Salut")])) = false
  /\ fst (_formatJSON_file Sample.gem Sample.pulled_batch false "en-US.yml"
            Sample.pulled)
     = Ok (VObj [("hello", VStr "Hi");
                 ("_meta",
                  VObj [("polledAt", VStr (Sample.date (Some (VNum 1404200000))));
                        ("updatedAt", VStr (Sample.date (Some (VNum 1404100000))));
                        ("gem", VStr "localeapp version 0.8.0")])]).
Proof. repeat apply conj; vm_compute; reflexivity. Qed.


(** ** The publisher *)

Lemma pending_quiet_event (t : list event) (e : event) :
  pending t = [] ->
  match e with ERename _ _ => False | _ => True end ->
  pending (List.app t [e]) = [].
Proof.
  intros P E. rewrite pending_snoc, P. destruct e; try reflexivity; contradiction.
Qed.

Lemma readdir_ok (p : string) (w w1 : world) (names : list string) :
  fs_readdirSync p w = (Ok names, w1) ->
  w1 = w /\ Fs.readdir (fs w) (Fs.path_of p) = Some names.
Proof.
  unfold fs_readdirSync, bind, get_fs, ret, raise.
  destruct (p =? ""); [discriminate |].
  destruct (Fs.readdir (fs w) (Fs.path_of p)) as [l |]; [| discriminate].
  intros [= <- <-]. split; reflexivity.
Qed.

Lemma readdir_run (p : string) (w : world) (names : list string) :
  p <> "" -> Fs.readdir (fs w) (Fs.path_of p) = Some names ->
  fs_readdirSync p w = (Ok names, w).
Proof.
  intros N R. unfold fs_readdirSync, bind, get_fs, ret.
  apply String.eqb_neq in N. rewrite N, R. reflexivity.
Qed.

Lemma readdir_fails (p : string) (w : world) :
  p = "" \/ Fs.readdir (fs w) (Fs.path_of p) = None ->
  fs_readdirSync p w = (Err (Thrown ("Error: cannot read directory " ++ p)), w).
Proof.
  intros R. unfold fs_readdirSync, bind, get_fs, ret, raise.
  destruct (String.eqb_spec p "") as [E | N]; [reflexivity |].
  destruct R as [E | R]; [contradiction |]. rewrite R. reflexivity.
Qed.

Lemma readdir_throws (p : string) (w w1 : world) (e : failure) :
  fs_readdirSync p w = (Err e, w1) ->
  e = Thrown ("Error: cannot read directory " ++ p) /\ w1 = w.
Proof.
  unfold fs_readdirSync, bind, get_fs, ret, raise.
  destruct (if p =? "" then None else Fs.readdir (fs w) (Fs.path_of p));
    [discriminate |].
  intros [= <- <-]. split; reflexivity.
Qed.

(** A copy while no rename is pending. *)
Lemma file_copy_run (h : host) (src dst : string) (w : world) :
  pending (trace w) = [] ->
  file_copy h src dst w
  = match Fs.readFile (fs w) (Fs.path_of src) with
    | None =>
        (Err (Thrown ("Unable to read " ++ src)),
         World (fs w) (version w) (List.app (trace w) [ECopy src dst]))
    | Some c =>
        match Fs.writeFile (fs w) (Fs.path_of dst) c with
        | Some root' =>
            (Ok tt,
             World root' (version w)
               (List.app (trace w) [ECopy src dst; EWrite dst c]))
        | None =>
            (Err (Thrown ("Unable to write " ++ dst)),
             World (fs w) (version w)
               (List.app (trace w) [ECopy src dst; EWrite dst c]))
        end
    end.
Proof.
  intros Q. unfold file_copy. unfold bind at 1. unfold emit at 1.
  unfold bind at 1. unfold grunt.file_read, bind at 1, get_fs, ret, raise.
  cbn [fs version trace].
  destruct (Fs.readFile (fs w) (Fs.path_of src)) as [c |]; [| reflexivity].
  rewrite (bind_run _ _ _ _ _
             (settle_quiet h (World (fs w) (version w)
                                (List.app (trace w) [ECopy src dst]))
                (pending_quiet_event _ (ECopy src dst) Q I))).
  unfold grunt.file_write, bind, get_fs, put_fs, emit, raise.
  cbn [fs version trace]. rewrite <- List.app_assoc. cbn [List.app].
  destruct (Fs.writeFile (fs w) (Fs.path_of dst) c); reflexivity.
Qed.

Lemma diverge_app_same (l p q : path) :
  diverge (List.app l p) (List.app l q) = diverge p q.
Proof.
  induction l as [| a l IH]; [reflexivity |].
  cbn [List.app diverge]. rewrite String.eqb_refl. exact IH.
Qed.

Lemma diverge_extend (p q l : path) :
  diverge p q = true -> diverge p (List.app q l) = true.
Proof.
  revert q. induction p as [| a p IH]; intros [| b q] D; try discriminate D.
  cbn [List.app diverge] in *. destruct (a =? b); [apply IH, D | reflexivity].
Qed.

Lemma diverge_sym (p q : path) : diverge p q = diverge q p.
Proof.
  revert q. induction p as [| a p IH]; intros [| b q]; try reflexivity.
  cbn [diverge]. rewrite String.eqb_sym. destruct (b =? a); [apply IH | reflexivity].
Qed.

Lemma diverge_last (l : path) (a b : string) :
  a <> b -> diverge (List.app l [a]) (List.app l [b]) = true.
Proof.
  intros N. rewrite diverge_app_same. cbn [diverge].
  apply String.eqb_neq in N. rewrite N. reflexivity.
Qed.

Lemma append_longer (base name : string) : name <> "" -> base ++ name <> base.
Proof.
  intros N E. induction base as [| c base IH]; cbn [append] in E.
  - contradiction.
  - injection E as E. exact (IH E).
Qed.

Lemma append_inj_r (a b c : string) : a ++ b = a ++ c -> b = c.
Proof.
  induction a as [| x a IH]; cbn [append]; [auto |].
  intros [= E]. exact (IH E).
Qed.

Lemma well_named_entry (name : string) :
  well_named name = true -> Fs.names_entry name = true /\ name <> "".
Proof.
  unfold well_named. intros W. apply andb_prop in W as [W _].
  apply andb_prop in W as [_ W]. split; [exact W |].
  intros ->. discriminate W.
Qed.

Lemma names_entry_concat (base name : string) :
  well_named name = true -> Fs.names_entry (base ++ name) = true.
Proof.
  intros W. destruct (well_named_entry _ W) as [E N].
  destruct base as [| b base]; [exact E |].
  destruct name as [| c name]; [contradiction |].
  destruct base as [| b' base]; cbn [append]; apply names_entry_long.
Qed.

(** Where [dest + name] lies: in the directory of the last component of
    [dest], under the name made of that component and [name]. *)
Lemma path_of_concat (dest name : string) :
  well_named name = true ->
  Fs.path_of (dest ++ name)
  = List.app (filter Fs.names_entry (removelast (JsString.split "/" dest)))
             [last (JsString.split "/" dest) "" ++ name].
Proof.
  intros W. unfold Fs.path_of, JsString.split.
  rewrite split_slash_app, (split_no_slash _ _ (well_named_no_slash _ W)).
  rewrite filter_app. cbn [filter]. rewrite (names_entry_concat _ _ W).
  reflexivity.
Qed.

Lemma path_of_named (dest : string) :
  ends_in_name dest = true ->
  Fs.path_of dest
  = List.app (filter Fs.names_entry (removelast (JsString.split "/" dest)))
             [last (JsString.split "/" dest) ""].
Proof.
  unfold ends_in_name. intros W. unfold Fs.path_of.
  rewrite (app_removelast_last "" (split_from_nonempty "/" 0 "" dest)) at 1.
  fold (JsString.split "/" dest).
  rewrite filter_app. cbn [filter].
  rewrite (proj1 (well_named_entry _ W)). reflexivity.
Qed.

(** Two copies land on one path only when they have one name. *)
Lemma targets_diverge (dest a b : string) :
  well_named a = true -> well_named b = true -> a <> b ->
  diverge (Fs.path_of (dest ++ a)) (Fs.path_of (dest ++ b)) = true.
Proof.
  intros A B N. rewrite (path_of_concat _ _ A), (path_of_concat _ _ B).
  apply diverge_last. intros E. apply N. exact (append_inj_r _ _ _ E).
Qed.

(** A copy lies beside [dest], not in it, when [dest] ends in a name. *)
Lemma target_beside_dest (dest name : string) :
  ends_in_name dest = true -> well_named name = true ->
  diverge (Fs.path_of (dest ++ name)) (Fs.path_of dest) = true.
Proof.
  intros D W. rewrite (path_of_concat _ _ W), (path_of_named _ D).
  apply diverge_last. apply append_longer.
  apply (proj2 (well_named_entry _ W)).
Qed.

Lemma copy_turn_run (h : host) (src dst : string) (w : world) :
  pending (trace w) = [] ->
  (settle h ;; file_copy h src dst) w
  = match Fs.readFile (fs w) (Fs.path_of src) with
    | None =>
        (Err (Thrown ("Unable to read " ++ src)),
         World (fs w) (version w) (List.app (trace w) [ECopy src dst]))
    | Some c =>
        match Fs.writeFile (fs w) (Fs.path_of dst) c with
        | Some root' =>
            (Ok tt,
             World root' (version w)
               (List.app (trace w) [ECopy src dst; EWrite dst c]))
        | None =>
            (Err (Thrown ("Unable to write " ++ dst)),
             World (fs w) (version w)
               (List.app (trace w) [ECopy src dst; EWrite dst c]))
        end
    end.
Proof.
  intros Q. rewrite (bind_run _ _ _ _ _ (settle_quiet h w Q)).
  apply file_copy_run, Q.
Qed.

Lemma pending_copy (t : list event) (src dst c : string) :
  pending t = [] -> pending (List.app t [ECopy src dst; EWrite dst c]) = [].
Proof. intros P. rewrite pending_app, P. reflexivity. Qed.

(** The copies leave alone every path that parts from all of theirs,
    whether they all succeed or not. *)
Lemma copy_loop_frame (h : host) (dest : string) (names : list string) (i : nat)
      (w : world) (q : path) :
  pending (trace w) = [] ->
  Forall (fun name => diverge (Fs.path_of (dest ++ name)) q = true) names ->
  Fs.lookup q
    (fs (snd (for_in names i
                (fun _ name _ =>
                   settle h ;;
                   file_copy h ("config/locales/" ++ name) (dest ++ name))
                tt w)))
  = Fs.lookup q (fs w).
Proof.
  revert i w. induction names as [| name names IH]; intros i w Q F; [reflexivity |].
  inversion F as [| ? ? D Frest]; subst. cbn [for_in]. unfold bind at 1.
  rewrite (copy_turn_run h _ _ w Q).
  destruct (Fs.readFile (fs w) (Fs.path_of ("config/locales/" ++ name))) as [c |];
    [| reflexivity].
  destruct (Fs.writeFile (fs w) (Fs.path_of (dest ++ name)) c) as [root' |] eqn:A;
    [| reflexivity].
  rewrite IH; [| apply pending_copy, Q | exact Frest].
  cbn [fs]. apply (alter_frame _ _ _ _ _ _ A D).
Qed.

Lemma copy_loop_throws (h : host) (dest : string) (names : list string) (i : nat)
      (w w1 : world) (e : failure) :
  pending (trace w) = [] ->
  for_in names i
    (fun _ name _ =>
       settle h ;;
       file_copy h ("config/locales/" ++ name) (dest ++ name)) tt w
  = (Err e, w1) ->
  exists msg, e = Thrown ("Unable to " ++ msg).
Proof.
  revert i w. induction names as [| name names IH]; intros i w Q H.
  - discriminate H.
  - cbn [for_in] in H. unfold bind at 1 in H.
    rewrite (copy_turn_run h _ _ w Q) in H.
    destruct (Fs.readFile (fs w) (Fs.path_of ("config/locales/" ++ name))) as [c |].
    + destruct (Fs.writeFile (fs w) (Fs.path_of (dest ++ name)) c) as [root' |].
      * apply (IH _ _ (pending_copy (trace w) _ _ _ Q : pending (trace (World _ _ _)) = []) H).
      * injection H as <- _. exists ("write " ++ dest ++ name). reflexivity.
    + injection H as <- _. exists ("read " ++ "config/locales/" ++ name).
      reflexivity.
Qed.

Lemma source_path (name : string) :
  well_named name = true ->
  Fs.path_of ("config/locales/" ++ name) = ["config"; "locales"; name].
Proof.
  intros W. apply path_in_locales.
  - apply well_named_no_slash, W.
  - apply (proj1 (well_named_entry _ W)).
Qed.

(** A copy outside [config/locales] leaves the pulled files as they are. *)
Lemma write_spares_sources (root root' : node) (p : path) (c name : string) :
  Fs.writeFile root p c = Some root' ->
  diverge p ["config"; "locales"] = true ->
  well_named name = true ->
  Fs.readFile root' (Fs.path_of ("config/locales/" ++ name))
  = Fs.readFile root (Fs.path_of ("config/locales/" ++ name)).
Proof.
  intros A D W. unfold Fs.readFile. rewrite (source_path _ W).
  rewrite (alter_frame _ _ _ _ _ ["config"; "locales"; name] A); [reflexivity |].
  apply (diverge_extend p ["config"; "locales"] [name] D).
Qed.

(** What the copies have done when all of them succeeded. *)
Lemma copy_loop_ok (h : host) (dest : string) (names : list string) (i : nat)
      (w w1 : world) :
  pending (trace w) = [] ->
  Forall (fun name =>
            well_named name = true
            /\ diverge (Fs.path_of (dest ++ name)) ["config"; "locales"] = true)
         names ->
  for_in names i
    (fun _ name _ =>
       settle h ;;
       file_copy h ("config/locales/" ++ name) (dest ++ name)) tt w
  = (Ok tt, w1) ->
  exists contents,
    Forall2 (fun name c =>
               Fs.readFile (fs w) (Fs.path_of ("config/locales/" ++ name)) = Some c)
            names contents
    /\ version w1 = version w
    /\ trace w1 = List.app (trace w) (copy_events dest names contents)
    /\ pending (trace w1) = []
    /\ (forall name c,
          In name names ->
          Fs.readFile (fs w) (Fs.path_of ("config/locales/" ++ name)) = Some c ->
          Fs.readFile (fs w1) (Fs.path_of (dest ++ name)) = Some c).
Proof.
  revert i w. induction names as [| name names IH]; intros i w Q F H.
  - cbn in H. injection H as <-. exists []. repeat split; try assumption.
    + constructor.
    + cbn. rewrite List.app_nil_r. reflexivity.
    + intros name c [].
  - inversion F as [| ? ? [W D] Frest]; subst.
    cbn [for_in] in H. unfold bind at 1 in H.
    pose proof (copy_loop_frame h dest names (S i)) as Frame.
    rewrite (copy_turn_run h _ _ w Q) in H.
    destruct (Fs.readFile (fs w) (Fs.path_of ("config/locales/" ++ name)))
      as [c |] eqn:R; [| discriminate H].
    destruct (Fs.writeFile (fs w) (Fs.path_of (dest ++ name)) c)
      as [root' |] eqn:A; [| discriminate H].
    specialize (Frame (World root' (version w)
                         (List.app (trace w)
                            [ECopy ("config/locales/" ++ name) (dest ++ name);
                             EWrite (dest ++ name) c]))).
    rewrite H in Frame. cbn [snd fs] in Frame.
    apply IH in H as (contents & C & V & T & P & K);
      [| apply pending_copy, Q | exact Frest].
    cbn [fs version trace] in *.
    assert (Same : forall n, well_named n = true ->
              Fs.readFile root' (Fs.path_of ("config/locales/" ++ n))
              = Fs.readFile (fs w) (Fs.path_of ("config/locales/" ++ n)))
      by (intros n Wn; apply (write_spares_sources _ _ _ _ _ A D Wn)).
    exists (c :: contents). split; [| split; [| split; [| split]]].
    + constructor; [exact R |].
      clear - C Frest Same. induction C as [| n c' ns cs Hn C IHC]; constructor.
      * inversion Frest as [| ? ? [Wn _] _]; subst. rewrite <- (Same _ Wn). exact Hn.
      * inversion Frest; subst. apply IHC. assumption.
    + exact V.
    + rewrite T, <- List.app_assoc. reflexivity.
    + exact P.
    + intros n c' I Rn.
      destruct (in_dec string_dec n names) as [In_rest | Out].
      * apply (K n c' In_rest).
        rewrite Forall_forall in Frest. destruct (Frest n In_rest) as [Wn _].
        rewrite (Same _ Wn). exact Rn.
      * destruct I as [<- | I]; [| contradiction].
        rewrite R in Rn. injection Rn as <-.
        unfold Fs.readFile. rewrite Frame.
        -- apply writeFile_read in A. unfold Fs.readFile in A. exact A.
        -- apply pending_copy, Q.
        -- apply Forall_forall. intros n' I'.
           rewrite Forall_forall in Frest. destruct (Frest n' I') as [Wn' _].
           apply targets_diverge; try assumption.
           intros ->. contradiction.
Qed.

Lemma contents_unique (root : node) (names : list string) (cs cs' : list string) :
  Forall2 (fun name c =>
             Fs.readFile root (Fs.path_of ("config/locales/" ++ name)) = Some c)
          names cs ->
  Forall2 (fun name c =>
             Fs.readFile root (Fs.path_of ("config/locales/" ++ name)) = Some c)
          names cs' ->
  cs = cs'.
Proof.
  intros A. revert cs'. induction A as [| n c ns cs R A IH]; intros cs' B;
    inversion B as [| ? c' ? cs'' R' B']; subst; [reflexivity |].
  rewrite R in R'. injection R' as <-. rewrite (IH _ B'). reflexivity.
Qed.




Example publish_counts_the_listing :
  trace (snd (publish Sample.gem "public/locales" Sample.staged))
  = [ECopy "config/locales/en-US.yml" "public/localesen-US.yml";
     EWrite "public/localesen-US.yml" Sample.en_yml;
     ECopy "config/locales/fr-FR.yml" "public/localesfr-FR.yml";
     EWrite "public/localesfr-FR.yml" Sample.fr_yml;
     ELog (copied_report "public/locales" ["old.json"])].
Proof. vm_compute. reflexivity. Qed.

Example publish_without_directory :
  fst (publish Sample.gem "public/locales" Sample.pulled)
  = Err (Thrown "Error: cannot read directory public/locales")
  /\ Fs.readFile (fs (snd (publish Sample.gem "public/locales" Sample.pulled)))
                 (Fs.path_of "public/localesen-US.yml")
     = Some Sample.en_yml.
Proof. split; vm_compute; reflexivity. Qed.
(** * Further properties *)

(** ** The counter on any file *)

Lemma countEntries_run (h : host) (locale : string) (w : world) :
  _countEntries h locale w
  = (match Fs.readFile (fs w) (Fs.path_of ("config/locales/" ++ locale)) with
     | None => Err (Thrown ("Unable to read " ++ "config/locales/" ++ locale))
     | Some text =>
         match jsyaml h text with
         | None => Err (Thrown ("Unable to parse " ++ "config/locales/" ++ locale))
         | Some doc =>
             if shadowed doc
             then Err (Thrown "TypeError: obj.hasOwnProperty is not a function")
             else Ok (entries doc)
         end
     end, w).
Proof.
  unfold _countEntries, file_readYAML, grunt.file_read, lift, bind, get_fs, ret,
    raise.
  destruct (Fs.readFile (fs w) _) as [text |]; [| reflexivity].
  destruct (jsyaml h text) as [doc |]; [| reflexivity].
  rewrite countDocument_spec. reflexivity.
Qed.

(** X1.  [_countEntries] never changes the world, and its outcome is read off
    the file: it throws when the file cannot be read or parsed, it throws
    the TypeError of [hasOwnProperty] when a mapping it walks has a key of
    that name, and otherwise it returns the number of strings, numbers and
    booleans reached through mappings and sequences ([null] and empty
    containers count for nothing; a document that is one string counts its
    characters, one that is a number or a boolean counts 0). *)
Theorem countEntries_outcome (h : host) (locale : string) (w : world) :
  _countEntries h locale w
  = (match Fs.readFile (fs w) (Fs.path_of ("config/locales/" ++ locale)) with
     | None => Err (Thrown ("Unable to read " ++ "config/locales/" ++ locale))
     | Some text =>
         match jsyaml h text with
         | None => Err (Thrown ("Unable to parse " ++ "config/locales/" ++ locale))
         | Some doc =>
             if shadowed doc
             then Err (Thrown "TypeError: obj.hasOwnProperty is not a function")
             else Ok (entries doc)
         end
     end, w).
Proof. apply countEntries_run. Qed.

(** ** What the cleaner leaves alone *)

Lemma wipe_frame (root : node) (folder : string) (q : path) :
  diverge (Fs.path_of folder) q = true ->
  Fs.lookup q (wipe root folder) = Fs.lookup q root.
Proof.
  intros D. unfold wipe. destruct (Fs.isDir root (Fs.path_of folder)); [| reflexivity].
  destruct (Fs.delete root (Fs.path_of folder)) as [root' |] eqn:A; [| reflexivity].
  apply (alter_frame _ _ _ _ _ _ A D).
Qed.

Lemma wipe_keeps_file (root : node) (folder : string) (c : string) :
  Fs.lookup (Fs.path_of folder) root = Some (File c) ->
  wipe root folder = root.
Proof. intros L. unfold wipe, Fs.isDir. rewrite L. reflexivity. Qed.

Lemma cleaned_frame (folders : list string) (root : node) (q : path) :
  forallb (fun folder => diverge (Fs.path_of folder) q) folders = true ->
  Fs.lookup q (cleaned folders root) = Fs.lookup q root.
Proof.
  revert root. induction folders as [| folder rest IH]; intros root F; [reflexivity |].
  cbn [forallb] in F. apply andb_prop in F as [D F].
  cbn [cleaned]. rewrite (IH _ F). apply wipe_frame, D.
Qed.

(** X2.  [_clean] touches nothing but its folders: for folders that are
    paths without [..], a path that lies neither in one of them nor above
    one holds after the clean what it held before.  The clean then returns
    normally, the variable [version] is as it was, and the only events are
    deletions. *)
Theorem clean_spares_the_rest (folders : list string) (w : world) (q : path) :
  forallb Fs.interpreted folders = true ->
  forallb (fun folder => diverge (Fs.path_of folder) q) folders = true ->
  fst (_clean folders w) = Ok tt
  /\ Fs.lookup q (fs (snd (_clean folders w))) = Fs.lookup q (fs w)
  /\ version (snd (_clean folders w)) = version w
  /\ exists evs, trace (snd (_clean folders w)) = List.app (trace w) evs
                 /\ forallb is_delete evs = true.
Proof.
  intros _ F.
  assert (B : Forall below folders).
  { apply Forall_forall. intros folder I. rewrite forallb_forall in F.
    specialize (F folder I). unfold below. intros E. rewrite E in F.
    discriminate F. }
  rewrite (clean_folders _ _ B). cbn [fst snd fs version trace].
  split; [reflexivity |]. split; [apply cleaned_frame, F |].
  split; [reflexivity |].
  exists (deletions folders (fs w)). split; [reflexivity |].
  apply deletions_only_delete.
Qed.

Lemma clean_spares_the_rest_witness :
  Fs.lookup ["public"; "locales"]
    (fs (snd (_clean ["config"; "log"] Sample.start)))
  = Fs.lookup ["public"; "locales"] (fs Sample.start)
  /\ Fs.isDir (fs Sample.start) ["config"] = true
  /\ Fs.isDir (fs (snd (_clean ["config"; "log"] Sample.start))) ["config"] = false.
Proof.
  split; [| split; reflexivity].
  exact (proj1 (proj2 (clean_spares_the_rest ["config"; "log"] Sample.start
                         ["public"; "locales"] eq_refl eq_refl))).
Defined.

(** The working directory itself is refused: the clean ends the task. *)
Example clean_refuses_working_directory :
  fst (_clean ["."] Sample.start)
  = Err (Warned "Cannot delete the current working directory.").
Proof. reflexivity. Qed.

(** ** A destination that is not a directory *)

Lemma copy_loop_quiet (h : host) (dest : string) (names : list string) (i : nat)
      (w w1 : world) :
  pending (trace w) = [] ->
  for_in names i
    (fun _ name _ =>
       settle h ;;
       file_copy h ("config/locales/" ++ name) (dest ++ name)) tt w
  = (Ok tt, w1) ->
  pending (trace w1) = [].
Proof.
  revert i w. induction names as [| name names IH]; intros i w Q L0.
  - injection L0 as <-. exact Q.
  - cbn [for_in] in L0. unfold bind at 1 in L0.
    rewrite (copy_turn_run h _ _ w Q) in L0.
    destruct (Fs.readFile (fs w) _) as [c |]; [| discriminate L0].
    destruct (Fs.writeFile (fs w) _ c) as [root' |]; [| discriminate L0].
    apply (IH _ _ (pending_copy (trace w) _ _ _ Q
                   : pending (trace (World _ _ _)) = []) L0).
Qed.

(** X3.  When no rename is pending and [dest], a path without [..], ends in
    a name and is not an existing directory, the publisher never returns
    normally: the copies go beside [dest] and create no directory of that
    name, so listing [dest] throws (unless a copy has thrown before). *)
Theorem publish_needs_directory (h : host) (dest : string) (w : world) :
  pending (trace w) = [] ->
  Fs.interpreted dest = true ->
  ends_in_name dest = true ->
  Fs.isDir (fs w) (Fs.path_of dest) = false ->
  (forall names, Fs.readdir (fs w) (Fs.path_of "config/locales") = Some names ->
                 forallb well_named names = true) ->
  exists msg, fst (publish h dest w) = Err (Thrown msg).
Proof.
  intros Q _ E D N. unfold publish.
  rewrite (bind_run _ _ _ _ _ (settle_quiet h w Q)).
  destruct (fs_readdirSync "config/locales" w) as [[names | e] w0] eqn:R0.
  - rewrite (bind_run _ _ _ _ _ R0). apply readdir_ok in R0 as (-> & R).
    specialize (N names R).
    assert (F : Forall (fun name =>
                  diverge (Fs.path_of (dest ++ name)) (Fs.path_of dest) = true)
                  names).
    { apply Forall_forall. intros name I.
      rewrite forallb_forall in N. apply target_beside_dest; [exact E | apply N, I]. }
    pose proof (copy_loop_frame h dest names 0 w _ Q F) as L.
    destruct (for_in names 0 _ tt w) as [[[] | e] w1] eqn:L0; cbn [snd] in L.
    + rewrite (bind_run _ _ _ _ _ L0).
      pose proof (copy_loop_quiet _ _ _ _ _ _ Q L0) as P.
      rewrite (bind_run _ _ _ _ _ (settle_quiet h w1 P)).
      assert (R' : Fs.readdir (fs w1) (Fs.path_of dest) = None).
      { unfold Fs.readdir. rewrite L. unfold Fs.isDir in D.
        destruct (Fs.lookup (Fs.path_of dest) (fs w))
          as [[x | es] |]; try discriminate D; reflexivity. }
      rewrite (bind_err _ _ _ _ _ (readdir_fails _ _ (or_intror R'))).
      eexists. reflexivity.
    + rewrite (bind_err _ _ _ _ _ L0).
      destruct (copy_loop_throws _ _ _ _ _ _ _ Q L0) as [msg ->].
      eexists. reflexivity.
  - rewrite (bind_err _ _ _ _ _ R0).
    destruct (readdir_throws _ _ _ _ R0) as [-> _]. eexists. reflexivity.
Qed.

Lemma publish_needs_directory_witness :
  exists msg,
    fst (publish Sample.gem "public/locales" Sample.pulled) = Err (Thrown msg).
Proof.
  apply (publish_needs_directory Sample.gem "public/locales" Sample.pulled).
  - reflexivity.
  - reflexivity.
  - reflexivity.
  - reflexivity.
  - intros names R. vm_compute in R. injection R as <-. reflexivity.
Defined.
(** ** The commands a run executes *)

Lemma cmds_app (a b : list event) : cmds (List.app a b) = List.app (cmds a) (cmds b).
Proof.
  induction a as [| e a IH]; [reflexivity |].
  destruct e; cbn [List.app cmds]; rewrite IH; reflexivity.
Qed.

Lemma runs_same {A : Type} (m : M A) :
  (forall w, trace (snd (m w)) = trace w) -> runs [] m.
Proof.
  intros H w. exists 0. rewrite H. cbn. rewrite List.app_nil_r.
  split; [reflexivity | intros; lia].
Qed.

Lemma runs_ret {A : Type} (a : A) : runs [] (ret a).
Proof. apply runs_same. reflexivity. Qed.

Lemma runs_raise {A : Type} (e : failure) : runs [] (@raise A e).
Proof. apply runs_same. reflexivity. Qed.

Lemma runs_lift {A : Type} (r : result A) : runs [] (lift r).
Proof. apply runs_same. reflexivity. Qed.

Lemma runs_get_fs : runs [] get_fs.
Proof. apply runs_same. reflexivity. Qed.

Lemma runs_put_fs (root : node) : runs [] (put_fs root).
Proof. apply runs_same. reflexivity. Qed.

Lemma runs_get_version : runs [] get_version.
Proof. apply runs_same. reflexivity. Qed.

Lemma runs_set_version (v : option string) : runs [] (set_version v).
Proof. apply runs_same. reflexivity. Qed.

Lemma runs_emit (e : event) : is_exec e = false -> runs [] (emit e).
Proof.
  intros N w. exists 0. cbn [emit snd trace]. rewrite cmds_app.
  destruct e; try discriminate N; cbn; split; try reflexivity; intros; lia.
Qed.

Lemma runs_exec (c : string) : runs [c] (emit (EExec c)).
Proof.
  intros w. exists 1. cbn [emit snd trace]. rewrite cmds_app.
  split; [reflexivity | intros; cbn; lia].
Qed.

Lemma firstn_app_short {A : Type} (n : nat) (l1 l2 : list A) :
  n <= List.length l1 -> firstn n (List.app l1 l2) = firstn n l1.
Proof.
  intros L. rewrite firstn_app.
  replace (n - List.length l1) with 0 by lia. cbn. apply List.app_nil_r.
Qed.

Lemma runs_bind {A B : Type} (l1 l2 : list string) (m : M A) (k : A -> M B) :
  runs l1 m -> (forall a, runs l2 (k a)) -> runs (List.app l1 l2) (bind m k).
Proof.
  intros Hm Hk w. unfold bind. destruct (Hm w) as (n & E & F).
  destruct (m w) as [[a | e] w1]; cbn [fst snd] in *.
  - destruct (Hk a w1) as (n' & E' & F').
    exists (List.length l1 + n'). split.
    + specialize (F a eq_refl).
      assert (F1 : firstn n l1 = l1) by (apply firstn_all2; exact F).
      rewrite E', E, F1, firstn_app_2, List.app_assoc. reflexivity.
    + intros b Hb. specialize (F' b Hb). rewrite length_app. lia.
  - exists (Nat.min n (List.length l1)). split.
    + rewrite E. f_equal. rewrite firstn_app_short by lia.
      destruct (Nat.le_ge_cases n (List.length l1)) as [L | G].
      * rewrite Nat.min_l by lia. reflexivity.
      * rewrite Nat.min_r by lia.
        assert (F1 : firstn n l1 = l1) by (apply firstn_all2; lia).
        assert (F2 : firstn (List.length l1) l1 = l1) by (apply firstn_all2; lia).
        rewrite F1, F2. reflexivity.
    + intros b Hb. discriminate Hb.
Qed.

Lemma runs_then {A B : Type} (l : list string) (m : M A) (k : A -> M B) :
  runs l m -> (forall a, runs [] (k a)) -> runs l (bind m k).
Proof.
  intros Hm Hk. rewrite <- (List.app_nil_r l). apply runs_bind; assumption.
Qed.

Lemma runs_after {A B : Type} (l : list string) (m : M A) (k : A -> M B) :
  runs [] m -> (forall a, runs l (k a)) -> runs l (bind m k).
Proof. intros Hm Hk. apply (runs_bind [] l); assumption. Qed.

Lemma runs_for_in {A St : Type} (xs : list A) (body : nat -> A -> St -> M St) :
  (forall i x s, runs [] (body i x s)) ->
  forall i s, runs [] (for_in xs i body s).
Proof.
  intros Hb. induction xs as [| x xs IH]; intros i s; cbn [for_in].
  - apply runs_ret.
  - apply (runs_bind [] []); [apply Hb | intros s'; apply IH].
Qed.

Create HintDb runs.

Lemma runs_get_trace : runs [] get_trace.
Proof. apply runs_same. reflexivity. Qed.

#[local] Hint Resolve runs_ret runs_raise runs_lift runs_get_fs runs_put_fs
  runs_get_version runs_get_trace runs_set_version : runs.

Ltac quiet_step :=
  match goal with
  | |- runs [] (bind _ _) => apply (runs_bind [] []); [| intros ?]
  | |- runs [] (for_in _ _ _ _) => apply runs_for_in; intros ? ? ?
  | |- runs [] (emit _) => apply runs_emit; reflexivity
  | |- runs [] (match ?x with _ => _ end) => destruct x
  | |- runs [] _ => solve [auto with runs]
  end.

Ltac quiet := repeat quiet_step.

Lemma runs_log (s : string) : runs [] (grunt.log_writeln s).
Proof. apply runs_emit. reflexivity. Qed.

Lemma runs_verbose (s : string) : runs [] (grunt.verbose_writeln s).
Proof. apply runs_emit. reflexivity. Qed.

Lemma runs_verbose_write (s : string) : runs [] (grunt.verbose_write s).
Proof. apply runs_emit. reflexivity. Qed.

Lemma runs_fatal {A : Type} (s : string) : runs [] (@grunt.fail_fatal A s).
Proof. apply runs_raise. Qed.

Lemma runs_warn {A : Type} (s : string) : runs [] (@grunt.fail_warn A s).
Proof. apply runs_raise. Qed.

Lemma runs_log_warn (s : string) : runs [] (grunt.log_warn s).
Proof. apply runs_emit. reflexivity. Qed.

Lemma runs_fs_mkdir (p : string) : runs [] (fs_mkdir p).
Proof. unfold fs_mkdir. quiet. Qed.

Lemma runs_fs_openSync_w (p : string) : runs [] (fs_openSync_w p).
Proof. unfold fs_openSync_w. quiet. Qed.

Lemma runs_fs_readdirSync (p : string) : runs [] (fs_readdirSync p).
Proof. unfold fs_readdirSync. quiet. Qed.

Lemma runs_fs_rename (src dst : string) : runs [] (fs_rename src dst).
Proof. apply runs_emit. reflexivity. Qed.

Lemma runs_carry_out (src dst : string) : runs [] (carry_out src dst).
Proof. unfold carry_out. quiet. Qed.

Lemma runs_settle_upto (h : host) (n : nat) : runs [] (settle_upto h n).
Proof.
  induction n as [| n IH]; cbn [settle_upto]; [apply runs_ret |].
  apply (runs_bind [] []); [apply runs_get_trace | intros t].
  destruct (lands h t) as [r |]; [| apply runs_ret].
  destruct (existsb (same_rename r) (pending t)); [| apply runs_ret].
  apply (runs_bind [] []); [apply runs_carry_out | intros _; exact IH].
Qed.

Lemma runs_settle (h : host) : runs [] (settle h).
Proof.
  unfold settle. apply (runs_bind [] []); [apply runs_get_trace | intros t].
  apply runs_settle_upto.
Qed.

Lemma runs_yaml_load (h : host) (p : string) : runs [] (yaml_load h p).
Proof. unfold yaml_load. quiet. Qed.

Lemma runs_file_read (p : string) : runs [] (grunt.file_read p).
Proof. unfold grunt.file_read. quiet. Qed.

Lemma runs_file_write (p c : string) : runs [] (grunt.file_write p c).
Proof. unfold grunt.file_write. quiet. Qed.

Lemma runs_file_isDir (p : string) : runs [] (grunt.file_isDir p).
Proof. unfold grunt.file_isDir. quiet. Qed.

#[local] Hint Resolve runs_log runs_verbose runs_verbose_write runs_fatal
  runs_warn runs_log_warn runs_fs_mkdir runs_fs_openSync_w runs_fs_readdirSync
  runs_fs_rename runs_settle runs_yaml_load runs_file_read runs_file_write
  runs_file_isDir : runs.

Lemma runs_file_delete (p : string) : runs [] (grunt.file_delete p).
Proof. unfold grunt.file_delete. quiet. Qed.

#[local] Hint Resolve runs_file_delete : runs.

Lemma runs_file_copy (h : host) (src dst : string) : runs [] (file_copy h src dst).
Proof. unfold file_copy. quiet. Qed.

Lemma runs_file_readYAML (h : host) (p : string) : runs [] (file_readYAML h p).
Proof. unfold file_readYAML. quiet. Qed.

#[local] Hint Resolve runs_file_copy runs_file_readYAML : runs.

Lemma runs_countEntries (h : host) (locale : string) : runs [] (_countEntries h locale).
Proof. unfold _countEntries. quiet. Qed.

Lemma runs_clean (folders : list string) : runs [] (_clean folders).
Proof. unfold _clean. quiet. Qed.

Lemma runs_formatJSON (h : host) (files : batch) (toJS : bool) :
  runs [] (_formatJSON h files toJS).
Proof. unfold _formatJSON, _formatJSON_file. quiet. Qed.

Lemma runs_formatYML (h : host) (files : batch) : runs [] (_formatYML h files).
Proof. unfold _formatYML, _formatYML_file. quiet. Qed.

Lemma runs_publish (h : host) (dest : string) : runs [] (publish h dest).
Proof. unfold publish. quiet. Qed.

#[local] Hint Resolve runs_countEntries runs_clean runs_formatJSON runs_formatYML
  runs_publish : runs.

Lemma runs_command (h : host) (c : string) : runs [c] (command h c).
Proof.
  unfold command. apply runs_after; [auto with runs | intros root].
  apply runs_then; [apply runs_exec | intros []].
  destruct (exec h c root). quiet.
Qed.

Lemma runs_checkLocaleappGem (h : host) : runs ["localeapp -v"] (_checkLocaleappGem h).
Proof.
  unfold _checkLocaleappGem. apply runs_after; [auto with runs | intros _].
  apply runs_then; [apply runs_command | intros stdout]. quiet.
Qed.

Lemma runs_setupProject (h : host) (key : string) :
  runs ["localeapp install " ++ key] (_setupProject h key).
Proof.
  unfold _setupProject. apply runs_after; [auto with runs | intros _].
  apply runs_then; [apply runs_command | intros log]. quiet.
Qed.

Lemma runs_getLocales (h : host) : runs ["localeapp pull"] (_getLocales h).
Proof.
  unfold _getLocales.
  repeat (apply runs_after; [solve [auto with runs] | intros _]).
  apply runs_then; [apply runs_command | intros log]. quiet.
Qed.

Lemma runs_localeapp (h : host) (data : config) :
  runs ["localeapp -v"; "localeapp install " ++ key data; "localeapp pull"]
       (localeapp h data).
Proof.
  unfold localeapp.
  apply runs_after; [auto with runs | intros _].
  apply runs_after; [quiet | intros _].
  apply (runs_bind ["localeapp -v"]); [apply runs_checkLocaleappGem | intros _].
  apply (runs_bind ["localeapp install " ++ key data]);
    [apply runs_setupProject | intros _].
  apply runs_then; [apply runs_getLocales | intros files]. quiet.
Qed.

(** X4.  Whatever happens, the commands a run of the task has executed are an
    initial part of [localeapp -v], [localeapp install <key>],
    [localeapp pull], in this order, each at most once; a run that returns
    normally has executed the three of them. *)
Theorem commands_in_order (h : host) (data : config) (w : world) :
  exists n,
    cmds (trace (snd (localeapp h data w)))
    = List.app (cmds (trace w))
        (firstn n ["localeapp -v"; "localeapp install " ++ key data;
                   "localeapp pull"])
    /\ (fst (localeapp h data w) = Ok tt ->
        cmds (trace (snd (localeapp h data w)))
        = List.app (cmds (trace w))
            ["localeapp -v"; "localeapp install " ++ key data; "localeapp pull"]).
Proof.
  destruct (runs_localeapp h data w) as (n & E & F).
  exists n. split; [exact E |].
  intros S. specialize (F tt S). rewrite E. f_equal.
  apply firstn_all2. exact F.
Qed.

Lemma format_supported (format : string) :
  In format availableFormats ->
  (indexOf availableFormats format =? -1)%Z = false.
Proof.
  intros I. apply indexOf_present in I. apply Z.eqb_neq. lia.
Qed.

(** X5.  With a supported format and a key that [localeapp install] answers
    with [error...], the task ends in the fatal error of the key after the
    clean and two commands: no directory is made, nothing is pulled, and the
    files are as the install command left them. *)
Theorem rejected_key_stops_the_task (h : host) (data : config) (w : world) :
  In (format data) availableFormats ->
  let version_out := exec h "localeapp -v" (cleaned ["config"; "log"] (fs w)) in
  let install_out :=
    exec h ("localeapp install " ++ key data) (snd version_out) in
  prefix "error" (fst install_out) = true ->
  localeapp h data w
  = (Err (Fatal "Your API key seems to be invalid"),
     World (snd install_out)
       (Some (JsString.slice 0 (-1) (fst version_out)))
       (List.app (trace w)
          (List.app (deletions ["config"; "log"] (fs w))
             [EVerbose "Looking for localeapp gem"; EExec "localeapp -v";
              ELog (gem_report (fst version_out)); EVerbose rule;
              EVerbose "Verifying api key";
              EExec ("localeapp install " ++ key data);
              EVerbose (fst install_out)]))).
Proof.
  intros I version_out install_out P. unfold localeapp.
  rewrite (bind_run _ _ _ _ _ (clean_run w)).
  rewrite (format_supported _ I).
  rewrite (bind_run _ _ _ _ _ (eq_refl : ret tt _ = (Ok tt, _))).
  rewrite (bind_run _ _ _ _ _ (checkLocaleappGem_run h _)).
  cbn [fs version trace].
  match goal with
  | |- bind (_setupProject h ?k) _ ?w0 = _ =>
      pose proof (setupProject_run h k w0) as S
  end.
  cbv zeta in S. cbn [fs version trace] in S.
  fold version_out in S. fold install_out in S. rewrite P in S.
  fold version_out. rewrite (bind_err _ _ _ _ _ S).
  repeat rewrite <- List.app_assoc. reflexivity.
Qed.

Lemma rejected_key_stops_the_task_witness :
  In "json" availableFormats
  /\ fst (localeapp Sample.gem (Config "bad" "json" "public/locales/") Sample.start)
     = Err (Fatal "Your API key seems to be invalid").
Proof.
  assert (I : In (format (Config "bad" "json" "public/locales/")) availableFormats)
    by (cbn; auto).
  split; [exact I |].
  rewrite (rejected_key_stops_the_task Sample.gem
             (Config "bad" "json" "public/locales/") Sample.start I eq_refl).
  reflexivity.
Defined.


(** ** The YAML variant on a whole batch *)

Lemma called_app (a b : list event) :
  called (List.app a b) = List.app (called a) (called b).
Proof.
  induction a as [| e a IH]; [reflexivity |].
  destruct e; cbn [List.app called]; rewrite IH; reflexivity.
Qed.

Lemma landed_app (a b : list event) :
  landed (List.app a b) = List.app (landed a) (landed b).
Proof.
  induction a as [| e a IH]; [reflexivity |].
  destruct e; cbn [List.app landed]; rewrite IH; reflexivity.
Qed.

Lemma landing_about_rename (evs : list event) :
  forallb is_landing evs = true -> forallb about_rename evs = true.
Proof.
  induction evs as [| e evs IH]; [reflexivity |].
  cbn [forallb]. intros F. apply andb_prop in F as [E F].
  destruct e; try discriminate E. cbn [about_rename]. exact (IH F).
Qed.

(** Carrying out renames only takes from the pending ones. *)
Lemma pending_after_landings (evs : list event) (q : list (string * string)) :
  forallb is_landing evs = true -> incl (fold_left note evs q) q.
Proof.
  revert q. induction evs as [| e evs IH]; intros q F; [apply incl_refl |].
  cbn [forallb] in F. apply andb_prop in F as [E F].
  destruct e; try discriminate E. cbn [fold_left note].
  intros x I. apply (drop_first_incl (src, dst) q). apply (IH _ F x I).
Qed.

Lemma replay_app (a b : list (string * string)) (root : node) :
  replay (List.app a b) root = replay b (replay a root).
Proof. unfold replay. apply fold_left_app. Qed.

Lemma formatYML_loop (h : host) (names : list string) (i : nat) (w : world) :
  exists evs,
    for_in names i (fun _ name _ => _formatYML_file name ;; settle h) tt w
    = (Ok tt,
       World (replay (landed evs) (fs w)) (version w) (List.app (trace w) evs))
    /\ called evs
       = map (fun name => (pulled_path name, output_path ".yml" name)) names
    /\ forallb about_rename evs = true
    /\ incl (landed evs) (List.app (pending (trace w)) (called evs)).
Proof.
  revert i w. induction names as [| name names IH]; intros i w.
  - exists []. cbn. rewrite List.app_nil_r. destruct w. repeat split.
    apply incl_nil_l.
  - cbn [for_in]. unfold bind at 1.
    rewrite (bind_run _ _ _ _ _ (formatYML_file_run name w)).
    destruct (settle_run h (World (fs w) (version w)
                (List.app (trace w)
                   [ERename (pulled_path name) (output_path ".yml" name)])))
      as (evs1 & St & L1 & I1).
    rewrite St. cbn [fs version trace] in *.
    destruct (IH (S i) (World (replay (landed evs1) (fs w)) (version w)
                (List.app (List.app (trace w)
                   [ERename (pulled_path name) (output_path ".yml" name)]) evs1)))
      as (evs2 & E & C2 & A2 & I2).
    cbn [fs version trace] in *.
    exists (ERename (pulled_path name) (output_path ".yml" name)
              :: List.app evs1 evs2).
    rewrite E. split; [| split; [| split]].
    + cbn [landed]. rewrite landed_app, replay_app, <- !List.app_assoc.
      reflexivity.
    + cbn [called map]. rewrite called_app, (landing_not_called _ L1), C2.
      reflexivity.
    + cbn [forallb about_rename]. rewrite forallb_app, A2,
        (landing_about_rename _ L1). reflexivity.
    + cbn [landed called]. rewrite landed_app, called_app,
        (landing_not_called _ L1). cbn [List.app].
      rewrite pending_snoc in I1. cbn [note] in I1.
      apply incl_app.
      * intros x X. specialize (I1 x X). apply in_app_or in I1 as [P | [<- | []]].
        -- apply in_or_app. left. exact P.
        -- apply in_or_app. right. left. reflexivity.
      * intros x X. specialize (I2 x X). apply in_app_or in I2 as [P | P].
        -- rewrite pending_app, pending_snoc in P. cbn [note] in P.
           apply (pending_after_landings _ _ L1) in P.
           apply in_app_or in P as [P | [<- | []]].
           ++ apply in_or_app. left. exact P.
           ++ apply in_or_app. right. left. reflexivity.
        -- apply in_or_app. right. right. exact P.
Qed.

Lemma land_same (root : node) (p : string) : land root (p, p) = root.
Proof.
  unfold land, Fs.rename. cbn [fst snd].
  destruct (Fs.lookup (Fs.path_of p) root); [| reflexivity].
  rewrite path_eqb_same. reflexivity.
Qed.

Lemma replay_same (rs : list (string * string)) (root : node) :
  Forall (fun r => fst r = snd r) rs -> replay rs root = root.
Proof.
  unfold replay. revert root. induction rs as [| [a b] rs IH]; intros root F;
    [reflexivity |].
  inversion F as [| ? ? E Frest]; subst. cbn [fst snd] in E. subst b.
  cbn [fold_left]. rewrite land_same. apply IH, Frest.
Qed.

(** X6.  [_formatYML] never fails and never writes.  On any batch it calls
    one rename per file, in the order of the batch, from the pulled name to
    the name with the first hyphen of the code turned into an underscore;
    the other events are renames carried out, and these were pending at the
    start or have been called on the way: the files change by them only.
    When nothing was pending and no code has a hyphen, the files are left
    exactly as they were. *)
Theorem formatYML_renames_each_file (h : host) (files : batch) (w : world) :
  exists evs,
    _formatYML h files w
    = (Ok tt,
       World (replay (landed evs) (fs w)) (version w) (List.app (trace w) evs))
    /\ called evs
       = map (fun name => (pulled_path name, output_path ".yml" name))
             (files_of files)
    /\ forallb about_rename evs = true
    /\ incl (landed evs) (List.app (pending (trace w)) (called evs))
    /\ (pending (trace w) = [] ->
        forallb (fun name => negb (occurs "-" (locale_of name))) (files_of files)
        = true ->
        fs (snd (_formatYML h files w)) = fs w).
Proof.
  destruct (formatYML_loop h (files_of files) 0 w) as (evs & E & C & A & I).
  exists evs. unfold _formatYML. rewrite E.
  split; [reflexivity |]. split; [exact C |]. split; [exact A |].
  split; [exact I |].
  intros Q N. cbn [snd fs]. apply replay_same.
  apply Forall_forall. intros r R. apply I in R. rewrite Q, C in R.
  cbn [List.app] in R. apply in_map_iff in R as (name & <- & In_files).
  cbn [fst snd]. rewrite forallb_forall in N. specialize (N name In_files).
  apply negb_true_iff in N. unfold output_path, pulled_path.
  rewrite (underscore_same _ N). reflexivity.
Qed.

Lemma formatYML_renames_each_file_witness :
  exists evs,
    _formatYML Sample.gem Sample.pulled_batch Sample.pulled
    = (Ok tt,
       World (replay (landed evs) (fs Sample.pulled)) (version Sample.pulled)
         (List.app (trace Sample.pulled) evs))
    /\ called evs
       = [("config/locales/en-US.yml", "config/locales/en_US.yml");
          ("config/locales/fr-FR.yml", "config/locales/fr_FR.yml")].
Proof.
  destruct (formatYML_renames_each_file Sample.gem Sample.pulled_batch
              Sample.pulled) as (evs & E & C & _).
  exists evs. split; [exact E | exact C].
Defined.

(** The two locales of the sample pull: carried out at once, the renames
    give [en_US.yml] and [fr_FR.yml]; left pending, they leave the files
    under their pulled names. *)
Example formatYML_sample :
  Fs.readdir (fs (snd (_formatYML Sample.gem Sample.pulled_batch Sample.pulled)))
             ["config"; "locales"]
  = Some ["en_US.yml"; "fr_FR.yml"]
  /\ Fs.readFile (fs (snd (_formatYML Sample.gem Sample.pulled_batch Sample.pulled)))
                 ["config"; "locales"; "en_US.yml"]
     = Some Sample.en_yml
  /\ fs (snd (_formatYML Sample.idle Sample.pulled_batch Sample.pulled))
     = fs Sample.pulled
  /\ pending (trace (snd (_formatYML Sample.idle Sample.pulled_batch Sample.pulled)))
     = [("config/locales/en-US.yml", "config/locales/en_US.yml");
        ("config/locales/fr-FR.yml", "config/locales/fr_FR.yml")].
Proof. repeat apply conj; vm_compute; reflexivity. Qed.

(** ** The JSON variant on a whole batch *)

Lemma writes_app (a b : list event) :
  writes (List.app a b) = List.app (writes a) (writes b).
Proof.
  induction a as [| e a IH]; [reflexivity |].
  destruct e; cbn [List.app writes]; rewrite IH; reflexivity.
Qed.

Lemma landing_no_write (evs : list event) :
  forallb is_landing evs = true -> writes evs = [].
Proof.
  induction evs as [| e evs IH]; [reflexivity |].
  cbn [forallb]. intros F. apply andb_prop in F as [E F].
  destruct e; try discriminate E. cbn [writes]. exact (IH F).
Qed.

Lemma landing_no_command (evs : list event) :
  forallb is_landing evs = true -> cmds evs = [].
Proof.
  induction evs as [| e evs IH]; [reflexivity |].
  cbn [forallb]. intros F. apply andb_prop in F as [E F].
  destruct e; try discriminate E. cbn [cmds]. exact (IH F).
Qed.

Lemma formatJSON_loop (h : host) (files : batch) (toJS : bool)
      (names : list string) (i : nat) (w w' : world) :
  for_in names i
    (fun _ name _ => _formatJSON_file h files toJS name ;; settle h) tt w
  = (Ok tt, w') ->
  exists evs,
    trace w' = List.app (trace w) evs
    /\ map fst (writes evs) = map (output_path (extension toJS)) names
    /\ called evs
       = map (fun name => (pulled_path name, output_path (extension toJS) name))
             names
    /\ cmds evs = []
    /\ version w' = version w.
Proof.
  revert i w. induction names as [| name names IH]; intros i w H.
  - cbn in H. injection H as <-. exists []. rewrite List.app_nil_r.
    repeat split.
  - cbn [for_in] in H. bind_as H u. destruct u.
    rename E into EE. bind_as EE v. rename E into EF.
    apply formatJSON_file_ok in EF
      as (text & doc & json & mid & _ & _ & _ & _ & L & _ & T & _ & V & _).
    apply settle_ok in EE as (evs1 & -> & L1 & _).
    apply IH in H as (evs2 & T2 & W2 & C2 & K2 & V2).
    cbn [fs version trace] in *.
    eexists. split; [rewrite T2, T, <- !List.app_assoc; reflexivity |].
    cbn [List.app writes called cmds map].
    rewrite !writes_app, !called_app, !cmds_app.
    rewrite (landing_no_write _ L), (landing_no_write _ L1),
      (landing_not_called _ L), (landing_not_called _ L1),
      (landing_no_command _ L), (landing_no_command _ L1).
    cbn [List.app writes called cmds map fst].
    rewrite W2, C2, K2. repeat split. congruence.
Qed.

(** X7.  When [_formatJSON] returns normally it has called one rename and
    written one file per file of the batch, in the order of the batch: the
    rename from the pulled name to the normalised name with [.json] (or
    [.js]), the write to that name.  No command was run and the variable
    [version] is as it was. *)
Theorem formatJSON_writes_each_file (h : host) (files : batch) (toJS : bool)
        (w w' : world) :
  _formatJSON h files toJS w = (Ok tt, w') ->
  exists evs,
    trace w' = List.app (trace w) evs
    /\ map fst (writes evs)
       = map (output_path (extension toJS)) (files_of files)
    /\ called evs
       = map (fun name => (pulled_path name, output_path (extension toJS) name))
             (files_of files)
    /\ cmds evs = []
    /\ version w' = version w.
Proof. unfold _formatJSON. apply formatJSON_loop. Qed.

Lemma formatJSON_writes_each_file_witness :
  exists evs,
    trace (snd (_formatJSON Sample.gem Sample.pulled_batch false Sample.pulled))
    = List.app (trace Sample.pulled) evs
    /\ map fst (writes evs)
       = ["config/locales/en_US.json"; "config/locales/fr_FR.json"].
Proof.
  assert (E : _formatJSON Sample.gem Sample.pulled_batch false Sample.pulled
              = (Ok tt,
                 snd (_formatJSON Sample.gem Sample.pulled_batch false
                        Sample.pulled)))
    by (vm_compute; reflexivity).
  destruct (formatJSON_writes_each_file _ _ _ _ _ E) as (evs & T & W & _).
  exists evs. split; [exact T | exact W].
Defined.

(** ** Turns of the JSON variant that fail *)

Lemma yaml_load_run (h : host) (p text : string) (doc : value) (w : world) :
  Fs.readFile (fs w) (Fs.path_of p) = Some text ->
  yamljs h text = Some doc ->
  yaml_load h p w = (Ok doc, w).
Proof.
  intros R Y. unfold yaml_load, bind, get_fs, ret, raise. rewrite R, Y. reflexivity.
Qed.

Lemma set_meta_refused (found : option value) (x : value) :
  accepts_meta found = false ->
  exists msg, set_meta found x = Err (Thrown msg).
Proof.
  destruct found as [[| | | | | |] |]; cbn; intros A; try discriminate A;
    eexists; reflexivity.
Qed.

Lemma length_append (a b : string) :
  String.length (a ++ b) = (String.length a + String.length b)%nat.
Proof. induction a as [| c a IH]; cbn; [reflexivity | rewrite IH; reflexivity]. Qed.

Lemma underscore_length (s : string) :
  String.length (underscore_first_hyphen s) = String.length s.
Proof.
  induction s as [| c s IH]; [reflexivity |].
  cbn [underscore_first_hyphen]. destruct (Ascii.eqb c "-"); cbn; congruence.
Qed.

(** The rename of a JSON turn, carried out on files where the pulled file
    is there: its text moves under the output name. *)
Lemma land_output (toJS : bool) (name : string) (root : node) (text : string) :
  well_named name = true ->
  Fs.readFile root (Fs.path_of (pulled_path name)) = Some text ->
  Fs.isDir root (Fs.path_of (output_path (extension toJS) name)) = false ->
  Fs.readFile (land root (pulled_path name, output_path (extension toJS) name))
              (Fs.path_of (output_path (extension toJS) name)) = Some text
  /\ Fs.lookup (Fs.path_of (pulled_path name))
               (land root (pulled_path name, output_path (extension toJS) name))
     = None.
Proof.
  intros W R D. unfold land. cbn [fst snd].
  rewrite (pulled_path_of _ W) in *.
  assert (O : Fs.path_of (output_path (extension toJS) name)
              = ["config"; "locales";
                 underscore_first_hyphen (locale_of name) ++ extension toJS]).
  { apply output_path_of; [exact W | destruct toJS; reflexivity |].
    destruct toJS; cbn; repeat eexists. }
  rewrite O in *.
  apply readFile_lookup in R.
  destruct (rename_beside ["config"; "locales"] (locale_of name ++ ".yml")
              (underscore_first_hyphen (locale_of name) ++ extension toJS)
              root text) as (root' & Rn & Ly & Lx); try assumption.
  { intros E. apply (f_equal String.length) in E.
    rewrite !length_append, underscore_length in E.
    destruct toJS; cbn in E; lia. }
  cbn [List.app] in Rn, Ly, Lx. rewrite Rn.
  split; [apply readFile_lookup; exact Ly | exact Lx].
Qed.

(** X8.  The document of a file is a mapping that has no entry of its own
    under the locale code of the file's name (and the code names nothing a
    mapping inherits), or has a string, a number, a boolean or [null]
    there.  Then a turn of [_formatJSON] throws while it adds the metadata
    (lines 178-179), after [fs.rename] was called and before anything is
    written.  Only renames called so far are carried out meanwhile; and on
    whatever files the rename of this turn is carried out, if the pulled
    file is there, its YAML text comes to sit under the [.json] (or [.js])
    name and the pulled name is gone. *)
Theorem formatJSON_file_without_document
        (h : host) (files : batch) (toJS : bool) (name : string) (w : world)
        (text : string) (props : list (string * value)) (found : option value) :
  Fs.readFile (fs w) (Fs.path_of (pulled_path name)) = Some text ->
  yamljs h text = Some (VObj props) ->
  own props (locale_of name) = found ->
  accepts_meta found = false ->
  (found = None ->
   own props "__proto__" = None
   /\ existsb (String.eqb (locale_of name)) inherited = false) ->
  exists msg mid,
    _formatJSON_file h files toJS name w
    = (Err (Thrown msg),
       World (replay (landed mid) (fs w)) (version w)
         (List.app (trace w)
            (ERename (pulled_path name) (output_path (extension toJS) name)
               :: mid)))
    /\ forallb is_landing mid = true
    /\ incl (landed mid)
         (List.app (pending (trace w))
            [(pulled_path name, output_path (extension toJS) name)])
    /\ (forall root : node,
          well_named name = true ->
          Fs.readFile root (Fs.path_of (pulled_path name)) = Some text ->
          Fs.isDir root (Fs.path_of (output_path (extension toJS) name)) = false ->
          Fs.readFile
            (land root (pulled_path name, output_path (extension toJS) name))
            (Fs.path_of (output_path (extension toJS) name)) = Some text
          /\ Fs.lookup (Fs.path_of (pulled_path name))
               (land root (pulled_path name, output_path (extension toJS) name))
             = None).
Proof.
  intros R Y G A _.
  assert (N : (if toJS
               then JsString.replace "-" "_" ("config/locales/" ++ locale_of name)
                      ++ ".js"
               else JsString.replace "-" "_" ("config/locales/" ++ locale_of name)
                      ++ ".json")
              = output_path (extension toJS) name).
  { unfold output_path, extension. rewrite replace_in_file, !append_assoc.
    destruct toJS; reflexivity. }
  destruct (set_meta_refused found (VObj []) A) as (msg & Sm).
  unfold _formatJSON_file. cbv zeta. fold (locale_of name).
  change (("config/locales/" ++ locale_of name) ++ ".yml") with (pulled_path name).
  rewrite N.
  rewrite (bind_run _ _ _ _ _ (yaml_load_run h _ _ _ w R Y)).
  cbn [get_prop]. rewrite G.
  rewrite (bind_run _ _ _ _ _ (eq_refl : lift (Ok found) w = (Ok found, w))).
  rewrite (bind_run _ _ _ _ _
             (eq_refl : fs_rename (pulled_path name)
                          (output_path (extension toJS) name) w
                        = (Ok tt, _))).
  match goal with
  | |- context [bind (settle h) ?k ?w1] =>
      destruct (settle_run h w1) as (mid & St & L & I);
      rewrite (bind_run _ _ _ _ _ St)
  end.
  cbn [fs version trace] in *.
  rewrite Sm.
  match goal with
  | |- context [bind (lift (Err ?e)) ?k ?w1] =>
      rewrite (bind_err (lift (Err e)) k w1 w1 e eq_refl)
  end.
  exists msg, mid. split.
  { rewrite <- List.app_assoc. reflexivity. }
  split; [exact L |]. split.
  { rewrite pending_snoc in I. cbn [note] in I. exact I. }
  intros root. apply land_output.
Qed.

Lemma formatJSON_file_without_document_witness :
  exists msg mid,
    _formatJSON_file Sample.gem Sample.pulled_batch false "en.yml" Sample.misnamed
    = (Err (Thrown msg),
       World (replay (landed mid) (fs Sample.misnamed)) (version Sample.misnamed)
         (List.app (trace Sample.misnamed)
            (ERename (pulled_path "en.yml") (output_path (extension false) "en.yml")
               :: mid)))
    /\ forallb is_landing mid = true.
Proof.
  destruct (formatJSON_file_without_document
              Sample.gem Sample.pulled_batch false "en.yml" Sample.misnamed
              Sample.en_yml [("en-US", VObj [("hello", VStr "Hi")])] None
              eq_refl eq_refl eq_refl eq_refl
              (fun _ => conj eq_refl eq_refl))
    as (msg & mid & E & L & _).
  exists msg, mid. split; [exact E | exact L].
Defined.

Example misnamed_file_keeps_yaml :
  Fs.readFile
    (fs (snd (_formatJSON_file Sample.gem Sample.pulled_batch false "en.yml"
                Sample.misnamed)))
    ["config"; "locales"; "en.json"]
  = Some Sample.en_yml.
Proof. vm_compute. reflexivity. Qed.

(** X9.  A turn of [_formatJSON] reads [config/locales/<code>.yml], where
    [<code>] is what stands before the first [.yml] of the file name.  When
    that file cannot be read, cannot be parsed, or holds the empty document,
    the turn throws and leaves the world exactly as it was: nothing is
    renamed, nothing written, no event recorded. *)
Theorem formatJSON_file_unloadable
        (h : host) (files : batch) (toJS : bool) (name : string) (w : world) :
  match Fs.readFile (fs w) (Fs.path_of (pulled_path name)) with
  | None =>
      _formatJSON_file h files toJS name w
      = (Err (Thrown ("Error: cannot read " ++ pulled_path name)), w)
  | Some text =>
      match yamljs h text with
      | None =>
          _formatJSON_file h files toJS name w
          = (Err (Thrown ("YamlParseException in " ++ pulled_path name)), w)
      | Some VNull =>
          _formatJSON_file h files toJS name w
          = (Err (Thrown ("TypeError: Cannot read property '" ++ locale_of name
                            ++ "' of null")), w)
      | Some _ => True
      end
  end.
Proof.
  unfold _formatJSON_file. cbv zeta. fold (locale_of name).
  change (("config/locales/" ++ locale_of name) ++ ".yml") with (pulled_path name).
  unfold bind at 1. unfold yaml_load, bind, get_fs, ret, raise.
  destruct (Fs.readFile (fs w) (Fs.path_of (pulled_path name))) as [text |];
    [| reflexivity].
  destruct (yamljs h text) as [[| | | | | |] |]; try exact I; reflexivity.
Qed.

Example file_without_extension_is_not_found :
  _formatJSON_file Sample.gem Sample.pulled_batch false "README" Sample.pulled
  = (Err (Thrown "Error: cannot read config/locales/README.yml"), Sample.pulled).
Proof. vm_compute. reflexivity. Qed.

(** ** The fetcher *)

Lemma emit_ok (e : event) (w w1 : world) (u : unit) :
  emit e w = (Ok u, w1) ->
  w1 = World (fs w) (version w) (List.app (trace w) [e]).
Proof. unfold emit. intros [= _ <-]. reflexivity. Qed.

Lemma fs_mkdir_ok (p : string) (w w1 : world) (u : unit) :
  fs_mkdir p w = (Ok u, w1) ->
  w1 = World (match Fs.mkdir (fs w) (Fs.path_of p) with
              | Some r => r
              | None => fs w
              end) (version w) (List.app (trace w) [EMkdir p]).
Proof.
  destruct w as [root v tr].
  unfold fs_mkdir, bind, get_fs, put_fs, emit, ret.
  cbv beta iota delta [fs version trace].
  destruct (Fs.mkdir root (Fs.path_of p)); intros [= _ <-]; reflexivity.
Qed.

Lemma fs_openSync_ok (p : string) (w w1 : world) (u : unit) :
  fs_openSync_w p w = (Ok u, w1) ->
  exists root', Fs.create (fs w) (Fs.path_of p) = Some root'
                /\ w1 = World root' (version w) (List.app (trace w) [EOpen p]).
Proof.
  destruct w as [root v tr].
  unfold fs_openSync_w, bind, get_fs, put_fs, emit, ret, raise.
  cbv beta iota delta [fs version trace].
  destruct (Fs.create root (Fs.path_of p)) as [root' |]; [| discriminate].
  intros [= _ <-]. exists root'. split; reflexivity.
Qed.

Lemma command_ok (h : host) (c : string) (w w1 : world) (out : string) :
  command h c w = (Ok out, w1) ->
  out = fst (exec h c (fs w))
  /\ w1 = World (snd (exec h c (fs w))) (version w) (List.app (trace w) [EExec c]).
Proof.
  destruct w as [root v tr].
  unfold command, bind, get_fs, put_fs, emit, ret.
  cbv beta iota delta [fs version trace].
  destruct (exec h c root) as [o r]. cbv beta iota delta [fs version trace].
  intros [= <- <-]. split; reflexivity.
Qed.

(** The loop of [_getLocales] that builds the summary: it leaves the world as
    it is and joins the items with [", "]. *)
Lemma summary_loop (h : host) (total : nat) (names : list string) (i : nat)
      (acc : string) (w w1 : world) (s : string) :
  i + List.length names = total ->
  for_in names i
    (fun i name locales =>
       n <- _countEntries h name ;;
       ret (locales ++ chalk.blue name
              ++ chalk.italic (" [" ++ JsString.of_nat n ++ "]")
              ++ (if (i <? total - 1)%nat then ", " else ""))) acc w
  = (Ok s, w1) ->
  w1 = w
  /\ exists counts,
      Forall2 (fun name n => _countEntries h name w = (Ok n, w)) names counts
      /\ s = acc ++ JsString.join ", " (map pulled_item (combine names counts)).
Proof.
  revert i acc w. induction names as [| name names IH]; intros i acc w T H.
  - cbn in H. injection H as <- <-. split; [reflexivity |].
    exists []. split; [constructor |]. cbn. rewrite append_nil_r. reflexivity.
  - cbn [for_in] in H. bind_as H acc'.
    apply bind_ok in E as (n & w2 & C & E). injection E as <- <-.
    pose proof (countEntries_pure h name w) as P. rewrite C in P. cbn [snd] in P.
    subst w2. cbn [List.length] in T.
    apply (IH (S i)) in H; [| lia]. clear IH.
    destruct H as (Hw & counts & F & Hs). subst w1 s.
    split; [reflexivity |].
    exists (n :: counts). split; [constructor; assumption |].
    unfold chalk.blue, chalk.italic.
    destruct names as [| name' names]; destruct counts as [| n' counts];
      try (inversion F; fail).
    + cbn [combine map JsString.join String.concat].
      destruct (Nat.ltb_spec i (total - 1)) as [L | _]; [cbn in T; lia |].
      unfold pulled_item. cbn [fst snd].
      repeat (progress (rewrite ?append_assoc, ?append_nil_r; cbn [append])).
      reflexivity.
    + cbn [combine map]. rewrite join_cons2.
      destruct (Nat.ltb_spec i (total - 1)) as [_ | G]; [| cbn in T; lia].
      unfold pulled_item. cbn [fst snd].
      repeat (progress (rewrite ?append_assoc; cbn [append])). reflexivity.
Qed.

Ltac step_emit H :=
  let u := fresh "u" in
  let w1 := fresh "w" in
  let E := fresh "E" in
  apply bind_ok in H; destruct H as (u & w1 & E & H); cbv beta in H;
  apply emit_ok in E; subst w1; cbn [fs version trace] in H.

Lemma countEntries_same_files (h : host) (name : string) (w1 w2 : world) (n : nat) :
  fs w1 = fs w2 ->
  _countEntries h name w1 = (Ok n, w1) ->
  _countEntries h name w2 = (Ok n, w2).
Proof.
  intros F. rewrite !countEntries_run, F. congruence.
Qed.

(** What a call of [_getLocales] that returns normally has done. *)
Lemma getLocales_ok (h : host) (w w' : world) (b : batch) :
  _getLocales h w = (Ok b, w') ->
  exists root0 text log counts evs,
    prepared (fs w) = Some root0
    /\ fs w' = snd (exec h "localeapp pull" root0)
    /\ version w' = version w
    /\ Fs.readdir (fs w') (Fs.path_of "config/locales") = Some (files b)
    /\ Fs.readFile (fs w') (Fs.path_of "log/localeapp.yml") = Some text
    /\ yamljs h text = Some log
    /\ get_prop log "polled_at" = Ok (polledAt b)
    /\ get_prop log "updated_at" = Ok (updatedAt b)
    /\ Forall2 (fun name n => _countEntries h name w' = (Ok n, w'))
               (files b) counts
    /\ trace w' = List.app (trace w) evs
    /\ In (ELog (pulled_report (files b) counts)) evs.
Proof.
  unfold _getLocales, grunt.verbose_writeln, grunt.verbose_write,
    grunt.log_writeln. intros H.
  step_emit H. step_emit H.
  bind_as H made1. apply fs_mkdir_ok in E. subst w0. cbn [fs version trace] in H.
  step_emit H. step_emit H.
  bind_as H made2. apply fs_mkdir_ok in E. subst w0. cbn [fs version trace] in H.
  step_emit H. step_emit H.
  bind_as H opened. apply fs_openSync_ok in E as (root0 & Cr & ->).
  cbn [fs version trace] in *.
  step_emit H. step_emit H.
  bind_as H out. apply command_ok in E as (-> & ->). cbn [fs version trace] in H.
  bind_as H names. apply readdir_ok in E as (-> & R). cbn [fs version trace] in *.
  step_emit H. step_emit H.
  bind_as H locales.
  apply (summary_loop h (List.length names) names 0 "") in E
    as (-> & counts & F & ->); [| reflexivity].
  step_emit H. step_emit H.
  bind_as H log. apply yaml_load_ok in E as (-> & text & Rl & Y).
  cbn [fs version trace] in *.
  bind_as H polled. apply lift_ok in E as (Gp & ->).
  bind_as H updated. apply lift_ok in E as (Gu & ->).
  injection H as <- <-. cbn [fs version trace files polledAt updatedAt] in *.
  exists root0, text, log, counts. eexists.
  split; [exact Cr |]. split; [reflexivity |]. split; [reflexivity |].
  split; [exact R |]. split; [exact Rl |]. split; [exact Y |].
  split; [exact Gp |]. split; [exact Gu |].
  split.
  { eapply Forall2_impl; [| exact F]. intros name n C.
    eapply countEntries_same_files; [| exact C]. reflexivity. }
  split.
  - repeat rewrite <- List.app_assoc. cbn [List.app]. reflexivity.
  - cbn [In]. do 14 right. left. reflexivity.
Qed.

(** X10.  When [_getLocales] returns normally, the files are exactly as the
    pull command left them (the fetcher itself only made its working
    directories and emptied the log file before the pull), the variable
    [version] is as it was, the batch lists [config/locales] as it is then,
    and its two timestamps are the entries [polled_at] and [updated_at] of
    the document in [log/localeapp.yml]. *)
Theorem getLocales_returns_the_pull (h : host) (w w' : world) (b : batch) :
  _getLocales h w = (Ok b, w') ->
  exists root0 text log,
    prepared (fs w) = Some root0
    /\ fs w' = snd (exec h "localeapp pull" root0)
    /\ version w' = version w
    /\ Fs.readdir (fs w') (Fs.path_of "config/locales") = Some (files b)
    /\ Fs.readFile (fs w') (Fs.path_of "log/localeapp.yml") = Some text
    /\ yamljs h text = Some log
    /\ get_prop log "polled_at" = Ok (polledAt b)
    /\ get_prop log "updated_at" = Ok (updatedAt b).
Proof.
  intros H.
  apply getLocales_ok in H
    as (root0 & text & log & counts & evs & A & B & C & D & E & F & G & I & _).
  exists root0, text, log. repeat split; assumption.
Qed.

Lemma getLocales_returns_the_pull_witness :
  exists root0,
    prepared (fs Sample.start) = Some root0
    /\ fs (snd (_getLocales Sample.gem Sample.start))
       = snd (exec Sample.gem "localeapp pull" root0).
Proof.
  assert (E : _getLocales Sample.gem Sample.start
              = (Ok Sample.pulled_batch, snd (_getLocales Sample.gem Sample.start)))
    by (vm_compute; reflexivity).
  destruct (getLocales_returns_the_pull _ _ _ _ E)
    as (root0 & text & log & A & B & _).
  exists root0. split; [exact A | exact B].
Defined.

(** X11.  When [_getLocales] returns normally, every file listed in
    [config/locales] was read, parsed and counted without error, and the
    line logged gives the number of files and, for each file in order, its
    name and its count, the items separated by [", "] with no separator
    after the last one. *)
Theorem getLocales_counts_every_file (h : host) (w w' : world) (b : batch) :
  _getLocales h w = (Ok b, w') ->
  exists counts,
    Forall2 (fun name n => _countEntries h name w' = (Ok n, w')) (files b) counts
    /\ In (ELog (pulled_report (files b) counts)) (trace w').
Proof.
  intros H.
  apply getLocales_ok in H
    as (root0 & text & log & counts & evs & _ & _ & _ & _ & _ & _ & _ & _ & F & T & I).
  exists counts. split; [exact F |].
  rewrite T. apply in_or_app. right. exact I.
Qed.

Lemma getLocales_counts_every_file_witness :
  exists counts,
    Forall2 (fun name n =>
               _countEntries Sample.gem name
                 (snd (_getLocales Sample.gem Sample.start))
               = (Ok n, snd (_getLocales Sample.gem Sample.start)))
            (files Sample.pulled_batch) counts
    /\ In (ELog (pulled_report (files Sample.pulled_batch) counts))
          (trace (snd (_getLocales Sample.gem Sample.start))).
Proof.
  assert (E : _getLocales Sample.gem Sample.start
              = (Ok Sample.pulled_batch, snd (_getLocales Sample.gem Sample.start)))
    by (vm_compute; reflexivity).
  exact (getLocales_counts_every_file _ _ _ _ E).
Defined.

Example pulled_report_sample :
  pulled_report ["en-US.yml"; "fr-FR.yml"] [1; 1]
  = tick ++ "2 locale(s) pulled from localeapp.com : (en-US.yml [1], fr-FR.yml [1])".
Proof. reflexivity. Qed.

(** ** The version reported by the dependency checker *)

Lemma prefix_char (x c : ascii) (s : string) :
  prefix (String x "") (String c s) = Ascii.eqb x c.
Proof. rewrite prefix_cons, prefix_nil. apply andb_true_r. Qed.

Lemma split_char_last (x : ascii) (a cur : string) :
  occurs (String x "") a = false ->
  JsString.split_from (String x "") 0 cur a = [cur ++ a].
Proof.
  revert cur. induction a as [| c s IH]; intros cur O.
  - cbn. rewrite append_nil_r. reflexivity.
  - cbn [occurs] in O. apply orb_false_elim in O as [P O].
    cbn [JsString.split_from]. rewrite P, (IH _ O), append_assoc. reflexivity.
Qed.

Lemma split_char_piece (x : ascii) (a b cur : string) :
  occurs (String x "") a = false ->
  JsString.split_from (String x "") 0 cur (a ++ String x b)
  = (cur ++ a) :: JsString.split_from (String x "") 0 "" b.
Proof.
  revert cur. induction a as [| c s IH]; intros cur O.
  - cbn [append JsString.split_from]. rewrite prefix_char, Ascii.eqb_refl.
    rewrite append_nil_r. reflexivity.
  - cbn [occurs] in O. apply orb_false_elim in O as [P O].
    change (String c s ++ String x b) with (String c (s ++ String x b)).
    cbn [JsString.split_from].
    rewrite prefix_char in *. rewrite P, (IH _ O), append_assoc. reflexivity.
Qed.

Lemma substring_whole_prefix (s t : string) :
  substring 0 (String.length s) (s ++ t) = s.
Proof.
  induction s as [| c s IH]; cbn.
  - destruct t; reflexivity.
  - rewrite IH. reflexivity.
Qed.

Lemma slice_drops_last (s : string) (c : ascii) :
  JsString.slice 0 (-1) (s ++ String c "") = s.
Proof.
  unfold JsString.slice, JsString.clamp.
  rewrite length_append. cbn [String.length].
  change (0 <? 0)%Z with false. change (-1 <? 0)%Z with true.
  cbv beta iota zeta.
  change (Z.to_nat 0) with 0%nat. rewrite Nat.min_0_l, Nat.sub_0_r.
  replace (Z.to_nat (Z.max (Z.of_nat (String.length s + 1) + -1) 0))
    with (String.length s) by lia.
  apply substring_whole_prefix.
Qed.

(** X12.  Whatever the last character of the captured output is, the
    checker drops it and keeps the rest as [version]; when that rest is
    three words separated by single spaces, possibly followed by a space and
    more text, the version reported is the third word. *)
Theorem checkLocaleappGem_reports_third_word
    (h : host) (w : world) (a b c more : string) (final : ascii) :
  occurs " " a = false -> occurs " " b = false -> occurs " " c = false ->
  more = "" \/ prefix " " more = true ->
  fst (exec h "localeapp -v" (fs w))
    = a ++ " " ++ b ++ " " ++ c ++ more ++ String final "" ->
  _checkLocaleappGem h w
  = (Ok tt,
     World (snd (exec h "localeapp -v" (fs w)))
       (Some (a ++ " " ++ b ++ " " ++ c ++ more))
       (List.app (trace w)
          [EVerbose "Looking for localeapp gem"; EExec "localeapp -v";
           ELog (tick ++ "localeapp gem installed (v" ++ c ++ ")");
           EVerbose rule])).
Proof.
  intros A B C M E.
  pose proof (checkLocaleappGem_run h w) as R. cbv zeta in R.
  rewrite R. unfold gem_report. rewrite E.
  replace (a ++ " " ++ b ++ " " ++ c ++ more ++ String final "")
    with ((a ++ " " ++ b ++ " " ++ c ++ more) ++ String final "")
    by (rewrite <- !append_assoc; reflexivity).
  rewrite slice_drops_last.
  unfold JsString.split.
  change (a ++ " " ++ b ++ " " ++ c ++ more)
    with (a ++ String " " (b ++ String " " (c ++ more))).
  rewrite (split_char_piece " " a _ "" A).
  rewrite (split_char_piece " " b _ "" B).
  assert (T : exists rest,
             JsString.split_from " " 0 "" (c ++ more) = c :: rest).
  { destruct M as [-> | P].
    - rewrite append_nil_r, (split_char_last " " c "" C). eexists. reflexivity.
    - destruct more as [| m more]; [discriminate |].
      rewrite prefix_char in P. apply Ascii.eqb_eq in P. subst m.
      rewrite (split_char_piece " " c _ "" C). eexists. reflexivity. }
  destruct T as (rest & ->).
  reflexivity.
Qed.

Lemma checkLocaleappGem_reports_third_word_witness :
  _checkLocaleappGem Sample.gem Sample.start
  = (Ok tt,
     World (snd (exec Sample.gem "localeapp -v" (fs Sample.start)))
       (Some ("localeapp" ++ " " ++ "version" ++ " " ++ "0.8.0" ++ ""))
       (List.app (trace Sample.start)
          [EVerbose "Looking for localeapp gem"; EExec "localeapp -v";
           ELog (tick ++ "localeapp gem installed (v" ++ "0.8.0" ++ ")");
           EVerbose rule])).
Proof.
  apply (checkLocaleappGem_reports_third_word Sample.gem Sample.start
           "localeapp" "version" "0.8.0" "" "010"%char).
  - reflexivity.
  - reflexivity.
  - reflexivity.
  - left. reflexivity.
  - vm_compute. reflexivity.
Defined.

(** ** A project that already has a file called [log] *)

Lemma mkdir_existing (root n : node) (name : string) :
  Fs.lookup [name] root = Some n -> Fs.mkdir root [name] = None.
Proof.
  intros L. destruct root as [c | es]; [discriminate L |].
  cbn [Fs.lookup] in L. unfold Fs.mkdir. cbn [Fs.alter].
  destruct (Fs.find es name); [reflexivity | discriminate L].
Qed.

Lemma create_below_file (root : node) (name leaf c : string) :
  Fs.lookup [name] root = Some (File c) -> Fs.create root [name; leaf] = None.
Proof.
  intros L. destruct root as [c0 | es]; [discriminate L |].
  cbn [Fs.lookup] in L. unfold Fs.create. cbn [Fs.alter].
  destruct (Fs.find es name) as [n |]; [| discriminate L].
  injection L as ->. reflexivity.
Qed.

(** X13.  In a project where [log] is a regular file, [_getLocales] throws
    at [fs.openSync('log/localeapp.yml', 'w')]: the failure of
    [fs.mkdir('log')] went unseen.  No command has been run by then, the
    file [log] is as it was and so is [version]. *)
Theorem getLocales_needs_log_directory (h : host) (w : world) (c : string) :
  Fs.lookup ["log"] (fs w) = Some (File c) ->
  exists w',
    _getLocales h w = (Err (Thrown "Error: cannot open log/localeapp.yml"), w')
    /\ cmds (trace w') = cmds (trace w)
    /\ version w' = version w
    /\ Fs.lookup ["log"] (fs w') = Some (File c).
Proof.
  intros L.
  unfold _getLocales, fs_mkdir, fs_openSync_w, grunt.verbose_writeln,
    grunt.verbose_write, bind, emit, get_fs, put_fs, ret, raise.
  cbn [fs version trace].
  change (Fs.path_of "config/locales") with ["config"; "locales"].
  change (Fs.path_of "log") with ["log"].
  change (Fs.path_of "log/localeapp.yml") with ["log"; "localeapp.yml"].
  destruct (Fs.mkdir (fs w) ["config"; "locales"]) as [r1 |] eqn:M1;
    cbn [fs version trace].
  - assert (L1 : Fs.lookup ["log"] r1 = Some (File c)).
    { rewrite <- L. unfold Fs.mkdir in M1.
      apply (alter_frame _ _ _ _ _ ["log"] M1). reflexivity. }
    rewrite (mkdir_existing _ _ _ L1). cbn [fs version trace].
    rewrite (create_below_file _ _ "localeapp.yml" _ L1).
    eexists. split; [reflexivity |]. cbn [fs version trace].
    repeat split; try assumption.
    rewrite <- !List.app_assoc, cmds_app. cbn. apply List.app_nil_r.
  - rewrite (mkdir_existing _ _ _ L). cbn [fs version trace].
    rewrite (create_below_file _ _ "localeapp.yml" _ L).
    eexists. split; [reflexivity |]. cbn [fs version trace].
    repeat split; try assumption.
    rewrite <- !List.app_assoc, cmds_app. cbn. apply List.app_nil_r.
Qed.

Lemma getLocales_needs_log_directory_witness :
  exists w',
    _getLocales Sample.gem
      (World (Dir [("config", Dir []); ("log", File "2014-07-01 started")])
             None [])
    = (Err (Thrown "Error: cannot open log/localeapp.yml"), w')
    /\ cmds (trace w') = []
    /\ version w' = None
    /\ Fs.lookup ["log"] (fs w') = Some (File "2014-07-01 started").
Proof.
  apply (getLocales_needs_log_directory Sample.gem
           (World (Dir [("config", Dir []); ("log", File "2014-07-01 started")])
                  None [])
           "2014-07-01 started").
  reflexivity.
Defined.

(** ** A rename carried out after the write *)

Lemma landings_from_nothing (evs : list event) :
  forallb is_landing evs = true -> fold_left note evs [] = [].
Proof.
  intros F. pose proof (pending_after_landings evs [] F) as I.
  destruct (fold_left note evs []) as [| r q]; [reflexivity |].
  destruct (I r (or_introl eq_refl)).
Qed.

(** Landings that leave the one pending rename pending are none. *)
Lemma landings_of_one (r : string * string) (mid : list event) :
  forallb is_landing mid = true ->
  incl (landed mid) [r] ->
  fold_left note mid [r] <> [] ->
  mid = [].
Proof.
  destruct mid as [| e rest]; [reflexivity |].
  cbn [forallb]. intros F I N. apply andb_prop in F as [E F].
  destruct e; try discriminate E. cbn [landed] in I.
  destruct (I (src, dst) (or_introl eq_refl)) as [Er | []]. subst r.
  exfalso. apply N. cbn [fold_left note drop_first].
  rewrite (proj2 (same_rename_eq (src, dst) (src, dst)) eq_refl).
  apply landings_from_nothing, F.
Qed.



(** The task on the sample project when each rename is carried out only
    after the write of its turn: what is published as [en_US.json] is the
    YAML text. *)
Example late_renames_publish_yaml :
  Fs.readFile
    (fs (snd (_formatJSON Sample.slow Sample.pulled_batch false Sample.pulled)))
    ["config"; "locales"; "en_US.json"]
  = Some Sample.en_yml
  /\ map fst (writes (trace (snd (_formatJSON Sample.slow Sample.pulled_batch
                                    false Sample.pulled))))
     = ["config/locales/en_US.json"; "config/locales/fr_FR.json"].
Proof. vm_compute. split; reflexivity. Qed.
